(** * Registry asset builder: a shallow embedding of
      [scripts/build-registry-assets.py]

    The script packages every module directory below a modules root into a
    normalised [.tar.gz] archive and writes a registry index describing the
    archives.  This file embeds the script function by function
    ([read_module_yaml_scalars], [sha256_file], [list_files],
    [build_tarball], [main]) over an explicit model of what the script
    touches: the source tree (regular files, directories, symbolic links,
    with the [stat] fields the script or [tarfile] reads), the output
    directory, the parsed legacy registry and the command-line arguments.

    Conventions.
    - A Python [str] is a list of Unicode code points ([N]); a Python
      [bytes] is a list of [byte].
    - A raised exception is the [Err] branch of [result]; the constructors
      of [error] are the distinct [raise] sites of the script plus the
      interpreter errors the modelled calls can raise.
    - Library calls ([os.walk], [tarfile.TarFile.gettarinfo], [hashlib],
      [str.splitlines], [re.match] on the one pattern used, the [utf-8]
      codec) are modelled after CPython on a POSIX system.
    - FIFOs, sockets and device nodes are not part of the tree model. *)

From Stdlib Require Import ZArith NArith Strings.Byte Strings.Ascii Strings.String.
From stdpp Require Import prelude gmap sorting strings.

Local Open Scope N_scope.

(** ** Python strings *)

Definition char := N.
Definition str := list char.

Fixpoint py (s : string) : str :=
  match s with
  | EmptyString => []
  | String a rest => N_of_ascii a :: py rest
  end.

(** [str.isspace] for one code point (the set [re]'s [\s] uses for [str]
    patterns as well). *)
Definition is_space (c : char) : bool :=
  ((9 <=? c) && (c <=? 13)) || ((28 <=? c) && (c <=? 32))
  || (c =? 133) || (c =? 160) || (c =? 5760)
  || ((8192 <=? c) && (c <=? 8202))
  || (c =? 8232) || (c =? 8233) || (c =? 8239) || (c =? 8287) || (c =? 12288).

(** Line boundaries of [str.splitlines], apart from the pair CR LF. *)
Definition is_linebreak (c : char) : bool :=
  ((10 <=? c) && (c <=? 13)) || ((28 <=? c) && (c <=? 30))
  || (c =? 133) || (c =? 8232) || (c =? 8233).

(** The regular expression class [[a-zA-Z0-9_]]. *)
Definition is_key_char (c : char) : bool :=
  ((97 <=? c) && (c <=? 122)) || ((65 <=? c) && (c <=? 90))
  || ((48 <=? c) && (c <=? 57)) || (c =? 95).

Definition SLASH : char := 47.
Definition COLON : char := 58.
Definition HASH : char := 35.
Definition DQUOTE : char := 34.
Definition SQUOTE : char := 39.
Definition LF : char := 10.
Definition CR : char := 13.

Definition str_eqb (a b : str) : bool := bool_decide (a = b).

Fixpoint lstrip (s : str) : str :=
  match s with
  | c :: rest => if is_space c then lstrip rest else s
  | [] => []
  end.

Definition rstrip (s : str) : str := rev (lstrip (rev s)).

Definition strip (s : str) : str := rstrip (lstrip s).

Definition startswith (p s : str) : bool := bool_decide (take (length p) s = p).

Definition endswith (p s : str) : bool :=
  bool_decide (drop (length s - length p) s = p).

(** [sep.join(parts)]. *)
Fixpoint join (sep : str) (parts : list str) : str :=
  match parts with
  | [] => []
  | [p] => p
  | p :: rest => p ++ sep ++ join sep rest
  end.

(** [s.split(sep)] for a one-character separator. *)
Fixpoint split_on (sep : char) (s : str) : list str :=
  match s with
  | [] => [[]]
  | c :: rest =>
      if c =? sep then [] :: split_on sep rest
      else match split_on sep rest with
           | w :: ws => (c :: w) :: ws
           | [] => [[c]]
           end
  end.

(** Comparison of two [str] values: lexicographic on code points. *)
Fixpoint str_leb (a b : str) : bool :=
  match a, b with
  | [], _ => true
  | _ :: _, [] => false
  | x :: a', y :: b' =>
      if x <? y then true else if x =? y then str_leb a' b' else false
  end.

Definition str_le (a b : str) : Prop := str_leb a b = true.

Global Instance str_le_dec a b : Decision (str_le a b).
Proof. unfold str_le. apply _. Defined.

(** [list.sort()] on a list of [str]. *)
Definition sort_strs (l : list str) : list str := merge_sort str_le l.

(** ** Exceptions *)

Inductive error :=
| MetadataIncomplete (missing : list str) (path : str)
    (* RuntimeError: module.yaml missing required keys [missing]: [path] *)
| SymlinkedDirectory (p : str)
    (* RuntimeError: Refusing to package symlinked directory: [p] *)
| SymlinkedFile (p : str)
    (* RuntimeError: Refusing to package symlinked file: [p] *)
| SymlinkOrHardlink (src : str)
    (* RuntimeError: Refusing to package symlink/hardlink: [src] *)
| OSError (p : str)
    (* FileNotFoundError, IsADirectoryError, ... raised by [open] *)
| UnicodeDecodeError (p : str)
| AttributeError.
    (* [.get] on a JSON value that is not an object *)

Inductive result (A : Type) :=
| Ok (a : A)
| Err (e : error).
Arguments Ok {A} a.
Arguments Err {A} e.

Global Instance result_bind : MBind result := λ A B f m,
  match m with
  | Ok a => f a
  | Err e => Err e
  end.
Global Instance result_ret : MRet result := λ A a, Ok a.

(** The failure the specification calls [SymlinkRejected]. *)
Definition symlink_rejected (e : error) : option str :=
  match e with
  | SymlinkedDirectory p | SymlinkedFile p | SymlinkOrHardlink p => Some p
  | _ => None
  end.

(** ** The source tree *)

(** The fields of [os.lstat] the script or [tarfile] reads.  [st_mode] is
    the whole mode word; the file type is the constructor of [node]. *)
Record stat_result := Stat {
  st_mode : Z;
  st_ino : Z;
  st_dev : Z;
  st_nlink : Z;
  st_uid : Z;
  st_gid : Z;
  st_mtime : Z;
}.

(** A directory lists its entries in the order [os.scandir] reports them.
    A symbolic link records its text and what it resolves to ([None] when
    dangling). *)
#[local] Unset Elimination Schemes.
Inductive node :=
| File (st : stat_result) (data : list byte)
| Dir (st : stat_result) (entries : list (str * node))
| Symlink (st : stat_result) (linkname : str) (target : option node).
#[local] Set Elimination Schemes.

Fixpoint resolve (n : node) : option node :=
  match n with
  | Symlink _ _ (Some t) => resolve t
  | Symlink _ _ None => None
  | _ => Some n
  end.

(** [os.DirEntry.is_dir()] and [Path.is_dir()]: follow links. *)
Definition is_dir (n : node) : bool :=
  match resolve n with
  | Some (Dir _ _) => true
  | _ => false
  end.

Definition is_symlink (n : node) : bool :=
  match n with
  | Symlink _ _ _ => true
  | _ => false
  end.

(** [os.walk(top, followlinks=False)], top-down: the triples
    [(root, dirs, files)] in the order they are yielded.  [root] is kept as
    the list of path components below [top]; [dirs] and [files] carry the
    directory entry next to its name, so that [Path.is_symlink] on
    [root / name] is answered by the entry itself. *)
Fixpoint walk (root : list str) (n : node)
  : list (list str * list (str * node) * list (str * node)) :=
  match n with
  | Dir _ es =>
      (root, List.filter (λ e, is_dir e.2) es,
             List.filter (λ e, negb (is_dir e.2)) es)
      :: flat_map (λ e, match e.2 with
                        | Dir _ _ => walk (root ++ [e.1]) e.2
                        | _ => []
                        end) es
  | _ => []
  end.

(** The directory [os.walk(top)] scans when [top] is itself a link. *)
Definition walk_top (tree : node) : node := default tree (resolve tree).

Definition DS_Store : str := py ".DS_Store".

(** [p.relative_to(module_dir).as_posix()] for [p] below [module_dir]. *)
Definition as_posix (comps : list str) : str := join [SLASH] comps.

(** [str(dir / rel)]. *)
Definition path_join (dir rel : str) : str := dir ++ [SLASH] ++ rel.

(** ** [list_files] *)

Section list_files.
Variable module_dir : str.

(** [for d in list(dirs)] *)
Fixpoint check_dirs (root : list str) (dirs : list (str * node)) : result unit :=
  match dirs with
  | [] => Ok tt
  | (d, n) :: rest =>
      if is_symlink n
      then Err (SymlinkedDirectory (path_join module_dir (as_posix (root ++ [d]))))
      else check_dirs root rest
  end.

(** [for f in files] *)
Fixpoint add_files (root : list str) (files : list (str * node)) (out : list str)
  : result (list str) :=
  match files with
  | [] => Ok out
  | (f, n) :: rest =>
      if str_eqb f DS_Store then add_files root rest out
      else if is_symlink n
      then Err (SymlinkedFile (path_join module_dir (as_posix (root ++ [f]))))
      else add_files root rest (out ++ [as_posix (root ++ [f])])
  end.

(** [for root, dirs, files in os.walk(...)] *)
Fixpoint scan (items : list (list str * list (str * node) * list (str * node)))
  (out : list str) : result (list str) :=
  match items with
  | [] => Ok out
  | (root, dirs, files) :: rest =>
      _ ← check_dirs root dirs;
      out' ← add_files root files out;
      scan rest out'
  end.

Definition list_files (tree : node) : result (list str) :=
  out ← scan (walk [] (walk_top tree)) [];
  Ok (sort_strs out).
End list_files.

(** ** Path lookup *)

Fixpoint lookup_entry (name : str) (es : list (str * node)) : option node :=
  match es with
  | [] => None
  | (n, c) :: rest => if str_eqb n name then Some c else lookup_entry name rest
  end.

(** Resolution of a relative path: links are followed in every component
    but the last. *)
Fixpoint lstat_from (n : node) (comps : list str) : option node :=
  match comps with
  | [] => Some n
  | c :: rest =>
      match resolve n with
      | Some (Dir _ es) => n' ← lookup_entry c es; lstat_from n' rest
      | _ => None
      end
  end.

(** [os.lstat(module_dir / rel)] for a manifest path [rel]. *)
Definition lstat (tree : node) (rel : str) : option node :=
  lstat_from tree (split_on SLASH rel).

(** ** [tarfile] *)

Inductive tar_type := REGTYPE | LNKTYPE | SYMTYPE | DIRTYPE.

Record TarInfo := mkTarInfo {
  ti_name : str;
  ti_mode : Z;
  ti_uid : Z;
  ti_gid : Z;
  ti_size : Z;
  ti_mtime : Z;
  ti_type : tar_type;
  ti_linkname : str;
  ti_uname : str;
  ti_gname : str;
}.

Definition issym (ti : TarInfo) : bool :=
  match ti_type ti with SYMTYPE => true | _ => false end.
Definition islnk (ti : TarInfo) : bool :=
  match ti_type ti with LNKTYPE => true | _ => false end.

(** The user and group databases [gettarinfo] consults. *)
Record os_env := {
  getpwuid : Z → str;
  getgrgid : Z → str;
}.

Fixpoint lstrip_slash (s : str) : str :=
  match s with
  | c :: rest => if c =? SLASH then lstrip_slash rest else s
  | [] => []
  end.

Definition node_stat (n : node) : stat_result :=
  match n with
  | File st _ | Dir st _ | Symlink st _ _ => st
  end.

(** [TarFile.gettarinfo(name, arcname)] on the result [n] of
    [os.lstat(name)], with the table [TarFile.inodes] of the members seen so
    far.  A regular file whose link count exceeds one and whose inode was
    recorded under another archive name becomes a hard-link member. *)
Definition gettarinfo (env : os_env) (inodes : gmap (Z * Z) str)
  (n : node) (arcname : str) : TarInfo * gmap (Z * Z) str :=
  let arcname := lstrip_slash arcname in
  let st := node_stat n in
  let info type size linkname :=
    mkTarInfo arcname (st_mode st) (st_uid st) (st_gid st) size (st_mtime st)
              type linkname (getpwuid env (st_uid st)) (getgrgid env (st_gid st)) in
  match n with
  | File _ data =>
      let inode := (st_ino st, st_dev st) in
      let regular :=
        (info REGTYPE (Z.of_nat (length data)) [],
         if bool_decide (st_ino st = 0%Z) then inodes else <[inode := arcname]> inodes) in
      match inodes !! inode with
      | Some first =>
          if bool_decide (1 < st_nlink st)%Z && negb (str_eqb arcname first)
          then (info LNKTYPE 0%Z first, inodes)
          else regular
      | None => regular
      end
  | Dir _ _ => (info DIRTYPE 0%Z [], inodes)
  | Symlink _ linkname _ => (info SYMTYPE 0%Z linkname, inodes)
  end.

(** A [.tar.gz] file as written through [gzip.GzipFile] and
    [tarfile.TarFile]: the time stamp and file name of the gzip header, the
    members in the order of [addfile], and whether the tar stream was closed
    (end-of-archive blocks written). *)
Record archive := mkArchive {
  gz_mtime : Z;
  gz_fname : str;
  members : list (TarInfo * list byte);
  complete : bool;
}.

(** [os.path.basename]. *)
Definition basename (path : str) : str := default [] (last (split_on SLASH path)).

(** The name [GzipFile] stores in its header: the base name of the
    underlying file without a final [.gz], empty when not Latin-1. *)
Definition gzip_header_name (path : str) : str :=
  let fname := basename path in
  if forallb (λ c, c <? 256) fname then
    if endswith (py ".gz") fname then take (length fname - 3) fname else fname
  else [].

(** ** [build_tarball] *)

Section build_tarball.
Variable env : os_env.
Variable module_dir : str.
Variable tree : node.
Variable module_name : str.

(** The body of [for rel in file_list], on the state of the open
    [TarFile]: its inode table and the members added. *)
Definition add_member (rel : str) (tf : gmap (Z * Z) str * list (TarInfo * list byte))
  : result (gmap (Z * Z) str * list (TarInfo * list byte)) :=
  let src := path_join module_dir rel in
  let arcname := module_name ++ [SLASH] ++ rel in
  match lstat tree rel with
  | None => Err (OSError src)
  | Some n =>
      let '(ti, inodes) := gettarinfo env tf.1 n arcname in
      let ti := mkTarInfo (ti_name ti) (ti_mode ti) 0 0 (ti_size ti) 0
                          (ti_type ti) (ti_linkname ti) (py "root") (py "root") in
      if issym ti || islnk ti then Err (SymlinkOrHardlink src)
      else match n with
           | File _ data => Ok (inodes, tf.2 ++ [(ti, data)])
           | _ => Err (OSError src)
           end
  end.

(** The loop, keeping the state reached when an exception leaves it. *)
Fixpoint add_members (file_list : list str)
  (tf : gmap (Z * Z) str * list (TarInfo * list byte))
  : list (TarInfo * list byte) * result unit :=
  match file_list with
  | [] => (tf.2, Ok tt)
  | rel :: rest =>
      match add_member rel tf with
      | Ok tf' => add_members rest tf'
      | Err e => (tf.2, Err e)
      end
  end.

Definition archive_path (out_dir module_version : str) : str :=
  path_join out_dir (module_name ++ py "-" ++ module_version ++ py ".tar.gz").

(** [build_tarball(module_dir, out_dir, module_name, module_version)] on the
    files of the output directory.  The archive file exists from
    [out_path.open("wb")] on; when the loop raises, what was written so far
    stays behind, not closed. *)
Definition build_tarball (out_dir module_version : str) (out_files : gmap str archive)
  : gmap str archive * result str :=
  let out_path := archive_path out_dir module_version in
  match list_files module_dir tree with
  | Err e => (out_files, Err e)
  | Ok file_list =>
      let '(ms, r) := add_members file_list (∅, []) in
      let written ok := <[out_path := mkArchive 0 (gzip_header_name out_path) ms ok]> out_files in
      match r with
      | Ok _ => (written true, Ok out_path)
      | Err e => (written false, Err e)
      end
  end.
End build_tarball.

(** ** Reading a module descriptor *)

Record ModuleMeta := mkModuleMeta {
  name : str;
  version : str;
  tier : str;
  responsibility : str;
}.

Definition is_cont (b : N) : bool := (128 <=? b) && (b <=? 191).

(** The strict [utf-8] codec on the numeric values of the bytes.  [None]
    is [UnicodeDecodeError]. *)
Fixpoint utf8_decode (bs : list N) : option str :=
  match bs with
  | [] => Some []
  | b0 :: r0 =>
      if b0 <? 128 then cons b0 <$> utf8_decode r0
      else if (194 <=? b0) && (b0 <=? 223) then
        match r0 with
        | b1 :: r1 =>
            if is_cont b1
            then cons ((b0 - 192) * 64 + (b1 - 128)) <$> utf8_decode r1
            else None
        | _ => None
        end
      else if (224 <=? b0) && (b0 <=? 239) then
        match r0 with
        | b1 :: b2 :: r2 =>
            let cp := (b0 - 224) * 4096 + (b1 - 128) * 64 + (b2 - 128) in
            if is_cont b1 && is_cont b2 && (2048 <=? cp)
               && negb ((55296 <=? cp) && (cp <=? 57343))
            then cons cp <$> utf8_decode r2
            else None
        | _ => None
        end
      else if (240 <=? b0) && (b0 <=? 244) then
        match r0 with
        | b1 :: b2 :: b3 :: r3 =>
            let cp := (b0 - 240) * 262144 + (b1 - 128) * 4096
                      + (b2 - 128) * 64 + (b3 - 128) in
            if is_cont b1 && is_cont b2 && is_cont b3
               && (65536 <=? cp) && (cp <=? 1114111)
            then cons cp <$> utf8_decode r3
            else None
        | _ => None
        end
      else None
  end.

(** Text mode with [newline=None]: CR LF and a lone CR are read as LF. *)
Fixpoint universal_newlines (s : str) : str :=
  match s with
  | [] => []
  | c :: rest =>
      if c =? CR then
        LF :: match rest with
              | d :: rest' =>
                  if d =? LF then universal_newlines rest'
                  else universal_newlines rest
              | [] => []
              end
      else c :: universal_newlines rest
  end.

(** [open(path, "rb").read()]: links are followed. *)
Definition read_bytes (path : str) (n : option node) : result (list byte) :=
  match n ≫= resolve with
  | Some (File _ data) => Ok data
  | _ => Err (OSError path)
  end.

(** [path.read_text(encoding="utf-8")]. *)
Definition read_text (path : str) (n : option node) : result str :=
  data ← read_bytes path n;
  match utf8_decode (Byte.to_N <$> data) with
  | Some s => Ok (universal_newlines s)
  | None => Err (UnicodeDecodeError path)
  end.

(** [str.splitlines()], with [cur] the line being collected. *)
Fixpoint splitlines_from (cur : str) (s : str) : list str :=
  match s with
  | [] => match cur with [] => [] | _ => [cur] end
  | c :: rest =>
      if is_linebreak c then
        cur :: match rest with
               | d :: rest' =>
                   if (c =? CR) && (d =? LF) then splitlines_from [] rest'
                   else splitlines_from [] rest
               | [] => []
               end
      else splitlines_from (cur ++ [c]) rest
  end.

Definition splitlines (s : str) : list str := splitlines_from [] s.

Fixpoint take_key (s : str) : str :=
  match s with
  | c :: rest => if is_key_char c then c :: take_key rest else []
  | [] => []
  end.

Fixpoint drop_key (s : str) : str :=
  match s with
  | c :: rest => if is_key_char c then drop_key rest else s
  | [] => []
  end.

(** What [\s*(.+?)\s*$] captures on the text after the colon.  [\s*] is
    greedy, [.+?] is lazy and does not cross a line feed.  When something
    other than white space follows, the group runs from the first to the
    last such character; on white space alone the engine backtracks into
    [\s*] and the group is the last character that is not a line feed. *)
Definition regex_group2 (after : str) : option str :=
  match lstrip after with
  | [] => (λ c, [c]) <$> last (List.filter (λ c, negb (c =? LF)) after)
  | body =>
      let g := rstrip body in
      if existsb (λ c, c =? LF) g then None else Some g
  end.

(** [re.match(r"^([a-zA-Z0-9_]+):\s*(.+?)\s*$", line)]: groups 1 and 2. *)
Definition regex_match (line : str) : option (str * str) :=
  match take_key line, drop_key line with
  | (_ :: _) as key, c :: after =>
      if c =? COLON then g ← regex_group2 after; Some (key, g) else None
  | _, _ => None
  end.

(** [val[1:-1]] when [val] starts and ends with the same quote. *)
Definition unquote (val : str) : str :=
  if (startswith [DQUOTE] val && endswith [DQUOTE] val)
     || (startswith [SQUOTE] val && endswith [SQUOTE] val)
  then drop 1 (take (length val - 1) val)
  else val.

Definition wanted : gset str :=
  {[ py "name"; py "version"; py "tier"; py "responsibility" ]}.

Definition required_keys : list str :=
  [py "name"; py "version"; py "tier"; py "responsibility"].

(** What one line of the descriptor contributes: the body of the loop up
    to the assignment [found[key] = val]. *)
Definition parse_line (raw : str) : option (str * str) :=
  let line := strip raw in
  if bool_decide (line = []) || startswith [HASH] line then None
  else
    '(key, g) ← regex_match line;
    if bool_decide (key ∈ wanted) then Some (key, unquote (strip g)) else None.

Definition read_line (found : gmap str str) (raw : str) : gmap str str :=
  match parse_line raw with
  | Some (key, val) => <[key := val]> found
  | None => found
  end.

Definition scan_lines (lines : list str) : gmap str str :=
  foldl read_line ∅ lines.

Definition missing_keys (found : gmap str str) : list str :=
  List.filter (λ k, bool_decide (found !! k = None)) required_keys.

Definition read_module_yaml_scalars (path : str) (n : option node) : result ModuleMeta :=
  text ← read_text path n;
  let found := scan_lines (splitlines text) in
  match found !! py "name", found !! py "version",
        found !! py "tier", found !! py "responsibility" with
  | Some n, Some v, Some t, Some r => Ok (mkModuleMeta n v t r)
  | _, _, _, _ => Err (MetadataIncomplete (missing_keys found) path)
  end.

(** ** SHA-256 and [hashlib] *)

Module SHA256.
Local Open Scope Z_scope.

Definition w32 (x : Z) : Z := x mod 2 ^ 32.
Definition add32 (x y : Z) : Z := w32 (x + y).
Definition rotr (n x : Z) : Z := Z.lor (Z.shiftr x n) (w32 (Z.shiftl x (32 - n))).
Definition not32 (x : Z) : Z := Z.lxor x 0xffffffff.

Definition Ch (x y z : Z) : Z := Z.lxor (Z.land x y) (Z.land (not32 x) z).
Definition Maj (x y z : Z) : Z :=
  Z.lxor (Z.lxor (Z.land x y) (Z.land x z)) (Z.land y z).
Definition Sigma0 (x : Z) : Z := Z.lxor (Z.lxor (rotr 2 x) (rotr 13 x)) (rotr 22 x).
Definition Sigma1 (x : Z) : Z := Z.lxor (Z.lxor (rotr 6 x) (rotr 11 x)) (rotr 25 x).
Definition sigma0 (x : Z) : Z := Z.lxor (Z.lxor (rotr 7 x) (rotr 18 x)) (Z.shiftr x 3).
Definition sigma1 (x : Z) : Z := Z.lxor (Z.lxor (rotr 17 x) (rotr 19 x)) (Z.shiftr x 10).

(** The round constants and the initial hash value, in decimal. *)
Definition K : list Z := [
  1116352408; 1899447441; 3049323471; 3921009573; 961987163; 1508970993;
  2453635748; 2870763221; 3624381080; 310598401; 607225278; 1426881987;
  1925078388; 2162078206; 2614888103; 3248222580; 3835390401; 4022224774;
  264347078; 604807628; 770255983; 1249150122; 1555081692; 1996064986;
  2554220882; 2821834349; 2952996808; 3210313671; 3336571891; 3584528711;
  113926993; 338241895; 666307205; 773529912; 1294757372; 1396182291;
  1695183700; 1986661051; 2177026350; 2456956037; 2730485921; 2820302411;
  3259730800; 3345764771; 3516065817; 3600352804; 4094571909; 275423344;
  430227734; 506948616; 659060556; 883997877; 958139571; 1322822218;
  1537002063; 1747873779; 1955562222; 2024104815; 2227730452; 2361852424;
  2428436474; 2756734187; 3204031479; 3329325298 ].

Definition H0 : list Z := [
  1779033703; 3144134277; 1013904242; 2773480762; 1359893119; 2600822924;
  528734635; 1541459225 ].

(** Big-endian bytes of [x], [n] of them. *)
Fixpoint be_bytes (n : nat) (x : Z) : list Z :=
  match n with
  | O => []
  | S n' => be_bytes n' (Z.shiftr x 8) ++ [x mod 256]
  end.

Definition be_word (bs : list Z) : Z := foldl (λ acc b, acc * 256 + b) 0 bs.

(** Message padding: a one bit, zeros up to 56 modulo 64, the bit length
    on eight bytes. *)
Definition pad (msg : list Z) : list Z :=
  let len := Z.of_nat (length msg) in
  msg ++ [0x80] ++ replicate (Z.to_nat ((55 - len) mod 64)) 0 ++ be_bytes 8 (len * 8).

(** [bs] cut into pieces of [n] elements; [fuel] bounds the number of
    pieces. *)
Fixpoint pieces {A} (fuel n : nat) (bs : list A) : list (list A) :=
  match fuel, bs with
  | S fuel', _ :: _ => take n bs :: pieces fuel' n (drop n bs)
  | _, _ => []
  end.

(** The message schedule, newest word first: [ws] holds W(t-1), W(t-2), ... *)
Fixpoint schedule (n : nat) (ws : list Z) : list Z :=
  match n with
  | O => ws
  | S n' =>
      let w := add32 (add32 (sigma1 (nth 1 ws 0)) (nth 6 ws 0))
                     (add32 (sigma0 (nth 14 ws 0)) (nth 15 ws 0)) in
      schedule n' (w :: ws)
  end.

Definition round (s : list Z) (kw : Z * Z) : list Z :=
  match s with
  | [a; b; c; d; e; f; g; h] =>
      let t1 := add32 (add32 (add32 h (Sigma1 e)) (add32 (Ch e f g) kw.1)) kw.2 in
      let t2 := add32 (Sigma0 a) (Maj a b c) in
      [add32 t1 t2; a; b; c; add32 d t1; e; f; g]
  | _ => s
  end.

Definition compress (h : list Z) (block : list Z) : list Z :=
  let w16 := be_word <$> pieces 16 4 block in
  let w := rev (schedule 48 (rev w16)) in
  zip_with add32 h (foldl round h (zip K w)).

Definition digest (msg : list byte) : list Z :=
  let m := pad ((λ b, Z.of_N (Byte.to_N b)) <$> msg) in
  foldl compress H0 (pieces (length m) 64 m) ≫= be_bytes 4.

Definition hex_digit (d : Z) : char :=
  Z.to_N (if d <? 10 then 48 + d else 87 + d).

(** [hashlib.sha256(msg).hexdigest()]. *)
Definition hexdigest (msg : list byte) : str :=
  digest msg ≫= λ b, [hex_digit (b / 16); hex_digit (b mod 16)].
End SHA256.

(** A [hashlib] hash object, by the contract of [update]: the object stands
    for the concatenation of everything fed to it. *)
Record hash_object := HashObject { fed : list byte }.

Definition hash_update (h : hash_object) (chunk : list byte) : hash_object :=
  HashObject (fed h ++ chunk).

Definition hash_hexdigest (h : hash_object) : str := SHA256.hexdigest (fed h).

(** ** [sha256_file] *)

Definition CHUNK : nat := N.to_nat (1024 * 1024).

(** [f.read(size)] on a binary file object whose unread content is [f]:
    the bytes returned and the content left. *)
Definition file_read (size : nat) (f : list byte) : list byte * list byte :=
  (take size f, drop size f).

(** [for chunk in iter(lambda: f.read(1024 * 1024), b""): h.update(chunk)].
    Each turn of the loop consumes at least one byte, so [fuel] turns
    suffice for a file of fewer than [fuel] bytes. *)
Fixpoint read_loop (fuel : nat) (h : hash_object) (f : list byte) : option hash_object :=
  match fuel with
  | O => None
  | S fuel' =>
      let '(chunk, f') := file_read CHUNK f in
      match chunk with
      | [] => Some h
      | _ => read_loop fuel' (hash_update h chunk) f'
      end
  end.

(** The content of the archive files is fixed by a serialisation of
    [archive] (the tar stream inside the gzip stream), kept abstract. *)
Section files.
Variable archive_bytes : archive → list byte.

Definition sha256_file (out_files : gmap str archive) (path : str) : result str :=
  match out_files !! path with
  | None => Err (OSError path)
  | Some a =>
      let f := archive_bytes a in
      match read_loop (S (length f)) (HashObject []) f with
      | Some h => Ok (hash_hexdigest h)
      | None => Err (OSError path)
      end
  end.

(** [path.stat().st_size]. *)
Definition file_size (out_files : gmap str archive) (path : str) : result Z :=
  match out_files !! path with
  | None => Err (OSError path)
  | Some a => Ok (Z.of_nat (length (archive_bytes a)))
  end.
End files.

(** ** JSON values and Python dictionaries *)

(** What [json.loads] returns and [json.dumps] accepts.  A float is kept
    as its IEEE 754 binary64 bit pattern; a dictionary keeps insertion
    order. *)
#[local] Unset Elimination Schemes.
Inductive json :=
| JNull
| JBool (b : bool)
| JInt (z : Z)
| JFloat (bits : Z)
| JStr (s : str)
| JList (items : list json)
| JDict (items : list (str * json)).
#[local] Set Elimination Schemes.

(** Truth value of a Python object, as used by [or]. *)
Definition truthy (j : json) : bool :=
  match j with
  | JNull => false
  | JBool b => b
  | JInt z => negb (z =? 0)%Z
  | JFloat bits => negb (Z.land bits (2 ^ 63 - 1) =? 0)%Z
  | JStr s => negb (bool_decide (s = []))
  | JList items => negb (bool_decide (length items = O))
  | JDict items => negb (bool_decide (length items = O))
  end.

(** [a or b]. *)
Definition py_or (a b : json) : json := if truthy a then a else b.

Fixpoint dict_get (k : str) (d : list (str * json)) : option json :=
  match d with
  | [] => None
  | (k', v) :: rest => if str_eqb k' k then Some v else dict_get k rest
  end.

(** [d[k] = v]: an existing key keeps its place, a new key goes last. *)
Fixpoint dict_set (k : str) (v : json) (d : list (str * json)) : list (str * json) :=
  match d with
  | [] => [(k, v)]
  | (k', v') :: rest =>
      if str_eqb k' k then (k', v) :: rest else (k', v') :: dict_set k v rest
  end.

(** [j.get(k, dflt)]; only a dictionary has [get]. *)
Definition json_get (j : json) (k : str) (dflt : json) : result json :=
  match j with
  | JDict items => Ok (default dflt (dict_get k items))
  | _ => Err AttributeError
  end.

(** Field access along a path of keys. *)
Fixpoint json_at (path : list str) (j : json) : option json :=
  match path with
  | [] => Some j
  | k :: rest =>
      match j with
      | JDict items => dict_get k items ≫= json_at rest
      | _ => None
      end
  end.

(** ** [main] *)

Record Args := mkArgs {
  tag : str;
  namespace : str;
  runtime_min : str;
  repository : str;
  homepage : str;
  license : str;
  timestamp : str;
  only : list str;
}.

(** The files the run writes: the archives of the output directory by
    path, and the registry index ([None] while it does not exist). *)
Record world := mkWorld {
  out_files : gmap str archive;
  registry_out : option json;
}.

Definition MODULE_YAML : str := py "module.yaml".

(** [d / "module.yaml"] for a directory entry [d]. *)
Definition descriptor_of (d : node) : option node :=
  match resolve d with
  | Some (Dir _ es) => lookup_entry MODULE_YAML es
  | _ => None
  end.

(** [modules_dir.glob("*/module.yaml")]: the entries of the modules
    directory that are directories holding an existing [module.yaml]. *)
Definition glob_modules (modules_tree : node) : list (str * node) :=
  match resolve modules_tree with
  | Some (Dir _ es) =>
      List.filter (λ e, bool_decide (is_Some (descriptor_of e.2 ≫= resolve))) es
  | _ => []
  end.

Definition name_le (a b : str * node) : Prop := str_le a.1 b.1.

(** [sorted(...)]: the paths differ in the directory name only. *)
Definition discover (modules_tree : node) : list (str * node) :=
  merge_sort name_le (glob_modules modules_tree).

(** [set([x.strip() for x in args.only if x.strip()])]. *)
Definition only_set (args : Args) : gset str :=
  list_to_set (List.filter (λ x, negb (bool_decide (x = []))) (strip <$> only args)).

Definition selected (args : Args) (module_name : str) : bool :=
  bool_decide (only_set args = ∅) || bool_decide (module_name ∈ only_set args).

Section main.
Variable archive_bytes : archive → list byte.
Variable env : os_env.
Variable args : Args.
Variable ts : str.
Variable modules_dir : str.
Variable out_dir : str.
Variable v1_modules : json.

(** The three merged fields: [description_zh], [author], [keywords]. *)
Definition legacy_fields (meta : ModuleMeta) : result (json * json * json) :=
  v1_info ← json_get v1_modules (name meta) (JDict []);
  description ← json_get v1_info (py "description") JNull;
  author ← json_get v1_info (py "author") JNull;
  tags ← json_get v1_info (py "tags") JNull;
  Ok (py_or description (JStr (responsibility meta)),
      py_or author (JStr (py "unknown")),
      py_or tags (JList [])).

Definition tarball_url (tar_path : str) : str :=
  py "https://github.com/Cognary/cognitive/releases/download/"
  ++ tag args ++ [SLASH] ++ basename tar_path.

(** The dictionary assigned to [entries[meta.name]]. *)
Definition registry_entry (meta : ModuleMeta) (merged : json * json * json)
  (tar_path digest : str) (size : Z) (files : list str) : json :=
  JDict [
    (py "$schema", JStr (py "https://cognitive-modules.dev/schema/registry-entry-v1.json"));
    (py "identity", JDict [
      (py "name", JStr (name meta));
      (py "namespace", JStr (namespace args));
      (py "version", JStr (version meta));
      (py "spec_version", JStr (py "2.2")) ]);
    (py "metadata", JDict [
      (py "description", merged.1.1);
      (py "description_zh", merged.1.1);
      (py "author", merged.1.2);
      (py "tier", JStr (tier meta));
      (py "license", JStr (license args));
      (py "repository", JStr (repository args));
      (py "homepage", JStr (homepage args));
      (py "keywords", merged.2) ]);
    (py "dependencies", JDict [
      (py "runtime_min", JStr (runtime_min args));
      (py "modules", JList []) ]);
    (py "distribution", JDict [
      (py "tarball", JStr (tarball_url tar_path));
      (py "checksum", JStr (py "sha256:" ++ digest));
      (py "size_bytes", JInt size);
      (py "files", JList (JStr <$> files)) ]);
    (py "timestamps", JDict [
      (py "created_at", JStr ts);
      (py "updated_at", JStr ts);
      (py "deprecated_at", JNull) ]) ].

(** One turn of [for module_yaml in sorted(...)], for the module directory
    [m]: the archives on disk and [entries] afterwards, or the exception
    that ends the run.  The build and the second [list_files] read the
    module directory as the same tree: the output directory is taken to
    lie outside of the module directories. *)
Definition loop_body (m : str * node) (files : gmap str archive)
  (entries : list (str * json)) : gmap str archive * result (list (str * json)) :=
  let mod_dir := path_join modules_dir m.1 in
  let module_yaml := path_join mod_dir MODULE_YAML in
  match read_module_yaml_scalars module_yaml (descriptor_of m.2) with
  | Err e => (files, Err e)
  | Ok meta =>
      if negb (selected args (name meta)) then (files, Ok entries)
      else
        match legacy_fields meta with
        | Err e => (files, Err e)
        | Ok merged =>
            let '(files', built) :=
              build_tarball env mod_dir m.2 (name meta) out_dir (version meta) files in
            (files',
             tar_path ← built;
             digest ← sha256_file archive_bytes files' tar_path;
             size ← file_size archive_bytes files' tar_path;
             manifest ← list_files mod_dir m.2;
             Ok (dict_set (name meta)
                   (registry_entry meta merged tar_path digest size manifest) entries))
        end
  end.

Fixpoint for_modules (mods : list (str * node)) (files : gmap str archive)
  (entries : list (str * json)) : gmap str archive * result (list (str * json)) :=
  match mods with
  | [] => (files, Ok entries)
  | m :: rest =>
      match loop_body m files entries with
      | (files', Ok entries') => for_modules rest files' entries'
      | (files', Err e) => (files', Err e)
      end
  end.

(** The dictionary written to the registry index. *)
Definition registry (categories : json) (entries : list (str * json)) : json :=
  JDict [
    (py "$schema", JStr (py "https://cognitive-modules.dev/schema/registry-v2.json"));
    (py "version", JStr (py "2.0.0"));
    (py "updated", JStr ts);
    (py "modules", JDict entries);
    (py "categories", categories);
    (py "featured", JList (JStr <$> entries.*1));
    (py "stats", JDict [
      (py "total_modules", JInt (Z.of_nat (length entries)));
      (py "total_downloads", JInt 0);
      (py "last_updated", JStr ts) ]) ].
End main.

(** [args.timestamp.strip() or now_iso()]. *)
Definition build_timestamp (args : Args) (now : str) : str :=
  match strip (timestamp args) with
  | [] => now
  | t => t
  end.

(** [main()], after argument parsing and [load_registry_v1]: [now] is the
    reading of the clock by [now_iso()], [v1] the parsed legacy registry,
    [modules_tree] the directory at [modules_dir].  The index is written
    last, and only when no exception was raised. *)
Definition main (archive_bytes : archive → list byte) (env : os_env) (args : Args)
  (now : str) (modules_dir out_dir : str) (modules_tree : node) (v1 : json)
  (w : world) : world * result unit :=
  match json_get v1 (py "modules") (JDict []) with
  | Err e => (w, Err e)
  | Ok v1_modules =>
      let ts := build_timestamp args now in
      match for_modules archive_bytes env args ts modules_dir out_dir v1_modules
                        (discover modules_tree) (out_files w) [] with
      | (files, Err e) => (mkWorld files (registry_out w), Err e)
      | (files, Ok entries) =>
          match json_get v1 (py "categories") (JDict []) with
          | Err e => (mkWorld files (registry_out w), Err e)
          | Ok categories =>
              (mkWorld files (Some (registry ts categories entries)), Ok tt)
          end
      end
  end.

(** * Specification vocabulary *)

(** Induction on trees, through the entries of a directory and the target
    of a link. *)
Section node_induction.
Variable P : node → Prop.
Hypothesis on_file : ∀ st data, P (File st data).
Hypothesis on_dir : ∀ st es, Forall (λ e, P e.2) es → P (Dir st es).
Hypothesis on_link : ∀ st l t, (∀ n, t = Some n → P n) → P (Symlink st l t).

Fixpoint node_ind (n : node) : P n :=
  match n with
  | File st data => on_file st data
  | Dir st es =>
      on_dir st es
        ((fix go (l : list (str * node)) : Forall (λ e, P e.2) l :=
            match l with
            | [] => Forall_nil_2 _
            | e :: l' => Forall_cons_2 _ e l' (node_ind e.2) (go l')
            end) es)
  | Symlink st l t =>
      on_link st l t
        (match t return ∀ n, t = Some n → P n with
         | Some c => λ n H, eq_ind c P (node_ind c) n (Some_inj _ _ H)
         | None => λ n H, match Some_ne_None _ (eq_sym H) with end
         end)
  end.
End node_induction.

(** [reaches t comps n]: below [t], descending through directories only,
    the path with components [comps] names the entry [n]. *)
Inductive reaches : node → list str → node → Prop :=
| reaches_here n : reaches n [] n
| reaches_step st es f c comps n :
    (f, c) ∈ es → reaches c comps n → reaches (Dir st es) (f :: comps) n.



(** A symbolic link somewhere under the module root. *)
Definition link_under (tree : node) (comps : list str) : Prop :=
  ∃ st l t, comps ≠ [] ∧ reaches (walk_top tree) comps (Symlink st l t).

(** The links [list_files] refuses: every link to a directory, and every
    other link unless its name is [.DS_Store]. *)
Definition refused_at (n : node) (comps : list str) : Prop :=
  ∃ c f, reaches n comps c ∧ is_symlink c = true
         ∧ last comps = Some f ∧ (is_dir c = true ∨ f ≠ DS_Store).

Definition refused_link (tree : node) (comps : list str) : Prop :=
  refused_at (walk_top tree) comps.

(** The entries one directory passes without an exception. *)
Definition entry_ok (e : str * node) : bool :=
  negb (is_symlink e.2) || (negb (is_dir e.2) && str_eqb e.1 DS_Store).

(** No refused link below [n]. *)
Fixpoint clean (n : node) : bool :=
  match n with
  | Dir _ es =>
      forallb (λ e, entry_ok e && match e.2 with Dir _ _ => clean e.2 | _ => true end) es
  | _ => true
  end.

Definition entry_clean (e : str * node) : bool :=
  entry_ok e && match e.2 with Dir _ _ => clean e.2 | _ => true end.

(** The paths [list_files] collects before sorting, as component lists
    relative to [n], in traversal order. *)
Fixpoint paths_of (n : node) : list (list str) :=
  match n with
  | Dir _ es =>
      ((λ e, [e.1])
         <$> List.filter (λ e, negb (is_dir e.2) && negb (str_eqb e.1 DS_Store)) es)
      ++ flat_map (λ e, match e.2 with
                        | Dir _ _ => cons e.1 <$> paths_of e.2
                        | _ => []
                        end) es
  | _ => []
  end.

Definition files_of (root : list str) (n : node) : list str :=
  (λ p, as_posix (root ++ p)) <$> paths_of n.

(** What one directory entry contributes to [paths_of]. *)
Definition entry_paths (e : str * node) : list (list str) :=
  match e.2 with
  | Dir _ _ => cons e.1 <$> paths_of e.2
  | _ => if negb (is_dir e.2) && negb (str_eqb e.1 DS_Store) then [[e.1]] else []
  end.

(** The walk below [root] ends in an exception that names a refused link. *)
Definition scan_fails (module_dir : str) (root : list str) (n : node)
  (r : result (list str)) : Prop :=
  ∃ e comps, r = Err e ∧ refused_at n comps
    ∧ symlink_rejected e = Some (path_join module_dir (as_posix (root ++ comps))).

Definition slash_free (a : str) : bool := forallb (λ c, negb (c =? SLASH)) a.

(** Names as a file system has them: not empty, no slash. *)
Definition valid_name (f : str) : bool :=
  negb (bool_decide (f = [])) && slash_free f.

(** A directory tree as a file system has it: within a directory the
    names are valid and pairwise distinct. *)
Fixpoint wf_node (n : node) : bool :=
  match n with
  | Dir _ es =>
      bool_decide (NoDup es.*1)
      && forallb (λ e, valid_name e.1 && wf_node e.2) es
  | _ => true
  end.

Definition wf_tree (tree : node) : bool := wf_node (walk_top tree).

(** Two trees with the same names and the same file contents: the entries
    of a directory may come in another order, and the [stat] fields of
    regular files may differ up to [R]. *)
Section similar.
Variable R : stat_result → stat_result → Prop.

Inductive similar : node → node → Prop :=
| similar_file st st' data : R st st' → similar (File st data) (File st' data)
| similar_dir st st' es mid es' :
    es ≡ₚ mid → similar_entries mid es' → similar (Dir st es) (Dir st' es')
| similar_link st l t : similar (Symlink st l t) (Symlink st l t)
with similar_entries : list (str * node) → list (str * node) → Prop :=
| similar_nil : similar_entries [] []
| similar_cons f c c' l l' :
    similar c c' → similar_entries l l' →
    similar_entries ((f, c) :: l) ((f, c') :: l').
End similar.

Scheme similar_mut := Minimality for similar Sort Prop
  with similar_entries_mut := Minimality for similar_entries Sort Prop.


(** The name [gettarinfo] gives the member for the manifest path [rel]. *)
Definition arcname_of (module_name rel : str) : str :=
  lstrip_slash (module_name ++ [SLASH] ++ rel).

(** The member [build_tarball] adds for a regular file. *)
Definition member_of (module_name rel : str) (st : stat_result) (data : list byte)
  : TarInfo * list byte :=
  (mkTarInfo (arcname_of module_name rel) (st_mode st) 0 0 (Z.of_nat (length data)) 0
             REGTYPE [] (py "root") (py "root"), data).

(** Ownership and time stamp of a member are the fixed ones. *)
Definition normalised (m : TarInfo * list byte) : Prop :=
  ti_uid m.1 = 0%Z ∧ ti_gid m.1 = 0%Z
  ∧ ti_uname m.1 = py "root" ∧ ti_gname m.1 = py "root" ∧ ti_mtime m.1 = 0%Z.

(** The first component of an archive path: the top-level entry it
    unpacks under. *)
Definition top_component (path : str) : str := default [] (head (split_on SLASH path)).

(** The [stat] fields of a regular file that reach the archive or decide
    the outcome of the build: the mode, and the identity and link count of
    the inode.  Owner, group and modification time are free. *)
Definition build_equiv (st st' : stat_result) : Prop :=
  st_mode st = st_mode st' ∧ st_ino st = st_ino st'
  ∧ st_dev st = st_dev st' ∧ st_nlink st = st_nlink st'.

(** What [gettarinfo] decides for a regular file with [stat] fields [st]
    under the name [arcname]: it is taken for a hard link when its inode is
    on record under another name and its link count exceeds one. *)
Definition taken_for_link (inodes : gmap (Z * Z) str) (st : stat_result)
  (arcname : str) : bool :=
  match inodes !! (st_ino st, st_dev st) with
  | Some first => bool_decide (1 < st_nlink st)%Z && negb (str_eqb arcname first)
  | None => false
  end.

Definition record_inode (inodes : gmap (Z * Z) str) (st : stat_result)
  (arcname : str) : gmap (Z * Z) str :=
  if bool_decide (st_ino st = 0%Z) then inodes
  else <[(st_ino st, st_dev st) := arcname]> inodes.

Definition inode_key (st : stat_result) : Z * Z := (st_ino st, st_dev st).

(** Two manifest paths that are links to one inode. *)
Definition linked_pair (tree : node) (fl : list str) (r1 r2 : str) : Prop :=
  ∃ st1 d1 st2 d2,
    r1 ∈ fl ∧ r2 ∈ fl ∧ r1 ≠ r2
    ∧ lstat tree r1 = Some (File st1 d1) ∧ lstat tree r2 = Some (File st2 d2)
    ∧ inode_key st1 = inode_key st2 ∧ st_ino st1 ≠ 0%Z
    ∧ (1 < st_nlink st1)%Z ∧ (1 < st_nlink st2)%Z.

(** The loop of [build_tarball] is bound to meet a hard link: a file of
    [fl] with several links has its inode on record already, or two files
    of [fl] are links to one inode. *)
Definition link_ahead (tree : node) (inodes : gmap (Z * Z) str) (fl : list str) : Prop :=
  (∃ r st d, r ∈ fl ∧ lstat tree r = Some (File st d)
     ∧ (1 < st_nlink st)%Z ∧ is_Some (inodes !! inode_key st))
  ∨ (∃ r1 r2, linked_pair tree fl r1 r2).

(** No name on record belongs to a file still to come. *)
Definition stale (module_name : str) (inodes : gmap (Z * Z) str) (fl : list str) : Prop :=
  ∀ k v rel, inodes !! k = Some v → rel ∈ fl → v ≠ arcname_of module_name rel.

(** The run gets as far as building the module [m]: the module
    directories [before] it were processed without an exception, leaving
    the archives [files1] and the entries [entries1]; the descriptor of [m]
    is complete, its name passes the [--only] filter, and the legacy
    registry has the shape the merge expects. *)
Definition builds_module (archive_bytes : archive → list byte) (env : os_env)
  (args : Args) (ts modules_dir out_dir : str) (v1_modules : json)
  (before : list (str * node)) (m : str * node)
  (files0 files1 : gmap str archive) (entries1 : list (str * json))
  (meta : ModuleMeta) : Prop :=
  for_modules archive_bytes env args ts modules_dir out_dir v1_modules before files0 []
  = (files1, Ok entries1)
  ∧ read_module_yaml_scalars (path_join (path_join modules_dir m.1) MODULE_YAML)
                             (descriptor_of m.2) = Ok meta
  ∧ selected args (name meta) = true
  ∧ ∃ merged, legacy_fields v1_modules meta = Ok merged.

(** The values the lines of a descriptor provide for the key [k], in the
    order of the lines. *)
Definition values_of (k : str) (lines : list str) : list str :=
  omap (λ line, match parse_line line with
                | Some (k', v) => if str_eqb k' k then Some v else None
                | None => None
                end) lines.


(** A merged field: the value the legacy entry [info] holds under [key]
    when there is one and it is true for Python, [fallback] otherwise. *)
Definition merged_field (info : list (str * json)) (key : str) (fallback : json) : json :=
  match dict_get key info with
  | Some v => if truthy v then v else fallback
  | None => fallback
  end.

(** The metadata of the module directory [m] when its turn of the loop
    gets to the build: the descriptor is complete and the name passes the
    filter. *)
Definition turn_meta (args : Args) (modules_dir : str) (m : str * node)
  : option ModuleMeta :=
  match read_module_yaml_scalars (path_join (path_join modules_dir m.1) MODULE_YAML)
                                 (descriptor_of m.2) with
  | Ok meta => if selected args (name meta) then Some meta else None
  | Err _ => None
  end.

(** The names of the modules a run builds, one per call of
    [build_tarball], in the order of the calls. *)
Definition built_names (args : Args) (modules_dir : str) (mods : list (str * node))
  : list str :=
  name <$> omap (turn_meta args modules_dir) mods.

(** The keys of a dictionary after [d[k] = ...]. *)
Definition add_key (ks : list str) (k : str) : list str :=
  if bool_decide (k ∈ ks) then ks else ks ++ [k].

(** ** Further vocabulary *)



(** A Unicode scalar value: a code point that is not a surrogate. *)
Definition is_scalar (c : char) : bool :=
  (c <=? 1114111) && negb ((55296 <=? c) && (c <=? 57343)).

(** The UTF-8 encoding of a code point, as numeric byte values. *)
Definition utf8_encode_char (c : char) : list N :=
  if c <? 128 then [c]
  else if c <? 2048 then [192 + c / 64; 128 + c mod 64]
  else if c <? 65536 then [224 + c / 4096; 128 + (c / 64) mod 64; 128 + c mod 64]
  else [240 + c / 262144; 128 + (c / 4096) mod 64; 128 + (c / 64) mod 64; 128 + c mod 64].

(** The bytes of a file that holds the text [s] in UTF-8. *)
Definition utf8_bytes (s : str) : list byte :=
  (λ n, default x00 (Byte.of_N n)) <$> (s ≫= utf8_encode_char).

(** A descriptor made of [key: value] lines, each closed by its own line
    end. *)
Definition descriptor_line (kv : str * str) : str := kv.1 ++ py ": " ++ kv.2.

Definition descriptor_text (kvs : list (str * str)) (seps : list str) : str :=
  mjoin (zip_with app (descriptor_line <$> kvs) seps).

(** A key the regular expression accepts. *)
Definition plain_key (k : str) : bool :=
  negb (bool_decide (k = [])) && forallb is_key_char k.

(** A value written on one line, without white space around it. *)
Definition plain_value (v : str) : bool :=
  negb (bool_decide (v = [])) && bool_decide (lstrip v = v) && bool_decide (rstrip v = v)
  && forallb (λ c, negb (is_linebreak c) && is_scalar c) v.

(** The value of the last line for the key [k], without its quotes. *)
Definition descriptor_field (k : str) (kvs : list (str * str)) : option str :=
  last (omap (λ kv, if str_eqb kv.1 k then Some (unquote kv.2) else None) kvs).

(** ** Sample inputs *)

Module Sample.

Fixpoint bytes_of (s : string) : list byte :=
  match s with
  | EmptyString => []
  | String a rest => byte_of_ascii a :: bytes_of rest
  end.

(** A regular file with mode 0644, one link, owned by user 1000. *)
Definition st (ino : Z) : stat_result := Stat 33188 ino 2049 1 1000 1000 1700000000.

(** The same inode seen by another user at another time. *)
Definition st' (ino : Z) : stat_result := Stat 33188 ino 2049 1 501 20 1800000000.

(** Mode 0755. *)
Definition st_exec (ino : Z) : stat_result := Stat 33261 ino 2049 1 1000 1000 1700000000.

(** A link count of two. *)
Definition st_linked (ino : Z) : stat_result := Stat 33188 ino 2049 2 1000 1000 1700000000.

Definition yaml_demo : list byte := bytes_of "name: demo
version: 1.0.0
tier: exec
responsibility: 'does things'
".

Definition yaml_other : list byte := bytes_of "# second module
name: other
version: 0.3.0
tier: decision
responsibility: decides
".


(** An empty quoted name. *)
Definition yaml_noname : list byte := bytes_of "name: ''
version: 1.0.0
tier: exec
responsibility: nameless
".

(** A nested mapping after the four top-level keys. *)
Definition yaml_nested : list byte := bytes_of "name: outer
version: 1.0.0
tier: exec
responsibility: owns the outer name
maintainer:
  name: inner
".

Definition yaml_dup1 : list byte := bytes_of "name: dup
version: 1.0.0
tier: exec
responsibility: first
".

Definition yaml_dup2 : list byte := bytes_of "name: dup
version: 2.0.0
tier: exec
responsibility: second
".

Definition demo_dir : node :=
  Dir (st 10) [
    (py "src", Dir (st 11) [(py "b.py", File (st 12) (bytes_of "print(1)"))]);
    (py "module.yaml", File (st 13) yaml_demo);
    (py ".DS_Store", File (st 14) (bytes_of "junk"));
    (py "a.txt", File (st 15) (bytes_of "hi")) ].

(** [demo_dir] enumerated in another order, with other owners and times. *)
Definition demo_dir' : node :=
  Dir (st' 10) [
    (py "a.txt", File (st' 15) (bytes_of "hi"));
    (py ".DS_Store", File (st' 14) (bytes_of "junk"));
    (py "module.yaml", File (st' 13) yaml_demo);
    (py "src", Dir (st' 11) [(py "b.py", File (st' 12) (bytes_of "print(1)"))]) ].

(** [demo_dir] with [a.txt] made executable. *)
Definition demo_exec : node :=
  Dir (st 10) [
    (py "src", Dir (st 11) [(py "b.py", File (st 12) (bytes_of "print(1)"))]);
    (py "module.yaml", File (st 13) yaml_demo);
    (py ".DS_Store", File (st 14) (bytes_of "junk"));
    (py "a.txt", File (st_exec 15) (bytes_of "hi")) ].

(** A module with a link to a file outside of it. *)
Definition other_dir : node :=
  Dir (st 20) [
    (py "module.yaml", File (st 21) yaml_other);
    (py "notes", Symlink (st 22) (py "../../etc/notes")
                   (Some (File (st 23) (bytes_of "secret")))) ].

(** A module whose only link is called [.DS_Store]. *)
Definition store_dir : node :=
  Dir (st 30) [
    (py "module.yaml", File (st 31) yaml_other);
    (py ".DS_Store", Symlink (st 32) (py "/etc/passwd")
                       (Some (File (st 33) (bytes_of "root:x:0:0")))) ].

(** A module with two names for one inode. *)
Definition linked_dir : node :=
  Dir (st 40) [
    (py "module.yaml", File (st 41) yaml_other);
    (py "a.txt", File (st_linked 42) (bytes_of "same"));
    (py "b.txt", File (st_linked 42) (bytes_of "same")) ].

(** A module with a file whose second name is outside of the module. *)
Definition shared_dir : node :=
  Dir (st 50) [
    (py "module.yaml", File (st 51) yaml_other);
    (py "a.txt", File (st_linked 52) (bytes_of "same")) ].

(** A module with a file whose second name is [.DS_Store]. *)
Definition shadow_dir : node :=
  Dir (st 60) [
    (py "module.yaml", File (st 61) yaml_other);
    (py ".DS_Store", File (st_linked 62) (bytes_of "same"));
    (py "a.txt", File (st_linked 62) (bytes_of "same")) ].


Definition noname_dir : node :=
  Dir (st 80) [
    (py "module.yaml", File (st 81) yaml_noname);
    (py "a.txt", File (st 82) (bytes_of "hi")) ].

Definition dup1_dir : node :=
  Dir (st 90) [ (py "module.yaml", File (st 91) yaml_dup1) ].

Definition dup2_dir : node :=
  Dir (st 92) [ (py "module.yaml", File (st 93) yaml_dup2) ].

Definition modules_of (dirs : list (str * node)) : node := Dir (st 1) dirs.

Definition env : os_env := {| getpwuid := λ _, py "alice"; getgrgid := λ _, py "staff" |}.
Definition env' : os_env := {| getpwuid := λ _, py "bob"; getgrgid := λ _, py "wheel" |}.

Definition args : Args :=
  mkArgs (py "v2.2.7") (py "official") (py "2.2.0")
         (py "https://github.com/Cognary/cognitive")
         (py "https://cognary.github.io/cognitive/") (py "MIT") (py "") [].

Definition now : str := py "2026-01-01T00:00:00Z".

(** A stand-in for the tar and gzip encoders: the names and contents of
    the members, one after the other. *)
Definition plain_bytes (a : archive) : list byte :=
  members a ≫= λ m, ((λ c, default x00 (Byte.of_N c)) <$> ti_name m.1) ++ m.2.

Definition no_legacy : json := JDict [].

(** A legacy registry that knows [demo] by an empty description and an
    author, without tags. *)
Definition legacy : json :=
  JDict [
    (py "modules", JDict [
      (py "demo", JDict [
        (py "description", JStr []);
        (py "author", JStr (py "Ann")) ]) ]);
    (py "categories", JDict []) ].

Definition empty_world : world := mkWorld ∅ None.

(** The value of a result that is known to be [Ok]. *)
Definition ok_or {A} (d : A) (r : result A) : A :=
  match r with
  | Ok a => a
  | Err _ => d
  end.

(** The turns of the loop for the module directories [dirs], from an
    empty output directory and without a legacy registry. *)
Definition turns (dirs : list (str * node))
  : gmap str archive * result (list (str * json)) :=
  for_modules plain_bytes env args (build_timestamp args now) (py "modules") (py "out")
              (JDict []) dirs ∅ [].

(** A run of [main] on the module directories [dirs]. *)
Definition run (v1 : json) (dirs : list (str * node)) : world * result unit :=
  main plain_bytes env args now (py "modules") (py "out") (modules_of dirs) v1 empty_world.





End Sample.

(** * Results *)

(** ** The order on strings and [sort] *)

Lemma str_leb_refl a : str_leb a a = true.
Proof.
  induction a as [|x a IH]; simpl; [done|].
  rewrite N.ltb_irrefl, N.eqb_refl. done.
Qed.

Lemma str_leb_total a b : str_leb a b = true ∨ str_leb b a = true.
Proof.
  revert b. induction a as [|x a IH]; intros [|y b]; simpl; auto.
  destruct (N.ltb_spec x y), (N.ltb_spec y x); auto; try lia.
  assert (x = y) as -> by lia. rewrite N.eqb_refl. apply IH.
Qed.

Lemma str_leb_trans a b c :
  str_leb a b = true → str_leb b c = true → str_leb a c = true.
Proof.
  revert b c. induction a as [|x a IH]; intros [|y b] [|z c]; simpl; auto; try done.
  destruct (N.ltb_spec x y), (N.ltb_spec y z), (N.ltb_spec x z); auto; try lia;
    destruct (N.eqb_spec x y), (N.eqb_spec y z), (N.eqb_spec x z);
    auto; try lia; try done.
  apply IH.
Qed.

Lemma str_leb_antisym a b :
  str_leb a b = true → str_leb b a = true → a = b.
Proof.
  revert b. induction a as [|x a IH]; intros [|y b]; simpl; auto; try done.
  destruct (N.ltb_spec x y), (N.ltb_spec y x); try lia; try done;
    destruct (N.eqb_spec x y), (N.eqb_spec y x); try lia; try done.
  all: intros; f_equal; auto; lia.
Qed.

Global Instance str_le_total : Total str_le.
Proof. intros a b. apply str_leb_total. Qed.
Global Instance str_le_trans : Transitive str_le.
Proof. intros a b c. apply str_leb_trans. Qed.
Global Instance str_le_antisym : AntiSymm (=) str_le.
Proof. intros a b. apply str_leb_antisym. Qed.
Global Instance str_le_refl : Reflexive str_le.
Proof. intros a. apply str_leb_refl. Qed.

Lemma sort_strs_sorted l : Sorted str_le (sort_strs l).
Proof. apply (Sorted_merge_sort str_le). Qed.

Lemma sort_strs_perm l : sort_strs l ≡ₚ l.
Proof. apply (merge_sort_Permutation str_le). Qed.

Lemma sort_strs_unique l1 l2 : l1 ≡ₚ l2 → sort_strs l1 = sort_strs l2.
Proof.
  intros H. apply (Sorted_unique str_le); try apply sort_strs_sorted.
  by rewrite !sort_strs_perm.
Qed.

Lemma sort_strs_elem l x : x ∈ sort_strs l ↔ x ∈ l.
Proof. by rewrite sort_strs_perm. Qed.

Lemma str_eqb_eq a b : str_eqb a b = true ↔ a = b.
Proof. unfold str_eqb. apply bool_decide_eq_true. Qed.

Lemma str_eqb_neq a b : str_eqb a b = false ↔ a ≠ b.
Proof. unfold str_eqb. apply bool_decide_eq_false. Qed.

(** ** [list_files]: the walk *)

Lemma scan_app module_dir l1 l2 acc :
  scan module_dir (l1 ++ l2) acc = scan module_dir l1 acc ≫= scan module_dir l2.
Proof.
  revert acc. induction l1 as [|[[root dirs] files] l1 IH]; intros acc; simpl; [done|].
  destruct (check_dirs module_dir root dirs); simpl; [|done].
  destruct (add_files module_dir root files acc); simpl; [|done].
  apply IH.
Qed.

Lemma check_dirs_ok module_dir root es :
  forallb entry_ok es = true →
  check_dirs module_dir root (List.filter (λ e, is_dir e.2) es) = Ok tt.
Proof.
  induction es as [|[f c] es IH]; simpl; [done|].
  intros [Hok Hrest]%andb_prop.
  destruct (is_dir c) eqn:Hd; simpl; [|by apply IH].
  unfold entry_ok in Hok. simpl in Hok. rewrite Hd in Hok. simpl in Hok.
  rewrite orb_false_r in Hok. apply negb_true_iff in Hok. rewrite Hok. by apply IH.
Qed.

Lemma add_files_ok module_dir root es acc :
  forallb entry_ok es = true →
  add_files module_dir root (List.filter (λ e, negb (is_dir e.2)) es) acc
  = Ok (acc ++ ((λ e, as_posix (root ++ [e.1]))
                  <$> List.filter (λ e, negb (is_dir e.2) && negb (str_eqb e.1 DS_Store)) es)).
Proof.
  revert acc. induction es as [|[f c] es IH]; intros acc; simpl.
  { by rewrite app_nil_r. }
  intros [Hok Hrest]%andb_prop.
  destruct (is_dir c) eqn:Hd; simpl; [by apply IH|].
  destruct (str_eqb f DS_Store) eqn:Hf; simpl; [by apply IH|].
  unfold entry_ok in Hok. simpl in Hok. rewrite Hd, Hf in Hok. simpl in Hok.
  rewrite orb_false_r in Hok. apply negb_true_iff in Hok. rewrite Hok.
  rewrite IH by done. by rewrite <- app_assoc.
Qed.

Lemma check_dirs_bad module_dir root es :
  forallb (λ e, negb (is_dir e.2 && is_symlink e.2)) es = false →
  ∃ f c, (f, c) ∈ es ∧ is_dir c = true ∧ is_symlink c = true
         ∧ check_dirs module_dir root (List.filter (λ e, is_dir e.2) es)
           = Err (SymlinkedDirectory (path_join module_dir (as_posix (root ++ [f])))).
Proof.
  induction es as [|[f c] es IH]; simpl; [done|].
  destruct (is_dir c) eqn:Hd; simpl.
  - destruct (is_symlink c) eqn:Hs; simpl.
    + intros _. exists f, c. split_and!; auto. left.
    + intros (f' & c' & ? & ? & ? & ?)%IH. exists f', c'. split_and!; auto. by right.
  - intros (f' & c' & ? & ? & ? & ?)%IH. exists f', c'. split_and!; auto. by right.
Qed.

Lemma check_dirs_good module_dir root es :
  forallb (λ e, negb (is_dir e.2 && is_symlink e.2)) es = true →
  check_dirs module_dir root (List.filter (λ e, is_dir e.2) es) = Ok tt.
Proof.
  induction es as [|[f c] es IH]; simpl; [done|].
  intros [Hok Hrest]%andb_prop.
  destruct (is_dir c) eqn:Hd; simpl in *; [|by apply IH].
  apply negb_true_iff in Hok. rewrite Hok. by apply IH.
Qed.

Lemma add_files_bad module_dir root es acc :
  forallb entry_ok es = false →
  forallb (λ e, negb (is_dir e.2 && is_symlink e.2)) es = true →
  ∃ f c, (f, c) ∈ es ∧ is_dir c = false ∧ is_symlink c = true ∧ f ≠ DS_Store
         ∧ add_files module_dir root (List.filter (λ e, negb (is_dir e.2)) es) acc
           = Err (SymlinkedFile (path_join module_dir (as_posix (root ++ [f])))).
Proof.
  revert acc. induction es as [|[f c] es IH]; intros acc; simpl; [done|].
  intros Hbad [Hd' Hrest]%andb_prop.
  unfold entry_ok at 1 in Hbad. simpl in Hbad.
  destruct (is_dir c) eqn:Hd; simpl in *.
  - apply negb_true_iff in Hd'. rewrite Hd' in Hbad. simpl in Hbad.
    destruct (IH acc Hbad Hrest) as (f' & c' & ? & ? & ? & ? & ?).
    exists f', c'. split_and!; auto. by right.
  - destruct (str_eqb f DS_Store) eqn:Hf; simpl in *.
    + rewrite orb_true_r in Hbad. simpl in Hbad.
      destruct (IH acc Hbad Hrest) as (f' & c' & ? & ? & ? & ? & ?).
      exists f', c'. split_and!; auto. by right.
    + rewrite orb_false_r in Hbad. destruct (is_symlink c) eqn:Hs; simpl in *.
      * exists f, c. split_and!; auto; [left|by apply str_eqb_neq].
      * destruct (IH (acc ++ [as_posix (root ++ [f])]) Hbad Hrest)
          as (f' & c' & ? & ? & ? & ? & ?).
        exists f', c'. split_and!; auto. by right.
Qed.

Lemma entry_ok_dirs es :
  forallb entry_ok es = true →
  forallb (λ e, negb (is_dir e.2 && is_symlink e.2)) es = true.
Proof.
  induction es as [|[f c] es IH]; simpl; [done|].
  intros [Hok Hrest]%andb_prop. rewrite IH by done. rewrite andb_true_r.
  unfold entry_ok in Hok. simpl in Hok.
  destruct (is_dir c), (is_symlink c); done.
Qed.

(** Walking the sub-directories of a clean directory. *)
Lemma scan_children module_dir root es acc :
  Forall (λ e, ∀ root acc, clean e.2 = true →
               scan module_dir (walk root e.2) acc = Ok (acc ++ files_of root e.2)) es →
  forallb (λ e, match e.2 with Dir _ _ => clean e.2 | _ => true end) es = true →
  scan module_dir
       (flat_map (λ e, match e.2 with
                       | Dir _ _ => walk (root ++ [e.1]) e.2
                       | _ => []
                       end) es) acc
  = Ok (acc ++ ((λ p, as_posix (root ++ p))
                  <$> flat_map (λ e, match e.2 with
                                     | Dir _ _ => cons e.1 <$> paths_of e.2
                                     | _ => []
                                     end) es)).
Proof.
  intros HF. revert acc. induction HF as [|[f c] es Hc HF IH]; intros acc; simpl.
  { by rewrite app_nil_r. }
  intros [Hcl Hrest]%andb_prop. rewrite scan_app.
  destruct c as [st data|st es'|st l t]; cbn [snd fst] in *.
  - simpl. by apply IH.
  - rewrite (Hc _ _ Hcl). cbn [mbind result_bind]. rewrite IH by done.
    rewrite fmap_app, app_assoc. do 3 f_equal. unfold files_of.
    rewrite <- list_fmap_compose. apply list_fmap_ext. intros _ p _. simpl.
    by rewrite <- app_assoc.
  - simpl. by apply IH.
Qed.

Lemma forallb_andb {A} (p q : A → bool) l :
  forallb (λ x, p x && q x) l = forallb p l && forallb q l.
Proof.
  induction l as [|x l IH]; simpl; [done|]. rewrite IH.
  destruct (p x), (q x), (forallb p l); done.
Qed.

Lemma scan_walk_clean module_dir n :
  ∀ root acc, clean n = true →
    scan module_dir (walk root n) acc = Ok (acc ++ files_of root n).
Proof.
  induction n as [st data|st es IH|st l t IH] using node_ind; intros root acc Hcl.
  - simpl. by rewrite app_nil_r.
  - simpl in Hcl. rewrite forallb_andb in Hcl. apply andb_prop in Hcl as [Hok Hsub].
    cbn [walk scan]. rewrite check_dirs_ok by done. cbn [mbind result_bind].
    rewrite add_files_ok by done. cbn [mbind result_bind].
    rewrite scan_children by done. unfold files_of. cbn [paths_of].
    rewrite fmap_app, app_assoc. do 3 f_equal.
    by rewrite <- list_fmap_compose.
  - simpl. by rewrite app_nil_r.
Qed.

Lemma refused_at_step st es f c comps :
  (f, c) ∈ es → refused_at c comps → comps ≠ [] → refused_at (Dir st es) (f :: comps).
Proof.
  intros Hin (l & g & Hr & Hs & Hl & Hd) Hne. exists l, g. split_and!; auto.
  - by eapply reaches_step.
  - destruct comps; [done|]. done.
Qed.

Lemma refused_at_nonempty n comps : refused_at n comps → comps ≠ [].
Proof. intros (c & f & _ & _ & Hl & _) ->. done. Qed.

Lemma refused_at_entry st es f c :
  (f, c) ∈ es → is_symlink c = true → is_dir c = true ∨ f ≠ DS_Store →
  refused_at (Dir st es) [f].
Proof.
  intros Hin Hs Hd. exists c, f. split_and!; auto.
  eapply reaches_step; [done|]. constructor.
Qed.

Lemma scan_children_dirty module_dir st root es acc :
  Forall (λ e, ∀ root acc, clean e.2 = false →
               scan_fails module_dir root e.2 (scan module_dir (walk root e.2) acc)) es →
  forallb (λ e, match e.2 with Dir _ _ => clean e.2 | _ => true end) es = false →
  ∀ es0, (∀ e, e ∈ es → e ∈ es0) →
  scan_fails module_dir root (Dir st es0)
    (scan module_dir
       (flat_map (λ e, match e.2 with
                       | Dir _ _ => walk (root ++ [e.1]) e.2
                       | _ => []
                       end) es) acc).
Proof.
  intros HF. revert acc. induction HF as [|[f c] es Hc HF IH]; intros acc; simpl; [done|].
  intros Hbad es0 Hsub. rewrite scan_app.
  assert ((f, c) ∈ es0) as Hin by (apply Hsub; left).
  assert (∀ e, e ∈ es → e ∈ es0) as Hsub' by (intros; apply Hsub; by right).
  destruct c as [st1 data|st1 es'|st1 l t]; cbn [snd fst] in *.
  - simpl. by apply IH.
  - destruct (clean (Dir st1 es')) eqn:Hcl.
    + rewrite scan_walk_clean by done. cbn [mbind result_bind]. by apply IH.
    + destruct (Hc (root ++ [f]) acc eq_refl) as (e & comps & -> & Hr & He).
      exists e, (f :: comps). split_and!; auto.
      * eapply refused_at_step; eauto. by eapply refused_at_nonempty.
      * by rewrite <- app_assoc in He.
  - simpl. by apply IH.
Qed.

Lemma scan_walk_dirty module_dir n :
  ∀ root acc, clean n = false →
    scan_fails module_dir root n (scan module_dir (walk root n) acc).
Proof.
  induction n as [st data|st es IH|st l t IH] using node_ind;
    intros root acc Hcl; simpl in Hcl; try done.
  rewrite forallb_andb in Hcl. cbn [walk scan].
  destruct (forallb (λ e, negb (is_dir e.2 && is_symlink e.2)) es) eqn:Hdirs.
  - rewrite check_dirs_good by done. cbn [mbind result_bind].
    destruct (forallb entry_ok es) eqn:Hok.
    + rewrite add_files_ok by done. cbn [mbind result_bind].
      simpl in Hcl. eapply scan_children_dirty; eauto.
    + destruct (add_files_bad module_dir root es acc Hok Hdirs)
        as (f & c & Hin & Hd & Hs & Hf & ->).
      exists (SymlinkedFile (path_join module_dir (as_posix (root ++ [f])))), [f].
      split_and!; auto. eapply refused_at_entry; eauto.
  - destruct (check_dirs_bad module_dir root es Hdirs) as (f & c & Hin & Hd & Hs & ->).
    exists (SymlinkedDirectory (path_join module_dir (as_posix (root ++ [f])))), [f].
    split_and!; auto. eapply refused_at_entry; eauto.
Qed.

(** A refused link makes the tree unclean. *)
Lemma refused_at_not_clean n comps : refused_at n comps → clean n = false.
Proof.
  intros (c & f & Hr & Hs & Hl & Hd). revert f Hl Hs Hd.
  induction Hr as [n|st es g c' comps n Hin Hr IH]; intros f Hl Hs Hd; [done|].
  simpl. apply not_true_is_false. intros Hall.
  rewrite forallb_forall in Hall. apply list_elem_of_In, Hall in Hin.
  apply andb_prop in Hin as [Hok Hsub]. cbn [snd fst] in *.
  destruct comps as [|h comps].
  - inversion Hr; subst. simpl in Hl. injection Hl as ->.
    unfold entry_ok in Hok. simpl in Hok. rewrite Hs in Hok. simpl in Hok.
    apply andb_prop in Hok as [Hnd Heq]. apply str_eqb_eq in Heq.
    apply negb_true_iff in Hnd. destruct Hd; congruence.
  - assert (clean c' = false) as Hc by (eapply IH; eauto).
    inversion Hr; subst. congruence.
Qed.

(** ** [list_files]: what the walk collects *)

Lemma flat_map_bind {A B} (f : A → list B) l : flat_map f l = l ≫= f.
Proof. induction l as [|x l IH]; simpl; [done|]. by rewrite IH. Qed.

Lemma paths_of_entries st es : paths_of (Dir st es) ≡ₚ es ≫= entry_paths.
Proof.
  cbn [paths_of]. induction es as [|[f c] es IH]; [done|].
  cbn [List.filter flat_map mbind list_bind fst snd]. unfold entry_paths at 1. cbn [fst snd].
  destruct c as [st1 data|st1 es'|st1 l t].
  - destruct (negb (is_dir (File st1 data)) && negb (str_eqb f DS_Store)); simpl.
    + by rewrite IH.
    + by rewrite IH.
  - replace (is_dir (Dir st1 es')) with true by done. cbn [negb andb].
    rewrite <- IH. rewrite !app_assoc. f_equiv. apply Permutation_app_comm.
  - destruct (negb (is_dir (Symlink st1 l t)) && negb (str_eqb f DS_Store)); simpl.
    + by rewrite IH.
    + by rewrite IH.
Qed.

Lemma paths_of_elem_entry st es p :
  p ∈ paths_of (Dir st es) ↔ ∃ e, e ∈ es ∧ p ∈ entry_paths e.
Proof.
  rewrite paths_of_entries, list_elem_of_bind. split; intros (e & ? & ?); by exists e.
Qed.

Lemma reaches_file_inv st data comps n : reaches (File st data) comps n → comps = [].
Proof. by inversion 1. Qed.

Lemma reaches_link_inv st l t comps n : reaches (Symlink st l t) comps n → comps = [].
Proof. by inversion 1. Qed.

Lemma paths_of_nonempty n p : p ∈ paths_of n → p ≠ [].
Proof.
  destruct n as [st data|st es|st l t]; simpl; try by intros ?%elem_of_nil.
  rewrite elem_of_app, list_elem_of_fmap, flat_map_bind, list_elem_of_bind.
  intros [(e & -> & _)|([f c] & Hp & _)]; [done|].
  simpl in Hp. destruct c; try by apply elem_of_nil in Hp.
  apply list_elem_of_fmap in Hp as (q & -> & _). done.
Qed.

(** In a clean tree the collected paths are those of the regular files
    whose name is not [.DS_Store]. *)
Lemma paths_of_sound n :
  clean n = true → ∀ p, p ∈ paths_of n →
  ∃ f st data, reaches n p (File st data) ∧ last p = Some f ∧ f ≠ DS_Store.
Proof.
  induction n as [st data|st es IH|st l t IH] using node_ind; intros Hcl p Hp;
    try by apply elem_of_nil in Hp.
  apply paths_of_elem_entry in Hp as ([f c] & Hin & Hp).
  simpl in Hcl. rewrite forallb_forall in Hcl.
  pose proof (Hcl _ (proj1 (list_elem_of_In _ _) Hin)) as [Hok Hsub]%andb_prop.
  rewrite Forall_forall in IH. specialize (IH _ Hin).
  unfold entry_paths in Hp. cbn [fst snd] in *.
  destruct c as [st1 data|st1 es'|st1 l t].
  - destruct (str_eqb f DS_Store) eqn:Hf; simpl in Hp; [by apply elem_of_nil in Hp|].
    apply list_elem_of_singleton in Hp as ->. exists f, st1, data.
    split_and!; auto; [|by apply str_eqb_neq].
    eapply reaches_step; [done|constructor].
  - apply list_elem_of_fmap in Hp as (q & -> & Hq).
    destruct (IH Hsub q Hq) as (g & st2 & data & Hr & Hl & Hg).
    exists g, st2, data. split_and!; auto.
    + by eapply reaches_step.
    + destruct q; [done|]. done.
  - unfold entry_ok in Hok. cbn [fst snd is_symlink negb orb] in Hok.
    apply andb_prop in Hok as [Hnd Hf]. rewrite Hnd, Hf in Hp. simpl in Hp.
    by apply elem_of_nil in Hp.
Qed.

Lemma paths_of_complete n p f st data :
  reaches n p (File st data) → last p = Some f → f ≠ DS_Store → p ∈ paths_of n.
Proof.
  intros Hr. revert f. remember (File st data) as tgt eqn:Ht.
  induction Hr as [n|st0 es g c comps n Hin Hr IH]; intros f Hl Hf; [done|].
  apply paths_of_elem_entry. exists (g, c). split; [done|].
  unfold entry_paths. cbn [fst snd]. destruct c as [st1 data1|st1 es'|st1 l t].
  - apply reaches_file_inv in Hr as Hc. subst comps. simpl in Hl. injection Hl as ->.
    apply str_eqb_neq in Hf. rewrite Hf. simpl. left.
  - apply list_elem_of_fmap. exists comps. split; [done|].
    destruct comps as [|h comps]; [inversion Hr; subst; done|].
    eapply IH; eauto.
  - apply reaches_link_inv in Hr as Hc. subst comps. inversion Hr; subst. done.
Qed.

Lemma entry_paths_head e p : p ∈ entry_paths e → ∃ q, p = e.1 :: q.
Proof.
  destruct e as [f c]. unfold entry_paths. cbn [fst snd]. destruct c.
  - destruct (_ && _); [|by intros ?%elem_of_nil].
    intros ->%list_elem_of_singleton. by exists [].
  - intros (q & -> & _)%list_elem_of_fmap. by exists q.
  - destruct (_ && _); [|by intros ?%elem_of_nil].
    intros ->%list_elem_of_singleton. by exists [].
Qed.

Lemma NoDup_fst_unique {A B} (l : list (A * B)) x y1 y2 :
  NoDup l.*1 → (x, y1) ∈ l → (x, y2) ∈ l → y1 = y2.
Proof.
  induction l as [|[a b] l IH]; simpl; [by intros _ ?%elem_of_nil|].
  intros [Hn Hnd]%NoDup_cons [H1|H1]%elem_of_cons [H2|H2]%elem_of_cons.
  - congruence.
  - injection H1 as -> ->. destruct Hn. apply list_elem_of_fmap. by exists (a, y2).
  - injection H2 as -> ->. destruct Hn. apply list_elem_of_fmap. by exists (a, y1).
  - by apply IH.
Qed.

Lemma paths_of_NoDup n : wf_node n = true → NoDup (paths_of n).
Proof.
  induction n as [st data|st es IH|st l t IH] using node_ind; intros Hwf;
    try apply NoDup_nil_2.
  rewrite paths_of_entries. simpl in Hwf. apply andb_prop in Hwf as [Hnd Hall].
  apply bool_decide_eq_true in Hnd. rewrite forallb_forall in Hall.
  apply NoDup_bind.
  - intros [f1 c1] [f2 c2] p H1 H2 [q1 ->]%entry_paths_head [q2 Heq]%entry_paths_head.
    simpl in Heq. injection Heq as -> _. f_equal.
    eapply NoDup_fst_unique; eauto.
  - intros [f c] Hin. unfold entry_paths. cbn [fst snd].
    rewrite Forall_forall in IH. specialize (IH _ Hin).
    pose proof (Hall _ (proj1 (list_elem_of_In _ _) Hin)) as [_ Hc]%andb_prop.
    destruct c; cbn [fst snd] in *.
    + destruct (_ && _); [apply NoDup_singleton|apply NoDup_nil_2].
    + apply NoDup_fmap_2; [apply _|]. by apply IH.
    + destruct (_ && _); [apply NoDup_singleton|apply NoDup_nil_2].
  - by eapply NoDup_fmap_1.
Qed.

Lemma paths_of_valid n p :
  wf_node n = true → p ∈ paths_of n → forallb valid_name p = true.
Proof.
  revert p. induction n as [st data|st es IH|st l t IH] using node_ind; intros p Hwf Hp;
    try by apply elem_of_nil in Hp.
  apply paths_of_elem_entry in Hp as ([f c] & Hin & Hp).
  simpl in Hwf. apply andb_prop in Hwf as [_ Hall]. rewrite forallb_forall in Hall.
  pose proof (Hall _ (proj1 (list_elem_of_In _ _) Hin)) as [Hf Hc]%andb_prop.
  rewrite Forall_forall in IH. specialize (IH _ Hin).
  unfold entry_paths in Hp. cbn [fst snd] in *. destruct c.
  - destruct (_ && _); [|by apply elem_of_nil in Hp].
    apply list_elem_of_singleton in Hp as ->. simpl. by rewrite Hf.
  - apply list_elem_of_fmap in Hp as (q & -> & Hq). simpl. rewrite Hf. by apply IH.
  - destruct (_ && _); [|by apply elem_of_nil in Hp].
    apply list_elem_of_singleton in Hp as ->. simpl. by rewrite Hf.
Qed.

(** ** Paths as strings *)

Lemma split_on_plain a : slash_free a = true → split_on SLASH a = [a].
Proof.
  induction a as [|c a IH]; simpl; [done|].
  intros [Hc Ha]%andb_prop. apply negb_true_iff in Hc. rewrite Hc.
  by rewrite IH.
Qed.

Lemma split_on_app a s :
  slash_free a = true → split_on SLASH (a ++ SLASH :: s) = a :: split_on SLASH s.
Proof.
  induction a as [|c a IH]; simpl.
  - done.
  - intros [Hc Ha]%andb_prop. apply negb_true_iff in Hc. rewrite Hc.
    by rewrite IH.
Qed.

Lemma valid_name_slash_free f : valid_name f = true → slash_free f = true.
Proof. by intros [_ ?]%andb_prop. Qed.

Lemma split_as_posix p :
  p ≠ [] → forallb valid_name p = true → split_on SLASH (as_posix p) = p.
Proof.
  unfold as_posix. induction p as [|a p IH]; [done|]. intros _.
  simpl. intros [Ha Hp]%andb_prop. apply valid_name_slash_free in Ha.
  destruct p as [|b p].
  - by apply split_on_plain.
  - cbn [app]. rewrite split_on_app by done. f_equal. by apply IH.
Qed.

Lemma as_posix_inj p q :
  p ≠ [] → q ≠ [] → forallb valid_name p = true → forallb valid_name q = true →
  as_posix p = as_posix q → p = q.
Proof.
  intros Hp Hq Vp Vq Heq.
  rewrite <- (split_as_posix p), <- (split_as_posix q) by done. by rewrite Heq.
Qed.

(** ** Reordering directories *)

Lemma forallb_perm {A} (f : A → bool) l l' : l ≡ₚ l' → forallb f l = forallb f l'.
Proof.
  induction 1 as [|x l l' _ IH|x y l|l l' l'' _ IH1 _ IH2]; simpl.
  - done.
  - by rewrite IH.
  - destruct (f x), (f y); done.
  - congruence.
Qed.

Lemma similar_walk R n n' :
  similar R n n' → paths_of n ≡ₚ paths_of n' ∧ clean n = clean n'.
Proof.
  intros H.
  induction H using similar_mut
    with (P0 := λ es es', es ≫= entry_paths ≡ₚ es' ≫= entry_paths
                          ∧ forallb entry_clean es = forallb entry_clean es').
  - done.
  - destruct IHsimilar as [Hp Hc]. split.
    + rewrite !paths_of_entries. rewrite <- Hp. by f_equiv.
    + change (forallb entry_clean es = forallb entry_clean es').
      rewrite <- Hc. by apply forallb_perm.
  - done.
  - done.
  - destruct IHsimilar as [Hp Hc], IHsimilar0 as [Hps Hcs].
    assert (entry_paths (f, c) ≡ₚ entry_paths (f, c') ∧ entry_clean (f, c) = entry_clean (f, c'))
      as [He1 He2].
    { unfold entry_paths, entry_clean, entry_ok. cbn [fst snd].
      inversion H; subst; try done.
      split; [by f_equiv|]. by rewrite Hc. }
    split.
    + rewrite !bind_cons. by f_equiv.
    + simpl. by rewrite He2, Hcs.
Qed.


Lemma wf_node_entry st es f c :
  wf_node (Dir st es) = true → (f, c) ∈ es → valid_name f = true ∧ wf_node c = true.
Proof.
  simpl. intros [_ Hall]%andb_prop Hin. rewrite forallb_forall in Hall.
  by apply list_elem_of_In, Hall, andb_prop in Hin.
Qed.


Lemma reaches_valid n p c :
  wf_node n = true → reaches n p c → forallb valid_name p = true.
Proof.
  intros Hwf Hr. induction Hr as [n|st es f c comps n Hin Hr IH]; [done|].
  destruct (wf_node_entry _ _ _ _ Hwf Hin) as [Hf Hc]. simpl. rewrite Hf. by apply IH.
Qed.

Lemma list_files_clean module_dir tree :
  clean (walk_top tree) = true →
  list_files module_dir tree = Ok (sort_strs (files_of [] (walk_top tree))).
Proof.
  intros Hcl. unfold list_files. by rewrite scan_walk_clean.
Qed.

Lemma list_files_dirty module_dir tree :
  clean (walk_top tree) = false →
  ∃ e comps, list_files module_dir tree = Err e ∧ refused_link tree comps
    ∧ symlink_rejected e = Some (path_join module_dir (as_posix comps)).
Proof.
  intros Hcl. unfold list_files.
  destruct (scan_walk_dirty module_dir _ [] [] Hcl) as (e & comps & -> & Hr & He).
  by exists e, comps.
Qed.



Lemma files_of_NoDup tree :
  wf_tree tree = true → NoDup (files_of [] (walk_top tree)).
Proof.
  intros Hwf. unfold files_of. apply NoDup_fmap_2_strong; [|by apply paths_of_NoDup].
  intros p q Hp Hq. simpl. apply as_posix_inj; eauto using paths_of_nonempty, paths_of_valid.
Qed.


(** ** Path lookup in a well-formed tree *)

Lemma lookup_entry_elem es f c :
  NoDup es.*1 → (f, c) ∈ es → lookup_entry f es = Some c.
Proof.
  induction es as [|[g d] es IH]; simpl; [by intros _ ?%elem_of_nil|].
  intros [Hn Hnd]%NoDup_cons [Heq|Hin]%elem_of_cons.
  - injection Heq as -> ->. by rewrite (proj2 (str_eqb_eq g g)).
  - destruct (str_eqb g f) eqn:Hg; [|by apply IH].
    apply str_eqb_eq in Hg as ->. destruct Hn. apply list_elem_of_fmap. by exists (f, c).
Qed.

Lemma lookup_entry_Some es f c : lookup_entry f es = Some c → (f, c) ∈ es.
Proof.
  induction es as [|[g d] es IH]; simpl; [done|].
  destruct (str_eqb g f) eqn:Hg.
  - apply str_eqb_eq in Hg as ->. intros [= ->]. left.
  - intros ?%IH. by right.
Qed.

Lemma resolve_walk_top tree st es :
  walk_top tree = Dir st es → resolve tree = Some (Dir st es).
Proof.
  unfold walk_top. destruct (resolve tree) as [t|] eqn:Hr; simpl.
  - by intros ->.
  - intros ->. done.
Qed.

Lemma lstat_from_reaches n p c :
  wf_node n = true → reaches n p c → p ≠ [] → lstat_from n p = Some c.
Proof.
  intros Hwf Hr. induction Hr as [n|st es f c comps n Hin Hr IH]; intros Hne; [done|].
  simpl. simpl in Hwf. apply andb_prop in Hwf as [Hnd Hall].
  apply bool_decide_eq_true in Hnd. rewrite (lookup_entry_elem _ _ _ Hnd Hin). simpl.
  rewrite forallb_forall in Hall.
  apply list_elem_of_In, Hall, andb_prop in Hin as [_ Hc].
  destruct comps as [|g comps]; [by inversion Hr|]. by apply IH.
Qed.

Lemma lstat_from_top tree p :
  p ≠ [] → lstat_from tree p = lstat_from (walk_top tree) p.
Proof.
  destruct p as [|f p]; [done|]. intros _. simpl. unfold walk_top.
  destruct tree as [st data|st es|st l [t|]]; try done. simpl.
  assert (∀ t, resolve (default (Symlink st l (Some t)) (resolve t)) = resolve t) as ->; [|done].
  clear. intros t. induction t as [st1 data|st1 es|st1 l1 t1 IH] using node_ind; try done.
  destruct t1 as [t1|]; [|done]. simpl. destruct (resolve t1) eqn:Hr; simpl in *.
  - specialize (IH t1 eq_refl). by rewrite Hr in IH.
  - done.
Qed.

(** Every manifest path of a clean, well-formed tree is a regular file for
    [os.lstat]. *)
Lemma lstat_manifest tree rel :
  wf_tree tree = true → clean (walk_top tree) = true →
  rel ∈ files_of [] (walk_top tree) →
  ∃ p st data, rel = as_posix p ∧ p ∈ paths_of (walk_top tree)
    ∧ reaches (walk_top tree) p (File st data)
    ∧ lstat tree rel = Some (File st data).
Proof.
  intros Hwf Hcl (p & -> & Hp)%list_elem_of_fmap. simpl.
  destruct (paths_of_sound _ Hcl p Hp) as (f & st & data & Hr & _).
  exists p, st, data. split_and!; auto. unfold lstat.
  rewrite split_as_posix by eauto using paths_of_nonempty, paths_of_valid.
  rewrite lstat_from_top by eauto using paths_of_nonempty.
  apply lstat_from_reaches; eauto using paths_of_nonempty.
Qed.

(** ** [build_tarball]: one member *)

Lemma add_member_file env module_dir tree module_name rel tf st data :
  lstat tree rel = Some (File st data) →
  add_member env module_dir tree module_name rel tf
  = if taken_for_link tf.1 st (arcname_of module_name rel)
    then Err (SymlinkOrHardlink (path_join module_dir rel))
    else Ok (record_inode tf.1 st (arcname_of module_name rel),
             tf.2 ++ [member_of module_name rel st data]).
Proof.
  intros Hl. unfold add_member, taken_for_link, record_inode, member_of, arcname_of.
  rewrite Hl. unfold gettarinfo. cbn [node_stat].
  destruct (tf.1 !! (st_ino st, st_dev st)) as [first|]; [|done].
  destruct (bool_decide (1 < st_nlink st)%Z && negb _); done.
Qed.

(** The outcome of a member does not depend on the user database, nor on
    owner, group and modification time of the file. *)
Lemma add_member_equiv env env' module_dir tree tree' module_name rel tf st st' data :
  lstat tree rel = Some (File st data) →
  lstat tree' rel = Some (File st' data) →
  build_equiv st st' →
  add_member env' module_dir tree' module_name rel tf
  = add_member env module_dir tree module_name rel tf.
Proof.
  intros H1 H2 (Hm & Hi & Hd & Hn).
  rewrite (add_member_file _ _ _ _ _ _ _ _ H1), (add_member_file _ _ _ _ _ _ _ _ H2).
  unfold taken_for_link, record_inode, member_of. by rewrite Hm, Hi, Hd, Hn.
Qed.

Lemma add_members_ext env env' module_dir tree tree' module_name fl :
  (∀ rel tf, rel ∈ fl →
     add_member env' module_dir tree' module_name rel tf
     = add_member env module_dir tree module_name rel tf) →
  ∀ tf, add_members env' module_dir tree' module_name fl tf
        = add_members env module_dir tree module_name fl tf.
Proof.
  induction fl as [|rel fl IH]; intros Hext tf; simpl; [done|].
  rewrite Hext by left. destruct (add_member env _ _ _ _ _); [|done].
  apply IH. intros. apply Hext. by right.
Qed.

(** ** Reordered trees are read alike *)

Lemma similar_entries_elem R mid es' f c :
  similar_entries R mid es' → (f, c) ∈ mid →
  ∃ c', (f, c') ∈ es' ∧ similar R c c'.
Proof.
  induction 1 as [|g d d' l l' Hd Hl IH]; [by intros ?%elem_of_nil|].
  intros [Heq|Hin]%elem_of_cons.
  - injection Heq as -> ->. exists d'. split; [left|done].
  - destruct (IH Hin) as (c' & ? & ?). exists c'. split; [by right|done].
Qed.

Lemma similar_reaches R n n' p c :
  reaches n p c → similar R n n' → ∃ c', reaches n' p c' ∧ similar R c c'.
Proof.
  intros Hr. revert n'. induction Hr as [n|st es f c comps n Hin Hr IH]; intros n' Hs.
  - exists n'. split; [constructor|done].
  - inversion Hs as [| st0 st' es0 mid es' Hp He |]; subst.
    rewrite Hp in Hin.
    destruct (similar_entries_elem _ _ _ _ _ He Hin) as (c' & Hin' & Hc).
    destruct (IH _ Hc) as (c'' & Hr' & Hc'). exists c''. split; [|done].
    by eapply reaches_step.
Qed.

Lemma similar_entries_names R mid es' : similar_entries R mid es' → mid.*1 = es'.*1.
Proof. induction 1; csimpl; congruence. Qed.

Lemma similar_wf R n n' : similar R n n' → wf_node n = wf_node n'.
Proof.
  intros H.
  induction H using similar_mut
    with (P0 := λ es es', forallb (λ e, valid_name e.1 && wf_node e.2) es
                          = forallb (λ e, valid_name e.1 && wf_node e.2) es').
  - done.
  - simpl. f_equal.
    + apply bool_decide_ext. rewrite <- (similar_entries_names _ _ _ H0).
      by rewrite H.
    + rewrite <- IHsimilar. by apply forallb_perm.
  - done.
  - done.
  - simpl. by rewrite IHsimilar, IHsimilar0.
Qed.

Lemma similar_top R tree tree' :
  similar R tree tree' →
  tree' = tree ∨ (walk_top tree = tree ∧ walk_top tree' = tree').
Proof. destruct 1; auto. Qed.

Lemma lstat_of_reaches tree p c :
  wf_tree tree = true → reaches (walk_top tree) p c → p ≠ [] →
  lstat tree (as_posix p) = Some c.
Proof.
  intros Hwf Hr Hne. unfold lstat.
  rewrite split_as_posix by eauto using reaches_valid.
  rewrite lstat_from_top by done. by apply lstat_from_reaches.
Qed.

Lemma list_files_Ok module_dir tree fl :
  list_files module_dir tree = Ok fl →
  clean (walk_top tree) = true ∧ fl = sort_strs (files_of [] (walk_top tree)).
Proof.
  intros H. destruct (clean (walk_top tree)) eqn:Hcl.
  - rewrite list_files_clean in H by done. by injection H as <-.
  - destruct (list_files_dirty module_dir tree Hcl) as (e & comps & He & _). congruence.
Qed.

Lemma build_equiv_refl st : build_equiv st st.
Proof. by repeat split. Qed.

(** On similar trees every manifest path is the same file up to
    [build_equiv]. *)
Lemma lstat_similar tree tree' fl module_dir rel :
  wf_tree tree = true → similar build_equiv tree tree' →
  list_files module_dir tree = Ok fl → rel ∈ fl →
  ∃ st st' data, lstat tree rel = Some (File st data)
    ∧ lstat tree' rel = Some (File st' data) ∧ build_equiv st st'.
Proof.
  intros Hwf Hsim [Hcl ->]%list_files_Ok Hin. apply (proj1 (sort_strs_elem _ _)) in Hin.
  destruct (lstat_manifest _ _ Hwf Hcl Hin) as (p & st & data & -> & Hp & Hr & Hl).
  destruct (similar_top _ _ _ Hsim) as [->|[Ht Ht']].
  { exists st, st, data. split_and!; auto using build_equiv_refl. }
  rewrite Ht in Hr.
  destruct (similar_reaches _ _ _ _ _ Hr Hsim) as (c' & Hr' & Hc).
  inversion Hc as [st0 st' data0 HR| |]; subst.
  exists st, st', data. split_and!; auto.
  apply lstat_of_reaches; eauto using paths_of_nonempty.
  - unfold wf_tree in *. rewrite Ht'. rewrite Ht in Hwf.
    by rewrite <- (similar_wf _ _ _ Hsim).
  - by rewrite Ht'.
Qed.

Lemma list_files_similar R module_dir tree tree' fl :
  similar R tree tree' →
  list_files module_dir tree = Ok fl → list_files module_dir tree' = Ok fl.
Proof.
  intros Hsim [Hcl ->]%list_files_Ok.
  assert (paths_of (walk_top tree) ≡ₚ paths_of (walk_top tree')
          ∧ clean (walk_top tree) = clean (walk_top tree')) as [Hp Hc].
  { destruct Hsim; try done; eapply (similar_walk R); by econstructor. }
  rewrite list_files_clean by congruence. f_equal.
  apply sort_strs_unique. unfold files_of. by rewrite Hp.
Qed.

Lemma add_member_Ok env module_dir tree module_name rel tf tf' :
  add_member env module_dir tree module_name rel tf = Ok tf' →
  ∃ st data, lstat tree rel = Some (File st data)
    ∧ tf'.2 = tf.2 ++ [member_of module_name rel st data].
Proof.
  intros H. destruct (lstat tree rel) as [[st data|st es|st l t]|] eqn:Hl.
  - rewrite (add_member_file _ _ _ _ _ _ _ _ Hl) in H.
    destruct (taken_for_link _ _ _); [done|]. injection H as <-. by exists st, data.
  - unfold add_member in H. rewrite Hl in H. simpl in H. done.
  - unfold add_member in H. rewrite Hl in H. simpl in H. done.
  - unfold add_member in H. rewrite Hl in H. done.
Qed.

(** The members the loop adds, in the order of the file list. *)
Lemma add_members_spec env module_dir tree module_name fl :
  ∀ tf ms r, add_members env module_dir tree module_name fl tf = (ms, r) →
  ∃ new, ms = tf.2 ++ new
    ∧ Forall (λ m, ∃ rel st data, rel ∈ fl ∧ lstat tree rel = Some (File st data)
                   ∧ m = member_of module_name rel st data) new
    ∧ (r = Ok tt → ti_name <$> new.*1 = arcname_of module_name <$> fl).
Proof.
  induction fl as [|rel fl IH]; intros tf ms r; simpl.
  - intros [= <- <-]. exists []. by rewrite app_nil_r.
  - destruct (add_member env module_dir tree module_name rel tf) as [tf'|e] eqn:Hm.
    + destruct (add_member_Ok _ _ _ _ _ _ _ Hm) as (st & data & Hl & Htf).
      intros (new & -> & Hall & Hnames)%IH.
      exists (member_of module_name rel st data :: new). split_and!.
      * by rewrite Htf, <- app_assoc.
      * constructor; [exists rel, st, data; split_and!; auto; left|].
        eapply Forall_impl; [done|]. intros m (rel' & st' & data' & ? & ? & ?).
        exists rel', st', data'. split_and!; auto. by right.
      * intros Hr. csimpl. by rewrite Hnames.
    + intros [= <- <-]. exists []. rewrite app_nil_r. split_and!; [done|constructor|done].
Qed.

Lemma member_of_normalised module_name rel st data :
  normalised (member_of module_name rel st data).
Proof. by repeat split. Qed.

(** ** [build_tarball]: what is written *)

Lemma build_tarball_written env module_dir tree module_name out_dir module_version files fl :
  list_files module_dir tree = Ok fl →
  ∃ a, (build_tarball env module_dir tree module_name out_dir module_version files).1
         !! archive_path module_name out_dir module_version = Some a
    ∧ gz_mtime a = 0%Z
    ∧ Forall normalised (members a)
    ∧ Forall (λ m, ∃ rel st data, rel ∈ fl ∧ lstat tree rel = Some (File st data)
                   ∧ m = member_of module_name rel st data) (members a)
    ∧ (complete a = true ↔
       (build_tarball env module_dir tree module_name out_dir module_version files).2
       = Ok (archive_path module_name out_dir module_version))
    ∧ (complete a = true →
       ti_name <$> (members a).*1 = arcname_of module_name <$> fl).
Proof.
  intros Hfl. unfold build_tarball. rewrite Hfl.
  destruct (add_members env module_dir tree module_name fl (∅, [])) as [ms r] eqn:Hm.
  destruct (add_members_spec _ _ _ _ _ _ _ _ Hm) as (new & -> & Hall & Hnames).
  simpl in *. destruct r as [[]|e]; simpl; rewrite lookup_insert_eq;
    eexists; (split; [done|]); simpl; split_and!; auto; try done.
  - eapply Forall_impl; [done|]. intros m (rel & st & data & _ & _ & ->).
    apply member_of_normalised.
  - eapply Forall_impl; [done|]. intros m (rel & st & data & _ & _ & ->).
    apply member_of_normalised.
Qed.

(** C1 (amended).  The outcome of [build_tarball] is the same for two
    module trees that hold the same paths with the same contents, modes
    and inode identities, whatever the order of their directory entries,
    the owners, groups and modification times of their files, and the user
    database; so are the archive bytes and the checksum read back from
    them.  The archive carries time stamp 0 in the gzip header; every
    member has uid and gid 0, user and group name [root] and mtime 0; the
    members of a finished archive follow the sorted manifest. *)
Theorem build_tarball_reproducible archive_bytes env env' module_dir tree tree'
    module_name out_dir module_version files fl :
  wf_tree tree = true →
  similar build_equiv tree tree' →
  list_files module_dir tree = Ok fl →
  let built := build_tarball env module_dir tree module_name out_dir module_version files in
  let built' := build_tarball env' module_dir tree' module_name out_dir module_version files in
  let path := archive_path module_name out_dir module_version in
  built' = built
  ∧ sha256_file archive_bytes built'.1 path = sha256_file archive_bytes built.1 path
  ∧ Sorted str_le fl
  ∧ ∃ a, built.1 !! path = Some a
      ∧ gz_mtime a = 0%Z
      ∧ Forall normalised (members a)
      ∧ (built.2 = Ok path → ti_name <$> (members a).*1 = arcname_of module_name <$> fl).
Proof.
  intros Hwf Hsim Hfl built built' path.
  assert (built' = built) as Heq.
  { unfold built, built', build_tarball.
    rewrite Hfl, (list_files_similar _ _ _ _ _ Hsim Hfl).
    rewrite (add_members_ext env env' module_dir tree tree'); [done|].
    intros rel tf Hin.
    destruct (lstat_similar _ _ _ _ _ Hwf Hsim Hfl Hin) as (st & st' & data & H1 & H2 & HR).
    by eapply add_member_equiv. }
  split_and!; [done|by rewrite Heq| |].
  - apply list_files_Ok in Hfl as [_ ->]. apply sort_strs_sorted.
  - destruct (build_tarball_written env module_dir tree module_name out_dir
                module_version files fl Hfl) as (a & Ha & Hz & Hn & _ & Hc & Hnames).
    exists a. split_and!; auto. intros Hok. apply Hnames, Hc, Hok.
Qed.

(** ** [build_tarball]: the layout of the archive *)

Lemma lstrip_slash_valid module_name s :
  valid_name module_name = true → lstrip_slash (module_name ++ s) = module_name ++ s.
Proof.
  destruct module_name as [|c rest]; [done|].
  intros [_ [Hc _]%andb_prop]%andb_prop. simpl.
  apply negb_true_iff in Hc. by rewrite Hc.
Qed.

Lemma arcname_of_valid module_name rel :
  valid_name module_name = true →
  arcname_of module_name rel = module_name ++ [SLASH] ++ rel.
Proof. apply lstrip_slash_valid. Qed.

Lemma top_component_arcname module_name rel :
  valid_name module_name = true →
  top_component (module_name ++ [SLASH] ++ rel) = module_name.
Proof.
  intros Hv%valid_name_slash_free. unfold top_component. simpl.
  by rewrite split_on_app.
Qed.

(** The descriptor of a module that was read and whose files were listed
    is in the manifest. *)
Lemma descriptor_in_manifest module_dir tree fl st data :
  descriptor_of tree ≫= resolve = Some (File st data) →
  list_files module_dir tree = Ok fl →
  MODULE_YAML ∈ fl.
Proof.
  intros Hd [Hcl ->]%list_files_Ok. apply sort_strs_elem.
  unfold descriptor_of in Hd.
  destruct (resolve tree) as [[|st0 es|]|] eqn:Hr; try done.
  assert (walk_top tree = Dir st0 es) as Ht by (unfold walk_top; by rewrite Hr).
  rewrite Ht in *. simpl in Hd.
  destruct (lookup_entry MODULE_YAML es) as [c|] eqn:Hl; [|done]. simpl in Hd.
  apply lookup_entry_Some in Hl.
  assert (c = File st data) as ->.
  { simpl in Hcl. rewrite forallb_forall in Hcl.
    apply list_elem_of_In, Hcl, andb_prop in Hl as [Hok _].
    destruct c as [| |? ? t]; simpl in Hd; try congruence.
    unfold entry_ok in Hok. cbn [fst snd is_symlink negb orb] in Hok.
    apply andb_prop in Hok as [_ Hok]. by vm_compute in Hok. }
  apply list_elem_of_fmap. exists [MODULE_YAML]. split; [done|].
  eapply paths_of_complete; [|done|done].
  eapply reaches_step; [done|constructor].
Qed.

(** The members of a finished archive, for a module name that is not
    empty and holds no slash: regular files only, one per manifest path
    [rel] and named [module_name/rel], so that the first component of
    every member name is [module_name]; the archive of a module whose
    descriptor is a regular file holds [module_name/module.yaml] and is
    not empty. *)
Theorem build_tarball_single_root env module_dir tree module_name out_dir
    module_version files files' path :
  valid_name module_name = true →
  build_tarball env module_dir tree module_name out_dir module_version files
  = (files', Ok path) →
  ∃ a fl, files' !! path = Some a
    ∧ complete a = true
    ∧ list_files module_dir tree = Ok fl
    ∧ ti_name <$> (members a).*1 = (λ rel, module_name ++ [SLASH] ++ rel) <$> fl
    ∧ Forall (λ m, top_component (ti_name m.1) = module_name
                   ∧ ti_type m.1 = REGTYPE) (members a)
    ∧ (∀ st data, descriptor_of tree ≫= resolve = Some (File st data) →
         module_name ++ [SLASH] ++ MODULE_YAML ∈ ti_name <$> (members a).*1).
Proof.
  intros Hv Hb.
  destruct (list_files module_dir tree) as [fl|e] eqn:Hfl.
  2:{ unfold build_tarball in Hb. by rewrite Hfl in Hb. }
  destruct (build_tarball_written env module_dir tree module_name out_dir
              module_version files fl Hfl) as (a & Ha & _ & _ & Hall & Hc & Hnames).
  rewrite Hb in Ha, Hc. simpl in Ha, Hc.
  assert (path = archive_path module_name out_dir module_version) as Hp.
  { unfold build_tarball in Hb. rewrite Hfl in Hb.
    destruct (add_members _ _ _ _ _ _) as [ms [|]]; by injection Hb. }
  subst path. assert (complete a = true) as Hca by by apply Hc.
  assert (ti_name <$> (members a).*1 = (λ rel, module_name ++ [SLASH] ++ rel) <$> fl)
    as Hn.
  { rewrite Hnames by done. apply list_fmap_ext. intros _ rel _.
    by apply arcname_of_valid. }
  exists a, fl. split_and!; auto.
  - eapply Forall_impl; [done|]. intros m (rel & st & data & _ & _ & ->). simpl.
    split; [|done]. rewrite arcname_of_valid by done.
    by apply top_component_arcname.
  - intros st data Hd. rewrite Hn. apply list_elem_of_fmap. exists MODULE_YAML.
    split; [done|]. by eapply descriptor_in_manifest.
Qed.

(** ** [build_tarball]: hard links *)

Lemma lstrip_slash_app s rel c r :
  rel = c :: r → c ≠ SLASH → lstrip_slash (s ++ rel) = lstrip_slash s ++ rel.
Proof.
  intros -> Hc. induction s as [|x s IH]; simpl.
  - by rewrite (proj2 (N.eqb_neq c SLASH)).
  - destruct (x =? SLASH); [apply IH|done].
Qed.

Lemma as_posix_head p :
  p ≠ [] → forallb valid_name p = true → ∃ c r, as_posix p = c :: r ∧ c ≠ SLASH.
Proof.
  destruct p as [|a p]; [done|]. intros _. simpl.
  intros [[Ha Hs]%andb_prop _]%andb_prop.
  destruct a as [|c a]; [done|]. simpl in Hs. apply andb_prop in Hs as [Hc _].
  apply negb_true_iff, N.eqb_neq in Hc. unfold as_posix. simpl.
  destruct p; simpl; eauto.
Qed.

Lemma arcname_of_inj module_name tree r1 r2 :
  wf_tree tree = true →
  r1 ∈ files_of [] (walk_top tree) → r2 ∈ files_of [] (walk_top tree) →
  arcname_of module_name r1 = arcname_of module_name r2 → r1 = r2.
Proof.
  intros Hwf (p1 & -> & H1)%list_elem_of_fmap (p2 & -> & H2)%list_elem_of_fmap.
  simpl. unfold arcname_of.
  destruct (as_posix_head p1) as (c1 & t1 & E1 & N1);
    eauto using paths_of_nonempty, paths_of_valid.
  destruct (as_posix_head p2) as (c2 & t2 & E2 & N2);
    eauto using paths_of_nonempty, paths_of_valid.
  rewrite !(app_assoc module_name).
  rewrite (lstrip_slash_app _ _ _ _ E1 N1), (lstrip_slash_app _ _ _ _ E2 N2).
  by intros ?%app_inv_head.
Qed.

Lemma taken_for_link_false inodes st arc first :
  taken_for_link inodes st arc = false → inodes !! inode_key st = Some first →
  (1 < st_nlink st)%Z → arc = first.
Proof.
  unfold taken_for_link, inode_key. intros Ht Hs Hn. rewrite Hs in Ht.
  rewrite (bool_decide_eq_true_2 _ Hn) in Ht. simpl in Ht.
  by apply negb_false_iff, str_eqb_eq in Ht.
Qed.

Lemma record_inode_lookup inodes st arc k v :
  record_inode inodes st arc !! k = Some v →
  inodes !! k = Some v ∨ v = arc.
Proof.
  unfold record_inode. case_bool_decide; [by left|].
  destruct (decide (k = (st_ino st, st_dev st))) as [->|Hne].
  - rewrite lookup_insert_eq. intros [= <-]. by right.
  - rewrite lookup_insert_ne by done. by left.
Qed.

Lemma record_inode_is_Some inodes st arc k :
  is_Some (inodes !! k) → is_Some (record_inode inodes st arc !! k).
Proof.
  unfold record_inode. case_bool_decide; [done|].
  destruct (decide (k = (st_ino st, st_dev st))) as [->|Hne].
  - rewrite lookup_insert_eq. eauto.
  - by rewrite lookup_insert_ne.
Qed.

Lemma record_inode_own inodes st arc :
  st_ino st ≠ 0%Z → is_Some (record_inode inodes st arc !! inode_key st).
Proof.
  intros Hne. unfold record_inode, inode_key.
  rewrite bool_decide_eq_false_2 by done. rewrite lookup_insert_eq. eauto.
Qed.

(** When a link lies ahead and all files of the list are regular files,
    the loop raises at one of them. *)
Lemma add_members_link env module_dir tree module_name fl :
  ∀ tf,
  NoDup (arcname_of module_name <$> fl) →
  (∀ rel, rel ∈ fl → ∃ st data, lstat tree rel = Some (File st data)) →
  stale module_name tf.1 fl →
  link_ahead tree tf.1 fl →
  ∃ rel, rel ∈ fl
    ∧ (add_members env module_dir tree module_name fl tf).2
      = Err (SymlinkOrHardlink (path_join module_dir rel)).
Proof.
  induction fl as [|rel fl IH]; intros tf Hnd Hfiles Hstale Hahead.
  { destruct Hahead as [(r & ? & ? & ?%elem_of_nil & _)
                       |(r1 & r2 & ? & ? & ? & ? & ?%elem_of_nil & _)]; done. }
  destruct (Hfiles rel) as (st & data & Hl); [left|].
  simpl. rewrite (add_member_file _ _ _ _ _ _ _ _ Hl).
  destruct (taken_for_link tf.1 st (arcname_of module_name rel)) eqn:Ht.
  { exists rel. split; [left|done]. }
  csimpl in Hnd. apply NoDup_cons in Hnd as [Hfresh Hnd].
  destruct (IH (record_inode tf.1 st (arcname_of module_name rel),
                tf.2 ++ [member_of module_name rel st data])) as (rel' & Hin & Herr); auto.
  - intros. apply Hfiles. by right.
  - intros k v r Hk Hr. simpl in Hk. apply record_inode_lookup in Hk as [Hk| ->].
    + eapply Hstale; [done|by right].
    + intros Heq. apply Hfresh. rewrite Heq. by apply list_elem_of_fmap_2.
  - simpl. destruct Hahead as [(r & st' & d & Hr & Hlr & Hn & Hs)|(r1 & r2 & Hp)].
    + apply elem_of_cons in Hr as [->|Hr].
      * rewrite Hl in Hlr. injection Hlr as <- <-. destruct Hs as [first Hs].
        pose proof (taken_for_link_false _ _ _ _ Ht Hs Hn) as <-.
        edestruct Hstale; [done|left|done].
      * left. exists r, st', d. split_and!; auto. by apply record_inode_is_Some.
    + destruct Hp as (st1 & d1 & st2 & d2 & H1 & H2 & Hne & Hl1 & Hl2 & Hk & Hi & Hn1 & Hn2).
      apply elem_of_cons in H1 as [->|H1], H2 as [->|H2]; try done.
      * left. exists r2, st2, d2. split_and!; auto.
        rewrite Hl in Hl1. injection Hl1 as <- <-. rewrite <- Hk.
        by apply record_inode_own.
      * left. exists r1, st1, d1. split_and!; auto.
        rewrite Hl in Hl2. injection Hl2 as <- <-. rewrite Hk.
        apply record_inode_own. unfold inode_key in Hk. by injection Hk as <- _.
      * right. exists r1, r2, st1, d1, st2, d2. split_and!; auto.
  - exists rel'. split; [by right|done].
Qed.

(** ** [main]: an exception ends the run before the index is written *)

Lemma for_modules_app archive_bytes env args ts modules_dir out_dir v1_modules
    l1 l2 files entries :
  for_modules archive_bytes env args ts modules_dir out_dir v1_modules (l1 ++ l2) files entries
  = match for_modules archive_bytes env args ts modules_dir out_dir v1_modules l1 files entries with
    | (files1, Ok entries1) =>
        for_modules archive_bytes env args ts modules_dir out_dir v1_modules l2 files1 entries1
    | (files1, Err e) => (files1, Err e)
    end.
Proof.
  revert files entries. induction l1 as [|m l1 IH]; intros files entries; simpl; [done|].
  destruct (loop_body _ _ _ _ _ _ _ m files entries) as [files' [entries'|e]]; [|done].
  apply IH.
Qed.

Lemma loop_body_build_err archive_bytes env args ts modules_dir out_dir v1_modules
    m files entries meta files' e :
  read_module_yaml_scalars (path_join (path_join modules_dir m.1) MODULE_YAML)
                           (descriptor_of m.2) = Ok meta →
  selected args (name meta) = true →
  (∃ merged, legacy_fields v1_modules meta = Ok merged) →
  build_tarball env (path_join modules_dir m.1) m.2 (name meta) out_dir (version meta) files
  = (files', Err e) →
  loop_body archive_bytes env args ts modules_dir out_dir v1_modules m files entries
  = (files', Err e).
Proof.
  intros Hm Hs [merged Hl] Hb. unfold loop_body. rewrite Hm, Hs, Hl. simpl.
  by rewrite Hb.
Qed.

Lemma main_abort archive_bytes env args now modules_dir out_dir modules_tree v1 w
    v1_modules before m after files1 entries1 meta files2 e :
  json_get v1 (py "modules") (JDict []) = Ok v1_modules →
  discover modules_tree = before ++ m :: after →
  builds_module archive_bytes env args (build_timestamp args now) modules_dir out_dir
                v1_modules before m (out_files w) files1 entries1 meta →
  build_tarball env (path_join modules_dir m.1) m.2 (name meta) out_dir (version meta) files1
  = (files2, Err e) →
  main archive_bytes env args now modules_dir out_dir modules_tree v1 w
  = (mkWorld files2 (registry_out w), Err e).
Proof.
  intros Hv Hd (Hpre & Hm & Hs & Hl) Hb. unfold main. rewrite Hv, Hd.
  rewrite for_modules_app, Hpre. simpl.
  by rewrite (loop_body_build_err _ _ _ _ _ _ _ _ _ _ _ _ _ Hm Hs Hl Hb).
Qed.

Lemma build_tarball_list_err env module_dir tree module_name out_dir module_version files e :
  list_files module_dir tree = Err e →
  build_tarball env module_dir tree module_name out_dir module_version files
  = (files, Err e).
Proof. intros H. unfold build_tarball. by rewrite H. Qed.

(** C2 (amended).  When the run gets as far as building a module whose
    tree holds a refused link (a link to a directory under any name, or
    another link whose name is not [.DS_Store]), [list_files] raises for
    the path of such a link and returns no manifest, [build_tarball]
    raises the same exception without touching the output directory, and
    [main] ends with it: the archives are those of the modules processed
    before, and the index is not written. *)
Theorem refused_link_aborts archive_bytes env args now modules_dir out_dir
    modules_tree v1 w v1_modules before m after files1 entries1 meta :
  json_get v1 (py "modules") (JDict []) = Ok v1_modules →
  discover modules_tree = before ++ m :: after →
  builds_module archive_bytes env args (build_timestamp args now) modules_dir out_dir
                v1_modules before m (out_files w) files1 entries1 meta →
  (∃ comps, refused_link m.2 comps) →
  ∃ e comps,
    refused_link m.2 comps
    ∧ symlink_rejected e = Some (path_join (path_join modules_dir m.1) (as_posix comps))
    ∧ list_files (path_join modules_dir m.1) m.2 = Err e
    ∧ build_tarball env (path_join modules_dir m.1) m.2 (name meta) out_dir
                    (version meta) files1 = (files1, Err e)
    ∧ main archive_bytes env args now modules_dir out_dir modules_tree v1 w
      = (mkWorld files1 (registry_out w), Err e).
Proof.
  intros Hv Hd Hb [comps0 Hr%refused_at_not_clean].
  destruct (list_files_dirty (path_join modules_dir m.1) m.2 Hr) as (e & comps & Hl & Hc & He).
  exists e, comps. split_and!; auto.
  - by apply build_tarball_list_err.
  - eapply main_abort; eauto. by apply build_tarball_list_err.
Qed.

Lemma not_clean_refused tree :
  clean (walk_top tree) = false → ∃ comps, refused_link tree comps.
Proof.
  intros Hcl. destruct (list_files_dirty [] tree Hcl) as (e & comps & _ & Hr & _).
  by exists comps.
Qed.

(** C3 (amended).  When the run gets as far as building a well-formed
    module whose manifest holds two paths that are links to one inode,
    [build_tarball] raises the hard-link exception for a manifest path,
    leaving an unfinished archive behind, and [main] ends with that
    exception without writing the index. *)
Theorem hard_link_aborts archive_bytes env args now modules_dir out_dir
    modules_tree v1 w v1_modules before m after files1 entries1 meta fl r1 r2 :
  json_get v1 (py "modules") (JDict []) = Ok v1_modules →
  discover modules_tree = before ++ m :: after →
  builds_module archive_bytes env args (build_timestamp args now) modules_dir out_dir
                v1_modules before m (out_files w) files1 entries1 meta →
  wf_tree m.2 = true →
  list_files (path_join modules_dir m.1) m.2 = Ok fl →
  linked_pair m.2 fl r1 r2 →
  ∃ rel a,
    rel ∈ fl ∧ complete a = false
    ∧ build_tarball env (path_join modules_dir m.1) m.2 (name meta) out_dir
                    (version meta) files1
      = (<[archive_path (name meta) out_dir (version meta) := a]> files1,
         Err (SymlinkOrHardlink (path_join (path_join modules_dir m.1) rel)))
    ∧ main archive_bytes env args now modules_dir out_dir modules_tree v1 w
      = (mkWorld (<[archive_path (name meta) out_dir (version meta) := a]> files1)
                 (registry_out w),
         Err (SymlinkOrHardlink (path_join (path_join modules_dir m.1) rel))).
Proof.
  intros Hv Hd Hb Hwf Hfl Hpair.
  pose proof Hfl as [Hcl Hsort]%list_files_Ok.
  destruct (add_members_link env (path_join modules_dir m.1) m.2 (name meta) fl (∅, []))
    as (rel & Hin & Herr).
  - apply NoDup_fmap_2_strong.
    + intros x y Hx Hy. subst fl. apply (arcname_of_inj _ m.2); auto;
        by apply (proj1 (sort_strs_elem _ _)).
    + subst fl. rewrite sort_strs_perm. by apply files_of_NoDup.
  - intros rel Hin. subst fl. apply (proj1 (sort_strs_elem _ _)) in Hin.
    destruct (lstat_manifest _ _ Hwf Hcl Hin) as (p & st & data & _ & _ & _ & Hl).
    by exists st, data.
  - intros k v rel Hk. simpl in Hk. by rewrite lookup_empty in Hk.
  - right. by exists r1, r2.
  - assert (∃ a, complete a = false
              ∧ build_tarball env (path_join modules_dir m.1) m.2 (name meta) out_dir
                  (version meta) files1
                = (<[archive_path (name meta) out_dir (version meta) := a]> files1,
                   Err (SymlinkOrHardlink (path_join (path_join modules_dir m.1) rel))))
      as (a & Ha & Hbt).
    { unfold build_tarball. rewrite Hfl.
      destruct (add_members _ _ _ _ _ _) as [ms r]. simpl in Herr. subst r.
      by exists (mkArchive 0 (gzip_header_name
                   (archive_path (name meta) out_dir (version meta))) ms false). }
    exists rel, a. split_and!; auto. eapply main_abort; eauto.
Qed.

(** ** [read_module_yaml_scalars] *)

Lemma values_of_cons k line lines :
  values_of k (line :: lines)
  = match parse_line line with
    | Some (k', v) => if str_eqb k' k then v :: values_of k lines else values_of k lines
    | None => values_of k lines
    end.
Proof.
  unfold values_of. simpl. destruct (parse_line line) as [[k' v]|]; [|done].
  by destruct (str_eqb k' k).
Qed.

(** The dictionary [found] holds, for each key, the value of the last line
    that provides it. *)
Lemma foldl_read_line lines : ∀ found k,
  foldl read_line found lines !! k
  = match last (values_of k lines) with
    | Some v => Some v
    | None => found !! k
    end.
Proof.
  induction lines as [|line lines IH]; intros found k; cbn [foldl]; [done|].
  rewrite IH, values_of_cons. unfold read_line.
  destruct (parse_line line) as [[k' v]|]; [|done].
  destruct (str_eqb k' k) eqn:Hk.
  - apply str_eqb_eq in Hk as ->. rewrite last_cons.
    destruct (last (values_of k lines)); [done|]. by rewrite lookup_insert_eq.
  - apply str_eqb_neq in Hk. destruct (last (values_of k lines)); [done|].
    by rewrite lookup_insert_ne.
Qed.

Lemma scan_lines_lookup lines k :
  scan_lines lines !! k = last (values_of k lines).
Proof.
  unfold scan_lines. rewrite foldl_read_line, lookup_empty.
  by destruct (last (values_of k lines)).
Qed.






(** ** [sha256_file] *)

Lemma CHUNK_pos : (0 < CHUNK)%nat.
Proof. unfold CHUNK. lia. Qed.

(** Enough fuel: the loop ends, and the hash object has been fed the
    whole content, chunk after chunk. *)
Lemma read_loop_whole fuel : ∀ h f,
  (length f < fuel)%nat → read_loop fuel h f = Some (HashObject (fed h ++ f)).
Proof.
  induction fuel as [|fuel IH]; intros h f Hlen; [lia|].
  cbn [read_loop file_read]. destruct (take CHUNK f) as [|b chunk] eqn:Hc.
  - assert (f = []) as ->.
    { apply (f_equal length) in Hc. rewrite length_take in Hc.
      pose proof CHUNK_pos. destruct f as [|x f]; [done|]. cbn [length] in Hc. lia. }
    destruct h. by rewrite app_nil_r.
  - rewrite IH.
    + cbn [hash_update fed]. by rewrite <- Hc, <- app_assoc, take_drop.
    + rewrite length_drop. pose proof CHUNK_pos.
      destruct f as [|x f]; [done|]. cbn [length] in *. lia.
Qed.

Lemma sha256_file_whole archive_bytes files path a :
  files !! path = Some a →
  sha256_file archive_bytes files path = Ok (SHA256.hexdigest (archive_bytes a)).
Proof.
  intros H. unfold sha256_file. rewrite H.
  rewrite read_loop_whole by lia. done.
Qed.

(** ** Dictionaries *)

Lemma dict_get_set_eq k v d : dict_get k (dict_set k v d) = Some v.
Proof.
  induction d as [|[k' v'] d IH]; simpl.
  - by rewrite (proj2 (str_eqb_eq k k)).
  - destruct (str_eqb k' k) eqn:Hk; simpl; by rewrite Hk.
Qed.

Lemma dict_get_set_ne k k' v d : k ≠ k' → dict_get k' (dict_set k v d) = dict_get k' d.
Proof.
  intros Hne. induction d as [|[k0 v0] d IH]; simpl.
  - by rewrite (proj2 (str_eqb_neq k k')).
  - destruct (str_eqb k0 k) eqn:Hk; simpl.
    + apply str_eqb_eq in Hk as ->. by rewrite (proj2 (str_eqb_neq k k')).
    + destruct (str_eqb k0 k'); [done|apply IH].
Qed.

Lemma dict_set_keys k v d :
  (dict_set k v d).*1 = if bool_decide (k ∈ d.*1) then d.*1 else d.*1 ++ [k].
Proof.
  induction d as [|[k' v'] d IH]; csimpl; [done|].
  destruct (str_eqb k' k) eqn:Hk; csimpl.
  - apply str_eqb_eq in Hk as ->. rewrite bool_decide_eq_true_2; [done|left].
  - apply str_eqb_neq in Hk. rewrite IH. case_bool_decide as Hin.
    + rewrite bool_decide_eq_true_2; [done|by right].
    + rewrite bool_decide_eq_false_2; [done|].
      intros [->|?]%elem_of_cons; done.
Qed.

(** ** [main]: one turn of the loop *)

Lemma loop_body_Ok archive_bytes env args ts modules_dir out_dir v1_modules
    m files entries files' entries' :
  loop_body archive_bytes env args ts modules_dir out_dir v1_modules m files entries
  = (files', Ok entries') →
  ∃ meta,
    read_module_yaml_scalars (path_join (path_join modules_dir m.1) MODULE_YAML)
                             (descriptor_of m.2) = Ok meta
    ∧ ((selected args (name meta) = false ∧ files' = files ∧ entries' = entries)
       ∨ (selected args (name meta) = true
          ∧ ∃ merged a manifest,
              let path := archive_path (name meta) out_dir (version meta) in
              legacy_fields v1_modules meta = Ok merged
              ∧ build_tarball env (path_join modules_dir m.1) m.2 (name meta) out_dir
                              (version meta) files = (files', Ok path)
              ∧ files' !! path = Some a
              ∧ complete a = true
              ∧ list_files (path_join modules_dir m.1) m.2 = Ok manifest
              ∧ entries' = dict_set (name meta)
                             (registry_entry args ts meta merged path
                                (SHA256.hexdigest (archive_bytes a))
                                (Z.of_nat (length (archive_bytes a))) manifest)
                             entries)).
Proof.
  unfold loop_body. intros H.
  destruct (read_module_yaml_scalars _ _) as [meta|e]; [|done]. exists meta.
  split; [done|]. destruct (selected args (name meta)); simpl in H.
  2:{ left. by injection H as <- <-. }
  right. split; [done|].
  destruct (legacy_fields v1_modules meta) as [merged|e]; [|done].
  destruct (build_tarball _ _ _ _ _ _ _) as [files2 built] eqn:Hb.
  injection H as <- H. destruct built as [tar_path|e]; [|done]. simpl in H.
  destruct (list_files (path_join modules_dir m.1) m.2) as [manifest|e] eqn:Hfl.
  2:{ unfold build_tarball in Hb. by rewrite Hfl in Hb. }
  destruct (build_tarball_written env (path_join modules_dir m.1) m.2 (name meta) out_dir
              (version meta) files manifest Hfl) as (a & Ha & _ & _ & _ & Hc & _).
  rewrite Hb in Ha, Hc. simpl in Ha, Hc.
  assert (tar_path = archive_path (name meta) out_dir (version meta)) as ->.
  { unfold build_tarball in Hb. rewrite Hfl in Hb.
    destruct (add_members _ _ _ _ _ _) as [ms [|]]; by injection Hb. }
  rewrite (sha256_file_whole _ _ _ _ Ha) in H. unfold file_size in H. rewrite Ha in H.
  simpl in H. injection H as <-.
  exists merged, a, manifest. split_and!; auto. by apply Hc.
Qed.

(** A turn of the loop that builds a module leaves, under the name of
    the module, an entry whose checksum is [sha256:] followed by the hex
    digest of the bytes of the archive file as it is on disk at that
    moment, and whose size is the length of these bytes.  [sha256_file]
    reads the file in chunks of 1 MiB until an empty read; the loop ends,
    the chunks make up the whole content, and the digest returned is the
    digest of the whole content.  A later turn may still write to the
    same path. *)
Lemma checksum_of_turn archive_bytes env args ts modules_dir out_dir v1_modules
    m files entries files' entries' meta :
  loop_body archive_bytes env args ts modules_dir out_dir v1_modules m files entries
  = (files', Ok entries') →
  read_module_yaml_scalars (path_join (path_join modules_dir m.1) MODULE_YAML)
                           (descriptor_of m.2) = Ok meta →
  selected args (name meta) = true →
  ∃ a entry,
    let path := archive_path (name meta) out_dir (version meta) in
    let content := archive_bytes a in
    files' !! path = Some a
    ∧ dict_get (name meta) entries' = Some entry
    ∧ json_at [py "distribution"; py "checksum"] entry
      = Some (JStr (py "sha256:" ++ SHA256.hexdigest content))
    ∧ json_at [py "distribution"; py "size_bytes"] entry
      = Some (JInt (Z.of_nat (length content)))
    ∧ sha256_file archive_bytes files' path = Ok (SHA256.hexdigest content)
    ∧ read_loop (S (length content)) (HashObject []) content = Some (HashObject content)
    ∧ hash_hexdigest (HashObject content) = SHA256.hexdigest content.
Proof.
  intros (meta' & Hm & Hcase)%loop_body_Ok Hmeta Hsel.
  rewrite Hmeta in Hm. injection Hm as <-.
  destruct Hcase as [(Hs & _)|(_ & merged & a & manifest & Hl & Hb & Ha & Hc & Hfl & ->)];
    [congruence|].
  eexists a, _. cbn zeta. split_and!.
  - done.
  - apply dict_get_set_eq.
  - done.
  - done.
  - by apply sha256_file_whole.
  - by rewrite read_loop_whole by lia.
  - done.
Qed.

(** ** The merge with the legacy registry *)

Lemma py_or_merged info key fallback :
  py_or (default JNull (dict_get key info)) fallback = merged_field info key fallback.
Proof. unfold py_or, merged_field. by destruct (dict_get key info). Qed.

Lemma legacy_fields_Ok v1_modules meta merged :
  legacy_fields v1_modules meta = Ok merged →
  ∃ mods info,
    v1_modules = JDict mods
    ∧ default (JDict []) (dict_get (name meta) mods) = JDict info
    ∧ merged = (merged_field info (py "description") (JStr (responsibility meta)),
                merged_field info (py "author") (JStr (py "unknown")),
                merged_field info (py "tags") (JList [])).
Proof.
  unfold legacy_fields. destruct v1_modules as [| | | | | |mods]; try done.
  simpl. destruct (default (JDict []) (dict_get (name meta) mods))
    as [| | | | | |info] eqn:Hinfo; try done.
  simpl. rewrite !py_or_merged. intros [= <-]. by exists mods, info.
Qed.

(** C7 (amended).  In the entry of a built module, each of description,
    author and keywords is the value the legacy entry of that name holds
    under description, author and tags when that value is there and true
    for Python, and otherwise (no legacy entry, no such field, or a value
    such as the empty string, the empty list or null) the responsibility
    text of the descriptor, the string [unknown] and the empty list;
    description_zh is the same value as description. *)
Theorem legacy_merge archive_bytes env args ts modules_dir out_dir v1_modules
    m files entries files' entries' meta :
  loop_body archive_bytes env args ts modules_dir out_dir v1_modules m files entries
  = (files', Ok entries') →
  read_module_yaml_scalars (path_join (path_join modules_dir m.1) MODULE_YAML)
                           (descriptor_of m.2) = Ok meta →
  selected args (name meta) = true →
  ∃ mods info entry,
    v1_modules = JDict mods
    ∧ default (JDict []) (dict_get (name meta) mods) = JDict info
    ∧ dict_get (name meta) entries' = Some entry
    ∧ json_at [py "metadata"; py "description"] entry
      = Some (merged_field info (py "description") (JStr (responsibility meta)))
    ∧ json_at [py "metadata"; py "description_zh"] entry
      = json_at [py "metadata"; py "description"] entry
    ∧ json_at [py "metadata"; py "author"] entry
      = Some (merged_field info (py "author") (JStr (py "unknown")))
    ∧ json_at [py "metadata"; py "keywords"] entry
      = Some (merged_field info (py "tags") (JList [])).
Proof.
  intros (meta' & Hm & Hcase)%loop_body_Ok Hmeta Hsel.
  rewrite Hmeta in Hm. injection Hm as <-.
  destruct Hcase as [(Hs & _)|(_ & merged & a & manifest & Hl & Hb & Ha & Hc & Hfl & ->)];
    [congruence|].
  apply legacy_fields_Ok in Hl as (mods & info & -> & Hinfo & ->).
  eexists mods, info, _. split_and!; [done|done|apply dict_get_set_eq|done..].
Qed.

(** ** [main]: the entries of a run *)

Lemma build_tarball_Ok_insert env module_dir tree module_name out_dir module_version
    files files' path :
  build_tarball env module_dir tree module_name out_dir module_version files
  = (files', Ok path) →
  ∃ a, files' = <[path := a]> files.
Proof.
  unfold build_tarball. destruct (list_files module_dir tree); [|done].
  destruct (add_members _ _ _ _ _ _) as [ms [|]]; [|done].
  intros [= <- <-]. by eexists.
Qed.

Lemma loop_body_grows archive_bytes env args ts modules_dir out_dir v1_modules
    m files entries files' entries' p :
  loop_body archive_bytes env args ts modules_dir out_dir v1_modules m files entries
  = (files', Ok entries') →
  is_Some (files !! p) → is_Some (files' !! p).
Proof.
  intros (meta & _ & [(_ & -> & _)|(_ & merged & a & manifest & _ & Hb & _)])%loop_body_Ok;
    [done|].
  apply build_tarball_Ok_insert in Hb as [a' ->]. intros Hp.
  destruct (decide (archive_path (name meta) out_dir (version meta) = p)) as [->|Hne].
  - rewrite lookup_insert_eq. eauto.
  - by rewrite lookup_insert_ne.
Qed.

Lemma for_modules_grows archive_bytes env args ts modules_dir out_dir v1_modules mods :
  ∀ files entries files' entries' p,
  for_modules archive_bytes env args ts modules_dir out_dir v1_modules mods files entries
  = (files', Ok entries') →
  is_Some (files !! p) → is_Some (files' !! p).
Proof.
  induction mods as [|m mods IH]; intros files entries files' entries' p; simpl.
  - by intros [= <- _].
  - destruct (loop_body _ _ _ _ _ _ _ m files entries) as [f1 [e1|e]] eqn:Hl; [|done].
    intros H Hp. eapply IH; [done|]. by eapply loop_body_grows.
Qed.

(** What a turn does to the entries depends on the module alone. *)
Lemma loop_body_turn archive_bytes env args ts modules_dir out_dir v1_modules
    m files entries files' entries' :
  loop_body archive_bytes env args ts modules_dir out_dir v1_modules m files entries
  = (files', Ok entries') →
  match turn_meta args modules_dir m with
  | None => files' = files ∧ entries' = entries
  | Some meta =>
      ∃ entry,
        entries' = dict_set (name meta) entry entries
        ∧ is_Some (files' !! archive_path (name meta) out_dir (version meta))
        ∧ loop_body archive_bytes env args ts modules_dir out_dir v1_modules m files []
          = (files', Ok [(name meta, entry)])
  end.
Proof.
  intros (meta & Hm & Hcase)%loop_body_Ok.
  unfold turn_meta. rewrite Hm.
  destruct Hcase as [(Hs & -> & ->)|(Hs & merged & a & manifest & Hl & Hb & Ha & Hc & Hfl & ->)];
    rewrite Hs; [done|].
  eexists. split_and!; [done|eauto|].
  unfold loop_body. rewrite Hm, Hs. cbn [negb]. rewrite Hl, Hb.
  cbn [mbind result_bind]. rewrite (sha256_file_whole _ _ _ _ Ha).
  unfold file_size. rewrite Ha. cbn [mbind result_bind]. rewrite Hfl. done.
Qed.

Lemma built_names_cons args modules_dir m mods :
  built_names args modules_dir (m :: mods)
  = match turn_meta args modules_dir m with
    | Some meta => name meta :: built_names args modules_dir mods
    | None => built_names args modules_dir mods
    end.
Proof. unfold built_names. simpl. by destruct (turn_meta args modules_dir m). Qed.

Lemma built_names_app args modules_dir l1 l2 :
  built_names args modules_dir (l1 ++ l2)
  = built_names args modules_dir l1 ++ built_names args modules_dir l2.
Proof. unfold built_names. by rewrite omap_app, fmap_app. Qed.

Lemma for_modules_keys archive_bytes env args ts modules_dir out_dir v1_modules mods :
  ∀ files entries files' entries',
  for_modules archive_bytes env args ts modules_dir out_dir v1_modules mods files entries
  = (files', Ok entries') →
  entries'.*1 = foldl add_key entries.*1 (built_names args modules_dir mods).
Proof.
  induction mods as [|m mods IH]; intros files entries files' entries'; simpl.
  - by intros [= _ <-].
  - destruct (loop_body _ _ _ _ _ _ _ m files entries) as [f1 [e1|e]] eqn:Hl; [|done].
    intros H%IH. rewrite H, built_names_cons. apply loop_body_turn in Hl.
    destruct (turn_meta args modules_dir m) as [meta|].
    + destruct Hl as (entry & -> & _). simpl. by rewrite dict_set_keys.
    + by destruct Hl as [_ ->].
Qed.

Lemma for_modules_keeps archive_bytes env args ts modules_dir out_dir v1_modules mods k :
  ∀ files entries files' entries',
  for_modules archive_bytes env args ts modules_dir out_dir v1_modules mods files entries
  = (files', Ok entries') →
  k ∉ built_names args modules_dir mods →
  dict_get k entries' = dict_get k entries.
Proof.
  induction mods as [|m mods IH]; intros files entries files' entries'; simpl.
  - by intros [= _ <-].
  - destruct (loop_body _ _ _ _ _ _ _ m files entries) as [f1 [e1|e]] eqn:Hl; [|done].
    intros H Hk. rewrite built_names_cons in Hk. rewrite (IH _ _ _ _ H).
    + apply loop_body_turn in Hl. destruct (turn_meta args modules_dir m) as [meta|].
      * destruct Hl as (entry & -> & _). apply dict_get_set_ne.
        intros Heq. apply Hk. rewrite Heq. left.
      * by destruct Hl as [_ ->].
    + destruct (turn_meta args modules_dir m); [|done].
      intros ?. apply Hk. by right.
Qed.

Lemma for_modules_split archive_bytes env args ts modules_dir out_dir v1_modules
    l1 m l2 files entries files' entries' :
  for_modules archive_bytes env args ts modules_dir out_dir v1_modules
              (l1 ++ m :: l2) files entries = (files', Ok entries') →
  ∃ f1 e1 f2 e2,
    for_modules archive_bytes env args ts modules_dir out_dir v1_modules l1 files entries
    = (f1, Ok e1)
    ∧ loop_body archive_bytes env args ts modules_dir out_dir v1_modules m f1 e1
      = (f2, Ok e2)
    ∧ for_modules archive_bytes env args ts modules_dir out_dir v1_modules l2 f2 e2
      = (files', Ok entries').
Proof.
  rewrite for_modules_app.
  destruct (for_modules _ _ _ _ _ _ _ l1 files entries) as [f1 [e1|e]]; [|done].
  simpl. destruct (loop_body _ _ _ _ _ _ _ m f1 e1) as [f2 [e2|e]] eqn:Hl; [|done].
  intros H. by exists f1, e1, f2, e2.
Qed.

(** ** Insertion order and duplicate names *)

Lemma add_key_NoDup ks k : NoDup ks → NoDup (add_key ks k).
Proof.
  intros H. unfold add_key. case_bool_decide; [done|].
  apply NoDup_app. split_and!; [done| |apply NoDup_singleton].
  intros x Hx ->%list_elem_of_singleton. done.
Qed.

Lemma foldl_add_key_NoDup names : ∀ ks, NoDup ks → NoDup (foldl add_key ks names).
Proof.
  induction names as [|n names IH]; intros ks H; simpl; [done|].
  by apply IH, add_key_NoDup.
Qed.

Lemma foldl_add_key_length names : ∀ ks,
  (length (foldl add_key ks names) ≤ length ks + length names)%nat.
Proof.
  induction names as [|n names IH]; intros ks; simpl; [lia|].
  etrans; [apply IH|]. unfold add_key. case_bool_decide; [lia|].
  rewrite length_app. simpl. lia.
Qed.

Lemma foldl_add_key_dup names : ∀ ks,
  NoDup ks → ¬ NoDup (ks ++ names) →
  (length (foldl add_key ks names) < length ks + length names)%nat.
Proof.
  induction names as [|n names IH]; intros ks Hks Hdup; simpl.
  - by rewrite app_nil_r in Hdup.
  - unfold add_key at 2. case_bool_decide as Hin.
    + pose proof (foldl_add_key_length names ks). lia.
    + pose proof (IH (ks ++ [n])) as H. rewrite length_app in H. simpl in H.
      rewrite <- app_assoc in H. simpl in H.
      assert (NoDup (ks ++ [n])) as Hn by (by apply (add_key_NoDup ks n) in Hks;
        unfold add_key in Hks; rewrite bool_decide_eq_false_2 in Hks).
      specialize (H Hn Hdup). lia.
Qed.

Lemma foldl_add_key_elem names : ∀ ks k,
  k ∈ foldl add_key ks names ↔ k ∈ ks ∨ k ∈ names.
Proof.
  induction names as [|n names IH]; intros ks k; simpl.
  - rewrite elem_of_nil. tauto.
  - rewrite IH, elem_of_cons. unfold add_key. case_bool_decide as Hin.
    + split; [tauto|]. intros [?|[->|?]]; auto.
    + rewrite elem_of_app, list_elem_of_singleton. tauto.
Qed.

Global Instance name_le_dec a b : Decision (name_le a b).
Proof. unfold name_le. apply _. Defined.
Global Instance name_le_total : Total name_le.
Proof. intros a b. apply str_leb_total. Qed.
Global Instance name_le_trans : Transitive name_le.
Proof. intros a b c. apply str_leb_trans. Qed.

Lemma discover_sorted modules_tree : StronglySorted name_le (discover modules_tree).
Proof. apply (StronglySorted_merge_sort name_le). Qed.

Lemma discover_order modules_tree l1 m1 l2 m2 l3 :
  discover modules_tree = l1 ++ m1 :: l2 ++ m2 :: l3 → str_le m1.1 m2.1.
Proof.
  intros H. pose proof (discover_sorted modules_tree) as Hs. rewrite H in Hs.
  apply StronglySorted_app in Hs as (_ & _ & Hs).
  apply StronglySorted_cons in Hs as [Hall _].
  rewrite Forall_forall in Hall. apply Hall.
  apply elem_of_app. right. left.
Qed.

Lemma main_Ok archive_bytes env args now modules_dir out_dir modules_tree v1 w w' :
  main archive_bytes env args now modules_dir out_dir modules_tree v1 w = (w', Ok tt) →
  ∃ v1_modules categories files entries,
    json_get v1 (py "modules") (JDict []) = Ok v1_modules
    ∧ for_modules archive_bytes env args (build_timestamp args now) modules_dir out_dir
                  v1_modules (discover modules_tree) (out_files w) []
      = (files, Ok entries)
    ∧ w' = mkWorld files
             (Some (registry (build_timestamp args now) categories entries)).
Proof.
  unfold main. destruct (json_get v1 (py "modules") (JDict [])) as [v1_modules|]; [|done].
  destruct (for_modules _ _ _ _ _ _ _ _ _ _) as [files [entries|]] eqn:Hf; [|done].
  destruct (json_get v1 (py "categories") (JDict [])) as [categories|]; [|done].
  intros [= <-]. by exists v1_modules, categories, files, entries.
Qed.

(** C10.  When a run succeeds and two module directories, built in this
    order, declare the same name, the run has built an archive for each of
    them; the entry under that name in the index is the one the turn of the
    later directory (later in the sorted order of the directory names)
    assembled, provided no directory after it declares the name again; the
    featured list holds every name once, [total_modules] is its length,
    and this is less than the number of archives built. *)
Theorem duplicate_names archive_bytes env args now modules_dir out_dir modules_tree
    v1 w w' l1 m1 l2 m2 l3 meta1 meta2 :
  main archive_bytes env args now modules_dir out_dir modules_tree v1 w = (w', Ok tt) →
  discover modules_tree = l1 ++ m1 :: l2 ++ m2 :: l3 →
  turn_meta args modules_dir m1 = Some meta1 →
  turn_meta args modules_dir m2 = Some meta2 →
  name meta1 = name meta2 →
  name meta2 ∉ built_names args modules_dir l3 →
  ∃ index entries entry v1_modules files_before files_after,
    str_le m1.1 m2.1
    ∧ registry_out w' = Some index
    ∧ json_at [py "modules"] index = Some (JDict entries)
    ∧ json_at [py "featured"] index = Some (JList (JStr <$> entries.*1))
    ∧ json_at [py "stats"; py "total_modules"] index
      = Some (JInt (Z.of_nat (length entries)))
    ∧ is_Some (out_files w' !! archive_path (name meta1) out_dir (version meta1))
    ∧ is_Some (out_files w' !! archive_path (name meta2) out_dir (version meta2))
    ∧ dict_get (name meta2) entries = Some entry
    ∧ loop_body archive_bytes env args (build_timestamp args now) modules_dir out_dir
                v1_modules m2 files_before [] = (files_after, Ok [(name meta2, entry)])
    ∧ NoDup entries.*1
    ∧ (length entries < length (built_names args modules_dir (discover modules_tree)))%nat.
Proof.
  intros (v1_modules & categories & files & entries & Hv & Hrun & ->)%main_Ok
         Hd Ht1 Ht2 Hname Hlast.
  pose proof (for_modules_keys _ _ _ _ _ _ _ _ _ _ _ _ Hrun) as Hkeys. simpl in Hkeys.
  rewrite Hd in Hrun.
  apply for_modules_split in Hrun as (f1 & e1 & f2 & e2 & Hl1 & Hb1 & Hrest).
  apply for_modules_split in Hrest as (f3 & e3 & f4 & e4 & Hl2 & Hb2 & Hl3).
  pose proof (loop_body_turn _ _ _ _ _ _ _ _ _ _ _ _ Hb1) as Hturn1.
  pose proof (loop_body_turn _ _ _ _ _ _ _ _ _ _ _ _ Hb2) as Hturn2.
  rewrite Ht1 in Hturn1. rewrite Ht2 in Hturn2.
  destruct Hturn1 as (entry1 & -> & Hfile1 & _).
  destruct Hturn2 as (entry2 & -> & Hfile2 & Hbody2).
  exists (registry (build_timestamp args now) categories entries), entries, entry2,
         v1_modules, f3, f4.
  split_and!; try done.
  - by eapply discover_order.
  - simpl. eapply for_modules_grows; [done|]. eapply loop_body_grows; [done|].
    by eapply for_modules_grows.
  - simpl. by eapply for_modules_grows.
  - rewrite (for_modules_keeps _ _ _ _ _ _ _ _ _ _ _ _ _ Hl3 Hlast).
    apply dict_get_set_eq.
  - rewrite Hkeys. apply foldl_add_key_NoDup, NoDup_nil_2.
  - rewrite <- (length_fmap fst entries), Hkeys.
    apply (foldl_add_key_dup _ []); [apply NoDup_nil_2|]. simpl.
    rewrite Hd, built_names_app, built_names_cons, Ht1, built_names_app,
      built_names_cons, Ht2.
    intros Hnd. apply NoDup_app in Hnd as (_ & _ & Hnd).
    apply NoDup_cons in Hnd as [Hnotin _]. apply Hnotin.
    rewrite Hname. apply elem_of_app. right. left.
Qed.

(** * The results on sample inputs *)

Import Sample.



Example list_files_demo :
  list_files (py "modules/demo") demo_dir
  = Ok [py "a.txt"; py "module.yaml"; py "src/b.py"].
Proof. vm_compute. reflexivity. Qed.

Lemma demo_dir_similar : similar build_equiv demo_dir demo_dir'.
Proof.
  unfold demo_dir, demo_dir'.
  eapply (similar_dir _ _ _ _
            [ (py "a.txt", File (st 15) (bytes_of "hi"));
              (py ".DS_Store", File (st 14) (bytes_of "junk"));
              (py "module.yaml", File (st 13) yaml_demo);
              (py "src", Dir (st 11) [(py "b.py", File (st 12) (bytes_of "print(1)"))]) ]).
  - apply (reverse_Permutation
      [ (py "a.txt", File (st 15) (bytes_of "hi"));
        (py ".DS_Store", File (st 14) (bytes_of "junk"));
        (py "module.yaml", File (st 13) yaml_demo);
        (py "src", Dir (st 11) [(py "b.py", File (st 12) (bytes_of "print(1)"))]) ]).
  - repeat first
      [ apply similar_nil
      | apply similar_cons
      | apply similar_file; by repeat split
      | eapply similar_dir; [reflexivity|] ].
Qed.

Lemma build_tarball_reproducible_witness :
  let built := build_tarball env (py "modules/demo") demo_dir (py "demo")
                 (py "out") (py "1.0.0") ∅ in
  let built' := build_tarball env' (py "modules/demo") demo_dir' (py "demo")
                  (py "out") (py "1.0.0") ∅ in
  let path := archive_path (py "demo") (py "out") (py "1.0.0") in
  built' = built
  ∧ sha256_file plain_bytes built'.1 path = sha256_file plain_bytes built.1 path
  ∧ Sorted str_le [py "a.txt"; py "module.yaml"; py "src/b.py"]
  ∧ ∃ a, built.1 !! path = Some a
      ∧ gz_mtime a = 0%Z
      ∧ Forall normalised (members a)
      ∧ (built.2 = Ok path →
         ti_name <$> (members a).*1
         = arcname_of (py "demo") <$> [py "a.txt"; py "module.yaml"; py "src/b.py"]).
Proof.
  apply (build_tarball_reproducible plain_bytes env env' (py "modules/demo")
           demo_dir demo_dir').
  - vm_compute; reflexivity.
  - apply demo_dir_similar.
  - vm_compute; reflexivity.
Defined.

(** C1 as stated fails: [demo_dir] and [demo_exec] hold the same paths
    with the same contents, and their archives differ, in the mode of the
    first member. *)
Lemma mode_reaches_archive :
  similar (λ _ _, True) demo_dir demo_exec
  ∧ ((λ a, ti_mode <$> (members a).*1)
       <$> (build_tarball env (py "modules/demo") demo_dir (py "demo")
              (py "out") (py "1.0.0") ∅).1 !! py "out/demo-1.0.0.tar.gz")
    = Some [33188; 33188; 33188]%Z
  ∧ ((λ a, ti_mode <$> (members a).*1)
       <$> (build_tarball env (py "modules/demo") demo_exec (py "demo")
              (py "out") (py "1.0.0") ∅).1 !! py "out/demo-1.0.0.tar.gz")
    = Some [33261; 33188; 33188]%Z
  ∧ (build_tarball env (py "modules/demo") demo_dir (py "demo")
       (py "out") (py "1.0.0") ∅).1
    ≠ (build_tarball env (py "modules/demo") demo_exec (py "demo")
         (py "out") (py "1.0.0") ∅).1.
Proof.
  split_and!.
  - unfold demo_dir, demo_exec. eapply similar_dir; [reflexivity|].
    repeat first
      [ apply similar_nil
      | apply similar_cons
      | by apply similar_file
      | eapply similar_dir; [reflexivity|] ].
  - vm_compute; reflexivity.
  - vm_compute; reflexivity.
  - intros H. apply (f_equal (λ files : gmap str archive,
      (λ a, ti_mode <$> (members a).*1) <$> files !! py "out/demo-1.0.0.tar.gz")) in H.
    vm_compute in H. discriminate H.
Defined.

Lemma build_tarball_single_root_witness :
  valid_name (py "demo") = true
  ∧ ∃ a fl,
      (build_tarball env (py "modules/demo") demo_dir (py "demo") (py "out")
         (py "1.0.0") ∅).1 !! py "out/demo-1.0.0.tar.gz" = Some a
      ∧ complete a = true
      ∧ list_files (py "modules/demo") demo_dir = Ok fl
      ∧ ti_name <$> (members a).*1 = (λ rel, py "demo" ++ [SLASH] ++ rel) <$> fl
      ∧ Forall (λ m, top_component (ti_name m.1) = py "demo"
                     ∧ ti_type m.1 = REGTYPE) (members a)
      ∧ (∀ st data, descriptor_of demo_dir ≫= resolve = Some (File st data) →
           py "demo" ++ [SLASH] ++ MODULE_YAML ∈ ti_name <$> (members a).*1).
Proof.
  split; [vm_compute; reflexivity|].
  apply (build_tarball_single_root env (py "modules/demo") demo_dir (py "demo")
           (py "out") (py "1.0.0") ∅).
  - vm_compute; reflexivity.
  - vm_compute; reflexivity.
Defined.

(** C4.  The code breaks the layout its own documentation states
    ([<module-name>/...], a single root directory, no extra top-level
    entries): the name is taken from the descriptor without validation,
    the descriptor of [noname_dir] declares the empty name as [name: ''],
    the run succeeds, and the members of its archive are [a.txt] and
    [module.yaml], two top-level entries under no directory. *)
Lemma empty_name_no_root :
  name <$> turn_meta args (py "modules") (py "theta", noname_dir) = Some []
  ∧ (run no_legacy [(py "theta", noname_dir)]).2 = Ok tt
  ∧ ((λ a, ti_name <$> (members a).*1)
       <$> out_files (run no_legacy [(py "theta", noname_dir)]).1
             !! py "out/-1.0.0.tar.gz")
    = Some [py "a.txt"; py "module.yaml"].
Proof. split_and!; vm_compute; reflexivity. Defined.

Lemma refused_link_aborts_witness :
  let files1 := (turns [(py "alpha", demo_dir)]).1 in
  is_Some (files1 !! py "out/demo-1.0.0.tar.gz")
  ∧ ∃ e comps,
      refused_link other_dir comps
      ∧ symlink_rejected e = Some (path_join (py "modules/beta") (as_posix comps))
      ∧ list_files (py "modules/beta") other_dir = Err e
      ∧ build_tarball env (py "modules/beta") other_dir (py "other") (py "out")
                      (py "0.3.0") files1 = (files1, Err e)
      ∧ run no_legacy [(py "alpha", demo_dir); (py "beta", other_dir)]
        = (mkWorld files1 None, Err e).
Proof.
  split; [vm_compute; eauto|].
  apply (refused_link_aborts plain_bytes env args now (py "modules") (py "out")
           (modules_of [(py "alpha", demo_dir); (py "beta", other_dir)])
           no_legacy empty_world (JDict [])
           [(py "alpha", demo_dir)] (py "beta", other_dir) []
           (turns [(py "alpha", demo_dir)]).1
           (ok_or [] (turns [(py "alpha", demo_dir)]).2)
           (mkModuleMeta (py "other") (py "0.3.0") (py "decision") (py "decides"))).
  - reflexivity.
  - vm_compute; reflexivity.
  - split_and!.
    + vm_compute; reflexivity.
    + vm_compute; reflexivity.
    + vm_compute; reflexivity.
    + eexists. vm_compute; reflexivity.
  - apply not_clean_refused. vm_compute; reflexivity.
Defined.

(** C2 as stated fails.  [store_dir] holds a symbolic link, called
    [.DS_Store]: its files are listed, the run succeeds, and the archive and
    the index are written.  And in a run over a module without links and
    then [other_dir], which holds a refused link, the run ends with the
    exception of the link while the archive of the first module is on
    disk. *)
Lemma link_not_always_fatal :
  link_under store_dir [DS_Store]
  ∧ list_files (py "modules/gamma") store_dir = Ok [py "module.yaml"]
  ∧ (run no_legacy [(py "gamma", store_dir)]).2 = Ok tt
  ∧ is_Some (out_files (run no_legacy [(py "gamma", store_dir)]).1
               !! py "out/other-0.3.0.tar.gz")
  ∧ is_Some (registry_out (run no_legacy [(py "gamma", store_dir)]).1)
  ∧ link_under other_dir [py "notes"]
  ∧ (run no_legacy [(py "alpha", demo_dir); (py "beta", other_dir)]).2
    = Err (SymlinkedFile (py "modules/beta/notes"))
  ∧ is_Some (out_files (run no_legacy [(py "alpha", demo_dir); (py "beta", other_dir)]).1
               !! py "out/demo-1.0.0.tar.gz").
Proof.
  split_and!.
  - do 3 eexists. split; [done|]. eapply reaches_step; [|constructor].
    do 1 apply list_elem_of_further. apply list_elem_of_here.
  - vm_compute; reflexivity.
  - vm_compute; reflexivity.
  - vm_compute. eauto.
  - vm_compute. eauto.
  - do 3 eexists. split; [done|]. eapply reaches_step; [|constructor].
    do 1 apply list_elem_of_further. apply list_elem_of_here.
  - vm_compute; reflexivity.
  - vm_compute. eauto.
Defined.

Lemma linked_dir_pair :
  linked_pair linked_dir [py "a.txt"; py "b.txt"; py "module.yaml"] (py "a.txt") (py "b.txt").
Proof.
  exists (st_linked 42), (bytes_of "same"), (st_linked 42), (bytes_of "same").
  split_and!; try (vm_compute; reflexivity); try done.
  - left.
  - right. left.
Qed.

Lemma hard_link_aborts_witness :
  ∃ rel a,
    rel ∈ [py "a.txt"; py "b.txt"; py "module.yaml"] ∧ complete a = false
    ∧ build_tarball env (py "modules/delta") linked_dir (py "other") (py "out")
                    (py "0.3.0") ∅
      = (<[py "out/other-0.3.0.tar.gz" := a]> ∅,
         Err (SymlinkOrHardlink (path_join (py "modules/delta") rel)))
    ∧ run no_legacy [(py "delta", linked_dir)]
      = (mkWorld (<[py "out/other-0.3.0.tar.gz" := a]> ∅) None,
         Err (SymlinkOrHardlink (path_join (py "modules/delta") rel))).
Proof.
  apply (hard_link_aborts plain_bytes env args now (py "modules") (py "out")
           (modules_of [(py "delta", linked_dir)]) no_legacy empty_world (JDict [])
           [] (py "delta", linked_dir) [] ∅ []
           (mkModuleMeta (py "other") (py "0.3.0") (py "decision") (py "decides"))
           [py "a.txt"; py "b.txt"; py "module.yaml"] (py "a.txt") (py "b.txt")).
  - reflexivity.
  - vm_compute; reflexivity.
  - split_and!.
    + vm_compute; reflexivity.
    + vm_compute; reflexivity.
    + vm_compute; reflexivity.
    + eexists. vm_compute; reflexivity.
  - vm_compute; reflexivity.
  - vm_compute; reflexivity.
  - apply linked_dir_pair.
Defined.

(** C3 as stated fails.  In [shared_dir] the file [a.txt] has a link
    count of two, its other name being outside of the module; in
    [shadow_dir] the two names of one inode are [a.txt] and [.DS_Store].
    Both modules are built and the run succeeds. *)
Lemma hard_link_not_always_fatal :
  lstat shared_dir (py "a.txt") = Some (File (st_linked 52) (bytes_of "same"))
  ∧ st_nlink (st_linked 52) = 2%Z
  ∧ (run no_legacy [(py "eps", shared_dir)]).2 = Ok tt
  ∧ ((λ a, ti_name <$> (members a).*1)
       <$> out_files (run no_legacy [(py "eps", shared_dir)]).1
             !! py "out/other-0.3.0.tar.gz")
    = Some [py "other/a.txt"; py "other/module.yaml"]
  ∧ lstat shadow_dir (py "a.txt") = Some (File (st_linked 62) (bytes_of "same"))
  ∧ lstat shadow_dir (py ".DS_Store") = Some (File (st_linked 62) (bytes_of "same"))
  ∧ (run no_legacy [(py "zeta", shadow_dir)]).2 = Ok tt
  ∧ ((λ a, ti_name <$> (members a).*1)
       <$> out_files (run no_legacy [(py "zeta", shadow_dir)]).1
             !! py "out/other-0.3.0.tar.gz")
    = Some [py "other/a.txt"; py "other/module.yaml"].
Proof. split_and!; vm_compute; reflexivity. Defined.

Lemma checksum_of_turn_demo :
  let turn := loop_body plain_bytes env args now (py "modules") (py "out") (JDict [])
                        (py "alpha", demo_dir) ∅ [] in
  ∃ a entry,
    let path := archive_path (py "demo") (py "out") (py "1.0.0") in
    let content := plain_bytes a in
    turn.1 !! path = Some a
    ∧ dict_get (py "demo") (ok_or [] turn.2) = Some entry
    ∧ json_at [py "distribution"; py "checksum"] entry
      = Some (JStr (py "sha256:" ++ SHA256.hexdigest content))
    ∧ json_at [py "distribution"; py "size_bytes"] entry
      = Some (JInt (Z.of_nat (length content)))
    ∧ sha256_file plain_bytes turn.1 path = Ok (SHA256.hexdigest content)
    ∧ read_loop (S (length content)) (HashObject []) content = Some (HashObject content)
    ∧ hash_hexdigest (HashObject content) = SHA256.hexdigest content.
Proof.
  intros turn.
  apply (checksum_of_turn plain_bytes env args now (py "modules") (py "out")
           (JDict []) (py "alpha", demo_dir) ∅ [] turn.1 (ok_or [] turn.2)
           (mkModuleMeta (py "demo") (py "1.0.0") (py "exec") (py "does things"))).
  - vm_compute; reflexivity.
  - vm_compute; reflexivity.
  - vm_compute; reflexivity.
Defined.

Example sha256_abc :
  SHA256.hexdigest (bytes_of "abc")
  = py "ba7816bf8f01cfea414140de5dae2223b00361a396177a9cb410ff61f20015ad".
Proof. vm_compute. reflexivity. Qed.

Lemma legacy_merge_witness :
  let v1_modules := JDict [(py "demo", JDict [(py "description", JStr []);
                                              (py "author", JStr (py "Ann"))])] in
  let turn := loop_body plain_bytes env args now (py "modules") (py "out") v1_modules
                        (py "alpha", demo_dir) ∅ [] in
  ∃ mods info entry,
    v1_modules = JDict mods
    ∧ default (JDict []) (dict_get (py "demo") mods) = JDict info
    ∧ dict_get (py "demo") (ok_or [] turn.2) = Some entry
    ∧ json_at [py "metadata"; py "description"] entry
      = Some (merged_field info (py "description") (JStr (py "does things")))
    ∧ json_at [py "metadata"; py "description_zh"] entry
      = json_at [py "metadata"; py "description"] entry
    ∧ json_at [py "metadata"; py "author"] entry
      = Some (merged_field info (py "author") (JStr (py "unknown")))
    ∧ json_at [py "metadata"; py "keywords"] entry
      = Some (merged_field info (py "tags") (JList [])).
Proof.
  intros v1_modules turn.
  apply (legacy_merge plain_bytes env args now (py "modules") (py "out") v1_modules
           (py "alpha", demo_dir) ∅ [] turn.1 (ok_or [] turn.2)
           (mkModuleMeta (py "demo") (py "1.0.0") (py "exec") (py "does things"))).
  - vm_compute; reflexivity.
  - vm_compute; reflexivity.
  - vm_compute; reflexivity.
Defined.

(** C7 as stated fails.  The legacy registry has an entry for [demo],
    with the empty string as description, an author and no tags: the
    description of the produced entry is the responsibility text of the
    descriptor and not the description of the legacy entry, and the
    keywords are the empty list though the legacy entry has no tags to
    take them from; the author is taken over. *)
Lemma legacy_entry_not_always_used :
  json_at [py "modules"; py "demo"; py "description"] legacy = Some (JStr [])
  ∧ json_at [py "modules"; py "demo"; py "tags"] legacy = None
  ∧ (run legacy [(py "alpha", demo_dir)]).2 = Ok tt
  ∧ (registry_out (run legacy [(py "alpha", demo_dir)]).1
       ≫= json_at [py "modules"; py "demo"; py "metadata"; py "description"])
    = Some (JStr (py "does things"))
  ∧ (registry_out (run legacy [(py "alpha", demo_dir)]).1
       ≫= json_at [py "modules"; py "demo"; py "metadata"; py "keywords"])
    = Some (JList [])
  ∧ (registry_out (run legacy [(py "alpha", demo_dir)]).1
       ≫= json_at [py "modules"; py "demo"; py "metadata"; py "author"])
    = Some (JStr (py "Ann")).
Proof. split_and!; vm_compute; reflexivity. Defined.


(** C9 on the code.  The descriptor [yaml_nested] has the four keys at
    top level and, below [maintainer:], an indented line [name: inner].
    The reader strips the indentation before it matches the line, takes
    the nested line for a top-level one, and returns [inner] as the name of
    the module. *)
Example nested_name_wins :
  read_module_yaml_scalars (py "modules/nested/module.yaml")
    (Some (File (st 1) yaml_nested))
  = Ok (mkModuleMeta (py "inner") (py "1.0.0") (py "exec") (py "owns the outer name"))
  ∧ last (splitlines (universal_newlines (py "maintainer:
  name: inner
"))) = Some (py "  name: inner")
  ∧ parse_line (py "  name: inner") = Some (py "name", py "inner")
  ∧ parse_line (py "- name: inner") = None
  ∧ parse_line (py "maintainer:") = None.
Proof. split_and!; vm_compute; reflexivity. Qed.

Lemma duplicate_names_witness :
  let dirs := [(py "p1", dup1_dir); (py "p2", dup2_dir)] in
  let w' := (run no_legacy dirs).1 in
  ∃ index entries entry v1_modules files_before files_after,
    str_le (py "p1") (py "p2")
    ∧ registry_out w' = Some index
    ∧ json_at [py "modules"] index = Some (JDict entries)
    ∧ json_at [py "featured"] index = Some (JList (JStr <$> entries.*1))
    ∧ json_at [py "stats"; py "total_modules"] index
      = Some (JInt (Z.of_nat (length entries)))
    ∧ is_Some (out_files w' !! archive_path (py "dup") (py "out") (py "1.0.0"))
    ∧ is_Some (out_files w' !! archive_path (py "dup") (py "out") (py "2.0.0"))
    ∧ dict_get (py "dup") entries = Some entry
    ∧ loop_body plain_bytes env args (build_timestamp args now) (py "modules") (py "out")
                v1_modules (py "p2", dup2_dir) files_before []
      = (files_after, Ok [(py "dup", entry)])
    ∧ NoDup entries.*1
    ∧ (length entries
       < length (built_names args (py "modules") (discover (modules_of dirs))))%nat.
Proof.
  intros dirs w'.
  apply (duplicate_names plain_bytes env args now (py "modules") (py "out")
           (modules_of dirs) no_legacy empty_world w'
           [] (py "p1", dup1_dir) [] (py "p2", dup2_dir) []
           (mkModuleMeta (py "dup") (py "1.0.0") (py "exec") (py "first"))
           (mkModuleMeta (py "dup") (py "2.0.0") (py "exec") (py "second"))).
  - vm_compute; reflexivity.
  - vm_compute; reflexivity.
  - vm_compute; reflexivity.
  - vm_compute; reflexivity.
  - reflexivity.
  - intros ?%elem_of_nil. done.
Defined.

Example duplicate_names_count :
  (registry_out (run no_legacy [(py "p1", dup1_dir); (py "p2", dup2_dir)]).1
     ≫= json_at [py "stats"; py "total_modules"]) = Some (JInt 1)
  ∧ (registry_out (run no_legacy [(py "p1", dup1_dir); (py "p2", dup2_dir)]).1
       ≫= json_at [py "modules"; py "dup"; py "identity"; py "version"])
    = Some (JStr (py "2.0.0"))
  ∧ size (out_files (run no_legacy [(py "p1", dup1_dir); (py "p2", dup2_dir)]).1) = 2%nat.
Proof. split_and!; vm_compute; reflexivity. Qed.

(** * Further properties *)

(** ** The lines of a descriptor *)

Lemma lstrip_spaces ws s : forallb is_space ws = true → lstrip (ws ++ s) = lstrip s.
Proof.
  induction ws as [|c ws IH]; simpl; [done|].
  intros [Hc Hws]%andb_prop. rewrite Hc. by apply IH.
Qed.

Lemma lstrip_fixed_app a b : a ≠ [] → lstrip a = a → lstrip (a ++ b) = a ++ b.
Proof.
  destruct a as [|c a]; [done|]. intros _. simpl.
  destruct (is_space c) eqn:Hc; [|done].
  intros H. apply (f_equal length) in H. simpl in H.
  assert (∀ s, (length (lstrip s) ≤ length s)%nat) as Hlen.
  { clear. induction s as [|x s IH]; simpl; [done|]. destruct (is_space x); simpl; lia. }
  pose proof (Hlen a). lia.
Qed.

Lemma lstrip_snoc a c : is_space c = false → lstrip (a ++ [c]) = lstrip a ++ [c].
Proof.
  intros Hc. induction a as [|x a IH]; simpl; [by rewrite Hc|].
  destruct (is_space x); [apply IH|done].
Qed.

Lemma rstrip_cons c s : is_space c = false → rstrip (c :: s) = c :: rstrip s.
Proof.
  intros Hc. unfold rstrip. simpl. rewrite lstrip_snoc by done.
  by rewrite rev_app_distr.
Qed.

Lemma rstrip_spaces s ws : forallb is_space ws = true → rstrip (s ++ ws) = rstrip s.
Proof.
  intros Hws. unfold rstrip. rewrite rev_app_distr, lstrip_spaces; [done|].
  rewrite forallb_forall in *. intros x Hx. apply Hws. by apply in_rev.
Qed.

Lemma rstrip_fixed_app a b : b ≠ [] → rstrip b = b → rstrip (a ++ b) = a ++ b.
Proof.
  intros Hne Hb. unfold rstrip in *. rewrite rev_app_distr.
  apply (f_equal (@rev _)) in Hb. rewrite rev_involutive in Hb.
  rewrite lstrip_fixed_app, <- rev_app_distr, rev_involutive; [done| |done].
  intros Hr. apply Hne. apply (f_equal (@rev _)) in Hr. by rewrite rev_involutive in Hr.
Qed.

Lemma key_char_not_space c : is_key_char c = true → is_space c = false.
Proof.
  unfold is_key_char, is_space. intros H. apply not_true_iff_false. intros H'.
  repeat first [ rewrite orb_true_iff in H | rewrite andb_true_iff in H
               | rewrite N.leb_le in H | rewrite N.eqb_eq in H ].
  repeat first [ rewrite orb_true_iff in H' | rewrite andb_true_iff in H'
               | rewrite N.leb_le in H' | rewrite N.eqb_eq in H' ].
  lia.
Qed.

Lemma take_key_app k rest :
  forallb is_key_char k = true → take_key (k ++ COLON :: rest) = k.
Proof.
  induction k as [|c k IH]; simpl; [done|].
  intros [Hc Hk]%andb_prop. rewrite Hc. by rewrite IH.
Qed.

Lemma drop_key_app k rest :
  forallb is_key_char k = true → drop_key (k ++ COLON :: rest) = COLON :: rest.
Proof.
  induction k as [|c k IH]; simpl; [done|].
  intros [Hc Hk]%andb_prop. rewrite Hc. by apply IH.
Qed.

Lemma regex_match_key_value k ws v :
  k ≠ [] → forallb is_key_char k = true →
  forallb is_space ws = true →
  v ≠ [] → lstrip v = v → rstrip v = v → LF ∉ v →
  regex_match (k ++ COLON :: ws ++ v) = Some (k, v).
Proof.
  intros Hk Hkey Hws Hv Hl Hr Hlf. unfold regex_match.
  rewrite take_key_app, drop_key_app by done.
  destruct k as [|c k]; [done|]. cbn [N.eqb COLON Pos.eqb].
  unfold regex_group2. rewrite lstrip_spaces, Hl by done.
  destruct v as [|x v]; [done|]. rewrite Hr.
  destruct (existsb (λ c0, c0 =? LF) (x :: v)) eqn:Hex; [|done].
  apply existsb_exists in Hex as (y & Hy & ->%N.eqb_eq).
  destruct Hlf. by apply list_elem_of_In.
Qed.

Lemma strip_key_value_line k v ws1 ws2 ws3 :
  forallb is_key_char k = true →
  forallb is_space ws1 = true → forallb is_space ws3 = true →
  v ≠ [] → rstrip v = v →
  strip (ws1 ++ k ++ COLON :: ws2 ++ v ++ ws3) = k ++ COLON :: ws2 ++ v.
Proof.
  intros Hkey H1 H3 Hv Hr. unfold strip. rewrite lstrip_spaces by done.
  assert (lstrip (k ++ COLON :: ws2 ++ v ++ ws3) = k ++ COLON :: ws2 ++ v ++ ws3) as ->.
  { destruct k as [|c k]; [done|]. simpl in Hkey. apply andb_prop in Hkey as [Hc Hkey].
    cbn [app lstrip]. by rewrite (key_char_not_space _ Hc). }
  assert (k ++ COLON :: ws2 ++ v ++ ws3 = ((k ++ COLON :: ws2) ++ v) ++ ws3) as ->
    by (by rewrite <- !app_assoc).
  rewrite rstrip_spaces by done. rewrite rstrip_fixed_app by done.
  by rewrite <- app_assoc.
Qed.

Lemma parse_stripped raw k ws v :
  strip raw = k ++ COLON :: ws ++ v →
  k ≠ [] → forallb is_key_char k = true → forallb is_space ws = true →
  v ≠ [] → lstrip v = v → rstrip v = v → LF ∉ v →
  parse_line raw = if bool_decide (k ∈ wanted) then Some (k, unquote v) else None.
Proof.
  intros Hraw Hk Hkey Hws Hv Hl Hr Hlf. unfold parse_line. cbn zeta. rewrite Hraw.
  rewrite bool_decide_eq_false_2 by (by destruct k).
  unfold startswith. rewrite bool_decide_eq_false_2.
  2:{ destruct k as [|c k']; [done|]. simpl. intros [= ->]. simpl in Hkey. done. }
  cbn [orb]. rewrite regex_match_key_value by done. cbn [mbind option_bind].
  assert (strip v = v) as ->; [|done].
  unfold strip. by rewrite Hl, Hr.
Qed.

(** X1.  A line made of a key, a colon and a value, with any white space
    before the key, after the colon and at the end, provides the value
    without its surrounding quotes when the key is one of the four wanted
    keys, and nothing otherwise.  The value is any text that is not empty,
    has no white space at either end and no line feed. *)
Theorem parse_line_key_value k v ws1 ws2 ws3 :
  k ≠ [] → forallb is_key_char k = true →
  forallb is_space ws1 = true → forallb is_space ws2 = true →
  forallb is_space ws3 = true →
  v ≠ [] → lstrip v = v → rstrip v = v → LF ∉ v →
  parse_line (ws1 ++ k ++ COLON :: ws2 ++ v ++ ws3)
  = if bool_decide (k ∈ wanted) then Some (k, unquote v) else None.
Proof.
  intros Hk Hkey H1 H2 H3 Hv Hl Hr Hlf.
  apply (parse_stripped _ k ws2 v); try done.
  by apply strip_key_value_line.
Qed.

Lemma parse_line_key_value_witness :
  parse_line (py "  " ++ py "name" ++ COLON :: py " " ++ py "'demo tool'" ++ [9])
  = if bool_decide (py "name" ∈ wanted) then Some (py "name", unquote (py "'demo tool'"))
    else None.
Proof.
  apply parse_line_key_value; try (vm_compute; reflexivity); try done.
  intros H; apply list_elem_of_In in H; simpl in H; intuition discriminate.
Defined.

(** X2.  Lines that provide nothing: a line of white space only; a line
    whose first character after the indentation is not a letter, a digit
    or an underscore (a comment, a list item, a flow mapping, a quoted
    key); and a key followed by a colon and nothing but white space, so
    that a key with an empty value counts as absent. *)
Theorem parse_line_ignored ws :
  forallb is_space ws = true →
  parse_line ws = None
  ∧ (∀ c rest, is_space c = false → is_key_char c = false →
       parse_line (ws ++ c :: rest) = None)
  ∧ (∀ k ws2, forallb is_key_char k = true → forallb is_space ws2 = true →
       parse_line (ws ++ k ++ COLON :: ws2) = None).
Proof.
  intros Hws. split_and!.
  - unfold parse_line. cbn zeta.
    assert (strip ws = []) as ->; [|done].
    unfold strip. rewrite <- (app_nil_r ws), lstrip_spaces by done. done.
  - intros c rest Hc Hk. unfold parse_line. cbn zeta.
    assert (strip (ws ++ c :: rest) = c :: rstrip rest) as ->.
    { unfold strip. rewrite lstrip_spaces by done. simpl. rewrite Hc.
      by apply rstrip_cons. }
    rewrite bool_decide_eq_false_2 by done.
    destruct (startswith [HASH] (c :: rstrip rest)); [done|].
    cbn [orb]. unfold regex_match. simpl. by rewrite Hk.
  - intros k ws2 Hk Hws2. unfold parse_line. cbn zeta.
    destruct k as [|c k].
    { (* no key at all: the line starts with the colon *)
      assert (strip (ws ++ [] ++ COLON :: ws2) = [COLON]) as ->.
      { unfold strip. rewrite lstrip_spaces by done. simpl.
        rewrite rstrip_cons by done. f_equal.
        unfold rstrip. rewrite <- (app_nil_r (rev ws2)), lstrip_spaces; [done|].
        rewrite forallb_forall in *. intros x Hx. apply Hws2. by apply in_rev. }
      done. }
    assert (strip (ws ++ (c :: k) ++ COLON :: ws2) = (c :: k) ++ [COLON]) as ->.
    { unfold strip. rewrite lstrip_spaces by done.
      simpl in Hk. apply andb_prop in Hk as [Hc Hk].
      cbn [app lstrip]. rewrite (key_char_not_space _ Hc).
      assert (c :: k ++ COLON :: ws2 = ((c :: k) ++ [COLON]) ++ ws2) as ->
        by (simpl; by rewrite <- app_assoc).
      rewrite rstrip_spaces by done. by apply rstrip_fixed_app. }
    rewrite bool_decide_eq_false_2 by done.
    unfold startswith. rewrite bool_decide_eq_false_2.
    2:{ simpl. intros [= ->]. simpl in Hk. done. }
    cbn [orb]. unfold regex_match.
    rewrite take_key_app, drop_key_app by done. done.
Qed.

Lemma parse_line_ignored_witness :
  parse_line (py "   ") = None
  ∧ (∀ c rest, is_space c = false → is_key_char c = false →
       parse_line (py "   " ++ c :: rest) = None)
  ∧ (∀ k ws2, forallb is_key_char k = true → forallb is_space ws2 = true →
       parse_line (py "   " ++ k ++ COLON :: ws2) = None).
Proof. apply parse_line_ignored. vm_compute; reflexivity. Defined.

Lemma drop_length_app {A} (a b : list A) : drop (length a) (a ++ b) = b.
Proof. induction a; simpl; auto. Qed.

(** X3.  Quotes: a value between two double quotes or two single quotes
    loses exactly that pair, whatever it holds in between; a value that is
    one quote character alone becomes empty; a value that opens with one
    kind of quote and closes with the other, or is quoted at one end only,
    is kept as it is. *)
Theorem unquote_cases q q' s :
  q ∈ [DQUOTE; SQUOTE] → q' ∈ [DQUOTE; SQUOTE] →
  unquote (q :: s ++ [q]) = s
  ∧ unquote [q] = []
  ∧ (q ≠ q' → unquote (q :: s ++ [q']) = q :: s ++ [q'])
  ∧ (last s ≠ Some DQUOTE → last s ≠ Some SQUOTE → s ≠ [] →
     unquote (q :: s) = q :: s).
Proof.
  intros Hq Hq'.
  assert (∀ a b t, endswith [a] (b :: t ++ [a]) = true) as Hend.
  { intros a b t. apply bool_decide_eq_true.
    change (b :: t ++ [a]) with ((b :: t) ++ [a]).
    rewrite length_app. cbn [length].
    replace (S (length t) + 1 - 1)%nat with (length (b :: t)) by (cbn [length]; lia).
    apply drop_length_app. }
  assert (∀ a b t, a ≠ b → endswith [a] (t ++ [b]) = false) as Hend'.
  { intros a b t Hne. apply bool_decide_eq_false. rewrite length_app. simpl.
    rewrite Nat.add_sub, drop_length_app. congruence. }
  assert (∀ a t, startswith [a] (a :: t) = true) as Hstart.
  { intros. by apply bool_decide_eq_true. }
  assert (∀ a b t, a ≠ b → startswith [a] (b :: t) = false) as Hstart'.
  { intros a b t Hne. apply bool_decide_eq_false. simpl. congruence. }
  assert (drop 1 (take (length (q :: s ++ [q]) - 1) (q :: s ++ [q])) = s) as Hmid.
  { change (q :: s ++ [q]) with ((q :: s) ++ [q]).
    rewrite length_app. cbn [length].
    replace (S (length s) + 1 - 1)%nat with (length (q :: s)) by (cbn [length]; lia).
    by rewrite take_app_length. }
  split_and!.
  - unfold unquote. rewrite Hmid.
    apply elem_of_cons in Hq as [->|Hq].
    + by rewrite Hstart, Hend.
    + apply list_elem_of_singleton in Hq as ->.
      rewrite Hstart, Hend. by rewrite orb_true_r.
  - apply elem_of_cons in Hq as [->|Hq]; [done|].
    by apply list_elem_of_singleton in Hq as ->.
  - intros Hne. unfold unquote.
    assert (∀ a, startswith [a] (q :: s ++ [q']) && endswith [a] (q :: s ++ [q']) = false)
      as Hno.
    { intros a. destruct (decide (a = q)) as [->|Ha].
      - change (q :: s ++ [q']) with ((q :: s) ++ [q']) at 2.
        rewrite Hend' by done. apply andb_false_r.
      - by rewrite Hstart'. }
    by rewrite !Hno.
  - intros Hd Hs Hne. unfold unquote.
    assert (∀ a, a ∈ [DQUOTE; SQUOTE] → endswith [a] (q :: s) = false) as Hno.
    { intros a Ha. destruct s as [|b t _] using rev_ind; [done|].
      rewrite last_snoc in Hd, Hs. change (q :: t ++ [b]) with ((q :: t) ++ [b]).
      apply Hend'. intros ->.
      apply elem_of_cons in Ha as [->|Ha]; [done|].
      by apply list_elem_of_singleton in Ha as ->. }
    rewrite (Hno DQUOTE), (Hno SQUOTE) by (repeat constructor).
    by rewrite !andb_false_r.
Qed.

Lemma unquote_cases_witness :
  unquote (DQUOTE :: py "a b" ++ [DQUOTE]) = py "a b"
  ∧ unquote [DQUOTE] = []
  ∧ unquote (DQUOTE :: py "a b" ++ [SQUOTE]) = DQUOTE :: py "a b" ++ [SQUOTE]
  ∧ unquote (DQUOTE :: py "a b") = DQUOTE :: py "a b".
Proof.
  destruct (unquote_cases DQUOTE SQUOTE (py "a b")) as (H1 & H2 & H3 & H4);
    [repeat constructor..|].
  split_and!; [exact H1|exact H2|apply H3; discriminate|apply H4; vm_compute; discriminate].
Defined.

Lemma splitlines_from_line l : ∀ cur rest,
  Forall (λ c, is_linebreak c = false) l →
  splitlines_from cur (l ++ LF :: rest) = (cur ++ l) :: splitlines_from [] rest.
Proof.
  induction l as [|c l IH]; intros cur rest Hl.
  - rewrite app_nil_r. destruct rest; reflexivity.
  - inversion_clear Hl as [|?? Hc Hl']. cbn [app splitlines_from]. rewrite Hc.
    rewrite IH by (auto). by rewrite <- app_assoc.
Qed.

Lemma universal_newlines_line l : ∀ rest,
  Forall (λ c, is_linebreak c = false) l →
  universal_newlines (l ++ rest) = l ++ universal_newlines rest.
Proof.
  induction l as [|c l IH]; intros rest Hl; [done|].
  inversion_clear Hl as [|?? Hc Hl']. cbn [app universal_newlines].
  destruct (c =? CR) eqn:E.
  - apply N.eqb_eq in E as ->. done.
  - by rewrite IH.
Qed.

(** Lines closed by a line feed or by a carriage return and a line feed,
    in any mix, are read back as they are. *)
Lemma splitlines_terminated (lines seps : list str) :
  Forall (Forall (λ c, is_linebreak c = false)) lines →
  Forall (λ sep, sep = [LF] ∨ sep = [CR; LF]) seps →
  length lines = length seps →
  splitlines (universal_newlines (mjoin (zip_with app lines seps))) = lines.
Proof.
  unfold splitlines. revert seps.
  induction lines as [|l lines IH]; intros [|sep seps] Hl Hs Hlen; try done.
  inversion_clear Hl as [|?? Hl1 Hl2]. inversion_clear Hs as [|?? Hs1 Hs2].
  change (mjoin (zip_with app (l :: lines) (sep :: seps)))
    with ((l ++ sep) ++ mjoin (zip_with app lines seps)).
  rewrite <- app_assoc.
  rewrite universal_newlines_line by done.
  assert (universal_newlines (sep ++ mjoin (zip_with app lines seps))
          = LF :: universal_newlines (mjoin (zip_with app lines seps))) as ->.
  { destruct Hs1 as [->| ->]; [done|]. cbn [app universal_newlines].
    change (CR =? CR) with true. cbn match. change (LF =? LF) with true. done. }
  rewrite splitlines_from_line by auto.
  rewrite IH; auto.
Qed.

(** ** The filter *)

Lemma only_set_elem args k :
  k ∈ only_set args ↔ k ≠ [] ∧ ∃ x, x ∈ only args ∧ strip x = k.
Proof.
  unfold only_set. rewrite elem_of_list_to_set, list_elem_of_In, filter_In.
  rewrite <- list_elem_of_In, list_elem_of_fmap, negb_true_iff, bool_decide_eq_false.
  split.
  - intros [(x & -> & Hx) Hne]. eauto.
  - intros [Hne (x & Hx & <-)]. eauto.
Qed.

(** X5.  The [--only] filter: values are compared after stripping, and
    blank values are dropped.  A name passes when every value given is
    blank (none given included), or when the name is not empty and is the
    stripped form of one of the values; so a module whose name is empty
    never passes a filter that names something. *)
Theorem selected_iff args module_name :
  selected args module_name = true ↔
  (∀ x, x ∈ only args → strip x = [])
  ∨ (module_name ≠ [] ∧ ∃ x, x ∈ only args ∧ strip x = module_name).
Proof.
  unfold selected. rewrite orb_true_iff, !bool_decide_eq_true.
  rewrite only_set_elem. apply or_iff_compat_r.
  rewrite elem_of_equiv_empty_L. split.
  - intros H x Hx. destruct (strip x) as [|c s] eqn:E; [done|].
    exfalso. apply (H (c :: s)), only_set_elem. split; [done|eauto].
  - intros H k Hk. apply only_set_elem in Hk as [Hne (x & Hx & <-)]. auto.
Qed.

(** ** What a run reads of the output directory, and what it changes *)

Lemma build_tarball_frame env module_dir tree module_name out_dir module_version files :
  build_tarball env module_dir tree module_name out_dir module_version files
  = ((build_tarball env module_dir tree module_name out_dir module_version ∅).1 ∪ files,
     (build_tarball env module_dir tree module_name out_dir module_version ∅).2).
Proof.
  unfold build_tarball. destruct (list_files module_dir tree) as [fl|e]; cbn.
  - destruct (add_members _ _ _ _ _ _) as [ms [[]|e]]; cbn;
      by rewrite <- insert_union_l, (left_id_L ∅ (∪)).
  - by rewrite (left_id_L ∅ (∪)).
Qed.

Lemma loop_body_frame archive_bytes env args ts modules_dir out_dir v1_modules
    m files entries :
  loop_body archive_bytes env args ts modules_dir out_dir v1_modules m files entries
  = ((loop_body archive_bytes env args ts modules_dir out_dir v1_modules m ∅ entries).1
       ∪ files,
     (loop_body archive_bytes env args ts modules_dir out_dir v1_modules m ∅ entries).2).
Proof.
  unfold loop_body. cbn zeta.
  destruct (read_module_yaml_scalars _ _) as [meta|e]; cbn [fst snd];
    [|by rewrite (left_id_L ∅ (∪))].
  destruct (negb (selected args (name meta))); cbn [fst snd];
    [by rewrite (left_id_L ∅ (∪))|].
  destruct (legacy_fields v1_modules meta) as [merged|e]; cbn [fst snd];
    [|by rewrite (left_id_L ∅ (∪))].
  rewrite (build_tarball_frame _ _ _ _ _ _ files).
  destruct (build_tarball env _ _ _ _ _ ∅) as [f0 [path|e]] eqn:Hb;
    cbn [fst snd mbind result_bind]; [|done].
  apply build_tarball_Ok_insert in Hb as [a ->]. f_equal.
  assert ((<[path:=a]> (∅ : gmap str archive) ∪ files) !! path = Some a) as H1
    by (apply lookup_union_Some_l, lookup_insert_eq).
  assert (<[path:=a]> (∅ : gmap str archive) !! path = Some a) as H2
    by apply lookup_insert_eq.
  rewrite !(sha256_file_whole _ _ _ a) by done.
  unfold file_size. by rewrite H1, H2.
Qed.

Lemma for_modules_frame archive_bytes env args ts modules_dir out_dir v1_modules mods :
  ∀ files entries,
  for_modules archive_bytes env args ts modules_dir out_dir v1_modules mods files entries
  = ((for_modules archive_bytes env args ts modules_dir out_dir v1_modules mods ∅ entries).1
       ∪ files,
     (for_modules archive_bytes env args ts modules_dir out_dir v1_modules mods ∅ entries).2).
Proof.
  induction mods as [|m mods IH]; intros files entries; cbn [for_modules].
  - cbn. by rewrite (left_id_L ∅ (∪)).
  - rewrite (loop_body_frame _ _ _ _ _ _ _ _ files).
    destruct (loop_body _ _ _ _ _ _ _ m ∅ entries) as [f1 [e1|e]]; cbn [fst snd]; [|done].
    rewrite (IH (f1 ∪ files)), (IH f1). cbn [fst snd].
    by rewrite (assoc_L (∪)).
Qed.

(** X6.  The run on an output directory that already holds archives and
    an index is the run on an empty one, laid over what was there: the
    outcome, the archives written and the index do not depend on earlier
    content, and every file the run does not write stays as it was. *)
Theorem main_frame archive_bytes env args now modules_dir out_dir modules_tree v1 w :
  let fresh := main archive_bytes env args now modules_dir out_dir modules_tree v1
                    (mkWorld ∅ None) in
  main archive_bytes env args now modules_dir out_dir modules_tree v1 w
  = (mkWorld (out_files fresh.1 ∪ out_files w)
             (match registry_out fresh.1 with
              | Some index => Some index
              | None => registry_out w
              end),
     fresh.2).
Proof.
  cbn zeta. unfold main. destruct w as [files index].
  destruct (json_get v1 (py "modules") (JDict [])) as [v1_modules|e]; cbn [fst snd out_files
    registry_out]; [|by rewrite (left_id_L ∅ (∪))].
  rewrite (for_modules_frame _ _ _ _ _ _ _ _ files).
  destruct (for_modules _ _ _ _ _ _ _ _ ∅ []) as [f0 [entries|e]];
    cbn [fst snd out_files registry_out]; [|done].
  by destruct (json_get v1 (py "categories") (JDict [])).
Qed.

(** X7.  Running the build a second time over what the first run left,
    with the same inputs and the same timestamp, changes nothing: the
    second run ends the same way and leaves the same archives and the same
    index. *)
Theorem main_rerun archive_bytes env args now modules_dir out_dir modules_tree v1 w w1 r :
  main archive_bytes env args now modules_dir out_dir modules_tree v1 w = (w1, r) →
  main archive_bytes env args now modules_dir out_dir modules_tree v1 w1 = (w1, r).
Proof.
  unfold main.
  destruct (json_get v1 (py "modules") (JDict [])) as [v1_modules|e];
    [|by intros [= <- <-]].
  rewrite (for_modules_frame _ _ _ _ _ _ _ _ (out_files w)),
          (for_modules_frame _ _ _ _ _ _ _ _ (out_files w1)).
  destruct (for_modules _ _ _ _ _ _ _ _ ∅ []) as [f0 [entries|e]]; cbn [fst snd].
  - destruct (json_get v1 (py "categories") (JDict [])) as [categories|e];
      intros [= <- <-]; cbn [out_files registry_out];
      by rewrite (assoc_L (∪)), (idemp_L (∪)).
  - intros [= <- <-]. cbn [out_files registry_out].
    by rewrite (assoc_L (∪)), (idemp_L (∪)).
Qed.

Lemma loop_body_writes archive_bytes env args ts modules_dir out_dir v1_modules
    m files entries :
  (loop_body archive_bytes env args ts modules_dir out_dir v1_modules m files entries).1
  = files
  ∨ ∃ meta a, turn_meta args modules_dir m = Some meta
      ∧ (loop_body archive_bytes env args ts modules_dir out_dir v1_modules m files entries).1
        = <[archive_path (name meta) out_dir (version meta) := a]> files.
Proof.
  unfold loop_body, turn_meta. cbn zeta.
  destruct (read_module_yaml_scalars _ _) as [meta|e]; [|by left].
  destruct (selected args (name meta)); cbn [negb]; [|by left].
  destruct (legacy_fields v1_modules meta) as [merged|e]; [|by left].
  unfold build_tarball.
  destruct (list_files _ _) as [fl|e]; [|by left].
  destruct (add_members _ _ _ _ _ _) as [ms [[]|e]]; right; eauto.
Qed.

Lemma for_modules_writes archive_bytes env args ts modules_dir out_dir v1_modules mods p :
  ∀ files entries,
  (for_modules archive_bytes env args ts modules_dir out_dir v1_modules mods files entries).1
    !! p ≠ files !! p →
  ∃ m meta, m ∈ mods ∧ turn_meta args modules_dir m = Some meta
    ∧ p = archive_path (name meta) out_dir (version meta).
Proof.
  induction mods as [|m mods IH]; intros files entries; cbn [for_modules]; [done|].
  intros Hp.
  destruct (loop_body_writes archive_bytes env args ts modules_dir out_dir v1_modules
              m files entries) as [Hw|(meta & a & Hm & Hw)].
  - destruct (loop_body _ _ _ _ _ _ _ m files entries) as [f1 [e1|e]];
      cbn [fst] in Hw; subst f1; [|done].
    destruct (IH _ _ Hp) as (m' & meta & Hin & H). exists m', meta.
    split; [by right|done].
  - destruct (decide (p = archive_path (name meta) out_dir (version meta))) as [->|Hne].
    { exists m, meta. split_and!; [left|done..]. }
    destruct (loop_body _ _ _ _ _ _ _ m files entries) as [f1 [e1|e]];
      cbn [fst] in Hw, Hp; subst f1.
    + destruct (IH (<[archive_path (name meta) out_dir (version meta):=a]> files) e1)
        as (m' & meta' & Hin & H).
      { by rewrite lookup_insert_ne in * by done. }
      exists m', meta'. split; [by right|done].
    + by rewrite lookup_insert_ne in Hp by done.
Qed.

(** X8.  The footprint of a run, whatever its outcome: no archive that
    existed is removed; a path whose content differs afterwards is the
    archive path of a module the loop got to build (complete descriptor,
    name passing the filter); and the index is written on success only, a
    failed run leaving the earlier index, or none, in place. *)
Theorem main_footprint archive_bytes env args now modules_dir out_dir modules_tree
    v1 w w' r :
  main archive_bytes env args now modules_dir out_dir modules_tree v1 w = (w', r) →
  (∀ p, is_Some (out_files w !! p) → is_Some (out_files w' !! p))
  ∧ (∀ p, out_files w' !! p ≠ out_files w !! p →
       ∃ m meta, m ∈ discover modules_tree
         ∧ turn_meta args modules_dir m = Some meta
         ∧ p = archive_path (name meta) out_dir (version meta))
  ∧ match r with
    | Err _ => registry_out w' = registry_out w
    | Ok _ => ∃ categories entries,
        json_get v1 (py "categories") (JDict []) = Ok categories
        ∧ registry_out w'
          = Some (registry (build_timestamp args now) categories entries)
    end.
Proof.
  intros Hmain. split_and!.
  - intros p [a Hp]. unfold main in Hmain.
    destruct (json_get v1 (py "modules") (JDict [])) as [v1_modules|e];
      [|injection Hmain as <- _; by rewrite Hp].
    rewrite (for_modules_frame _ _ _ _ _ _ _ _ (out_files w)) in Hmain.
    destruct (for_modules _ _ _ _ _ _ _ _ ∅ []) as [f0 r0]. cbn [fst snd] in Hmain.
    assert (is_Some ((f0 ∪ out_files w) !! p)) as Hsome.
    { rewrite lookup_union, Hp. by destruct (f0 !! p). }
    destruct r0 as [entries|e]; [destruct (json_get v1 (py "categories") (JDict []))|];
      by injection Hmain as <- _.
  - unfold main in Hmain.
    destruct (json_get v1 (py "modules") (JDict [])) as [v1_modules|e];
      [|injection Hmain as <- _; done].
    intros p Hp.
    apply (for_modules_writes archive_bytes env args (build_timestamp args now)
             modules_dir out_dir v1_modules (discover modules_tree) p (out_files w) []).
    destruct (for_modules _ _ _ _ _ _ _ _ _ _) as [f [entries|e]]; cbn [fst].
    + destruct (json_get v1 (py "categories") (JDict []));
        injection Hmain as <- _; done.
    + injection Hmain as <- _; done.
  - unfold main in Hmain.
    destruct (json_get v1 (py "modules") (JDict [])) as [v1_modules|e];
      [|injection Hmain as <- <-; done].
    destruct (for_modules _ _ _ _ _ _ _ _ _ _) as [f [entries|e]].
    + destruct (json_get v1 (py "categories") (JDict [])) as [categories|e];
        injection Hmain as <- <-; [|done].
      by exists categories, entries.
    + injection Hmain as <- <-; done.
Qed.

Lemma main_rerun_witness :
  let dirs := [(py "demo", demo_dir); (py "store", store_dir)] in
  main plain_bytes env args now (py "modules") (py "out") (modules_of dirs) legacy
       (run legacy dirs).1
  = ((run legacy dirs).1, (run legacy dirs).2).
Proof.
  intros dirs.
  apply (main_rerun plain_bytes env args now (py "modules") (py "out") (modules_of dirs)
           legacy empty_world).
  apply surjective_pairing.
Defined.

Lemma main_footprint_witness :
  let dirs := [(py "demo", demo_dir); (py "linked", linked_dir)] in
  let w := mkWorld {[ py "out/old-0.1.0.tar.gz" := mkArchive 0 (py "old-0.1.0.tar") [] true ]}
                   (Some JNull) in
  let ran := main plain_bytes env args now (py "modules") (py "out") (modules_of dirs)
                  no_legacy w in
  (∀ p, is_Some (out_files w !! p) → is_Some (out_files ran.1 !! p))
  ∧ (∀ p, out_files ran.1 !! p ≠ out_files w !! p →
       ∃ m meta, m ∈ discover (modules_of dirs)
         ∧ turn_meta args (py "modules") m = Some meta
         ∧ p = archive_path (name meta) (py "out") (version meta))
  ∧ match ran.2 with
    | Err _ => registry_out ran.1 = registry_out w
    | Ok _ => ∃ categories entries,
        json_get no_legacy (py "categories") (JDict []) = Ok categories
        ∧ registry_out ran.1
          = Some (registry (build_timestamp args now) categories entries)
    end.
Proof.
  intros dirs w ran.
  apply (main_footprint plain_bytes env args now (py "modules") (py "out")
           (modules_of dirs) no_legacy w ran.1 ran.2).
  apply surjective_pairing.
Defined.

(** ** The output directory *)

Lemma split_on_nonempty sep s : split_on sep s ≠ [].
Proof.
  destruct s as [|c s]; cbn [split_on]; [done|].
  destruct (c =? sep); [done|]. by destruct (split_on sep s).
Qed.

Lemma split_on_sep_app sep a b :
  split_on sep (a ++ sep :: b) = split_on sep a ++ split_on sep b.
Proof.
  induction a as [|c a IH]; cbn [app split_on].
  - by rewrite N.eqb_refl.
  - destruct (c =? sep); [by rewrite IH|].
    rewrite IH. pose proof (split_on_nonempty sep a).
    by destruct (split_on sep a).
Qed.

Lemma basename_path_join dir rel : basename (path_join dir rel) = basename rel.
Proof.
  unfold basename, path_join. cbn [app].
  rewrite split_on_sep_app, last_app.
  pose proof (split_on_nonempty SLASH rel) as H.
  destruct (split_on SLASH rel) as [|x l _] using rev_ind; [done|].
  by rewrite last_snoc.
Qed.

Lemma loop_body_out_dir archive_bytes env args ts modules_dir out_dir1 out_dir2
    v1_modules m files1 files2 entries :
  (loop_body archive_bytes env args ts modules_dir out_dir1 v1_modules m files1 entries).2
  = (loop_body archive_bytes env args ts modules_dir out_dir2 v1_modules m files2 entries).2.
Proof.
  unfold loop_body. cbn zeta.
  destruct (read_module_yaml_scalars _ _) as [meta|e]; [|done].
  destruct (negb (selected args (name meta))); [done|].
  destruct (legacy_fields v1_modules meta) as [merged|e]; [|done].
  unfold build_tarball.
  destruct (list_files _ _) as [fl|e]; [|done].
  destruct (add_members _ _ _ _ _ _) as [ms [[]|e]]; [|done].
  cbn [fst snd mbind result_bind].
  rewrite !(sha256_file_whole _ _ _ _ (lookup_insert_eq _ _ _)).
  unfold file_size. rewrite !lookup_insert_eq.
  cbn [mbind result_bind].
  unfold gzip_header_name, archive_path. rewrite !basename_path_join.
  unfold registry_entry, tarball_url. by rewrite !basename_path_join.
Qed.

Lemma for_modules_out_dir archive_bytes env args ts modules_dir out_dir1 out_dir2
    v1_modules mods :
  ∀ files1 files2 entries,
  (for_modules archive_bytes env args ts modules_dir out_dir1 v1_modules mods files1
               entries).2
  = (for_modules archive_bytes env args ts modules_dir out_dir2 v1_modules mods files2
                 entries).2.
Proof.
  induction mods as [|m mods IH]; intros files1 files2 entries; cbn [for_modules]; [done|].
  pose proof (loop_body_out_dir archive_bytes env args ts modules_dir out_dir1 out_dir2
                v1_modules m files1 files2 entries) as H.
  destruct (loop_body _ _ _ _ _ out_dir1 _ _ _ _) as [f1 r1].
  destruct (loop_body _ _ _ _ _ out_dir2 _ _ _ _) as [f2 r2].
  cbn [snd] in H. subst r2. destruct r1; [apply IH|done].
Qed.

(** X9.  The path of the output directory leaves no trace in the result:
    two runs over the same module tree that differ in [--out-dir], and in
    what the output held before, end the same way, with the same
    exception if any, and write the same index, with the same archive
    URLs, checksums and sizes.  This is for output directories that lie
    outside of the module directories, so that a module is the same tree
    for both runs and at both of its listings; an output directory below
    a module directory would have the second listing see the archive
    just written.  Writes to the output are taken to succeed. *)
Theorem index_out_dir_independent archive_bytes env args now modules_dir
    out_dir1 out_dir2 modules_tree v1 w1 w2 :
  let run1 := main archive_bytes env args now modules_dir out_dir1 modules_tree v1 w1 in
  let run2 := main archive_bytes env args now modules_dir out_dir2 modules_tree v1 w2 in
  run1.2 = run2.2
  ∧ (run1.2 = Ok tt → registry_out run1.1 = registry_out run2.1).
Proof.
  cbn zeta. unfold main.
  destruct (json_get v1 (py "modules") (JDict [])) as [v1_modules|e];
    [|split; [done|discriminate]].
  pose proof (for_modules_out_dir archive_bytes env args (build_timestamp args now)
                modules_dir out_dir1 out_dir2 v1_modules (discover modules_tree)
                (out_files w1) (out_files w2) []) as H.
  destruct (for_modules _ _ _ _ _ out_dir1 _ _ _ _) as [f1 r1].
  destruct (for_modules _ _ _ _ _ out_dir2 _ _ _ _) as [f2 r2].
  cbn [snd] in H. subst r2. destruct r1 as [entries|e]; [|split; [done|discriminate]].
  destruct (json_get v1 (py "categories") (JDict [])); [done|split; [done|discriminate]].
Qed.

(** ** The index against the archives *)

Lemma Forall_dict_set (P : str * json → Prop) k v d :
  Forall P d → P (k, v) → Forall P (dict_set k v d).
Proof.
  intros Hd Hk. induction Hd as [|[k' v'] d Hx Hd IH]; cbn [dict_set].
  - by constructor.
  - destruct (str_eqb k' k) eqn:E.
    + apply str_eqb_eq in E as ->. by constructor.
    + by constructor.
Qed.

Lemma turn_meta_built args modules_dir m meta :
  read_module_yaml_scalars (path_join (path_join modules_dir m.1) MODULE_YAML)
                           (descriptor_of m.2) = Ok meta →
  turn_meta args modules_dir m
  = if selected args (name meta) then Some meta else None.
Proof. unfold turn_meta. by intros ->. Qed.








(** ** The entries of the index *)

Lemma for_modules_entries archive_bytes env args ts modules_dir out_dir v1_modules
    (Q : str * json → Prop) (all : list (str * node)) :
  (∀ m meta merged digest size manifest,
     m ∈ all → turn_meta args modules_dir m = Some meta →
     legacy_fields v1_modules meta = Ok merged →
     Q (name meta,
        registry_entry args ts meta merged
          (archive_path (name meta) out_dir (version meta)) digest size manifest)) →
  ∀ mods files entries files' entries',
  (∀ m, m ∈ mods → m ∈ all) →
  Forall Q entries →
  for_modules archive_bytes env args ts modules_dir out_dir v1_modules mods files entries
  = (files', Ok entries') →
  Forall Q entries'.
Proof.
  intros HQ. induction mods as [|m mods IH]; intros files entries files' entries' Hsub Hall;
    cbn [for_modules].
  - by intros [= <- <-].
  - destruct (loop_body _ _ _ _ _ _ _ m files entries) as [f1 [e1|e]] eqn:Hbody; [|done].
    apply IH; [intros m' Hm'; apply Hsub; by right|].
    apply loop_body_Ok in Hbody as (meta & Hmeta & Hcase).
    destruct Hcase as [(Hs & -> & ->)
                      |(Hs & merged & a & manifest & Hl & Hb & Ha & Hc & Hfl & ->)];
      [done|].
    apply Forall_dict_set; [done|]. apply (HQ m); [apply Hsub; left| |done].
    by rewrite (turn_meta_built _ _ _ _ Hmeta), Hs.
Qed.

(** X11.  The entries of the index: after a successful run every entry is
    filed under the name its own identity gives, a name that passed the
    filter; it comes from a discovered module directory whose descriptor
    gives this name and the version and tier of the entry; its archive URL
    is the release URL of the tag followed by the file name of the
    archive; and it carries the options of the run and the one timestamp
    of the run, which is also the timestamp of the index. *)
Theorem index_entries archive_bytes env args now modules_dir out_dir modules_tree
    v1 w w' :
  main archive_bytes env args now modules_dir out_dir modules_tree v1 w = (w', Ok tt) →
  let ts := build_timestamp args now in
  ∃ index entries,
    registry_out w' = Some index
    ∧ json_at [py "modules"] index = Some (JDict entries)
    ∧ json_at [py "updated"] index = Some (JStr ts)
    ∧ json_at [py "stats"; py "last_updated"] index = Some (JStr ts)
    ∧ ∀ k entry, (k, entry) ∈ entries →
        selected args k = true
        ∧ json_at [py "identity"; py "name"] entry = Some (JStr k)
        ∧ json_at [py "identity"; py "namespace"] entry = Some (JStr (namespace args))
        ∧ json_at [py "metadata"; py "license"] entry = Some (JStr (license args))
        ∧ json_at [py "dependencies"; py "runtime_min"] entry
          = Some (JStr (runtime_min args))
        ∧ json_at [py "dependencies"; py "modules"] entry = Some (JList [])
        ∧ json_at [py "timestamps"; py "created_at"] entry = Some (JStr ts)
        ∧ json_at [py "timestamps"; py "updated_at"] entry = Some (JStr ts)
        ∧ json_at [py "timestamps"; py "deprecated_at"] entry = Some JNull
        ∧ ∃ m meta,
            m ∈ discover modules_tree
            ∧ read_module_yaml_scalars
                (path_join (path_join modules_dir m.1) MODULE_YAML) (descriptor_of m.2)
              = Ok meta
            ∧ name meta = k
            ∧ json_at [py "identity"; py "version"] entry = Some (JStr (version meta))
            ∧ json_at [py "metadata"; py "tier"] entry = Some (JStr (tier meta))
            ∧ json_at [py "distribution"; py "tarball"] entry
              = Some (JStr (py "https://github.com/Cognary/cognitive/releases/download/"
                            ++ tag args ++ [SLASH]
                            ++ basename (name meta ++ py "-" ++ version meta
                                         ++ py ".tar.gz"))).
Proof.
  intros Hmain ts.
  apply main_Ok in Hmain as (v1_modules & categories & files & entries & _ & Hfor & ->).
  exists (registry ts categories entries), entries. split_and!; [done..|].
  assert (Forall (λ kv, ∃ m meta merged digest size manifest,
                    m ∈ discover modules_tree
                    ∧ turn_meta args modules_dir m = Some meta
                    ∧ kv = (name meta,
                            registry_entry args ts meta merged
                              (archive_path (name meta) out_dir (version meta))
                              digest size manifest)) entries) as Hall.
  { eapply for_modules_entries; [|by intros m Hm|constructor|exact Hfor].
    intros m meta merged digest size manifest Hin Hmeta _.
    by exists m, meta, merged, digest, size, manifest. }
  rewrite Forall_forall in Hall. intros k entry Hin.
  destruct (Hall _ Hin) as (m & meta & merged & digest & size & manifest & Hm & Hmeta & Heq).
  injection Heq as -> ->.
  unfold turn_meta in Hmeta.
  destruct (read_module_yaml_scalars _ _) as [meta'|] eqn:Hread; [|done].
  destruct (selected args (name meta')) eqn:Hs; [|done].
  injection Hmeta as ->.
  split_and!; try done.
  exists m, meta. split_and!; try done.
  cbn. unfold tarball_url, archive_path. by rewrite basename_path_join.
Qed.

Lemma index_entries_witness :
  let dirs := [(py "demo", demo_dir); (py "store", store_dir)] in
  let w' := (run legacy dirs).1 in
  let ts := build_timestamp args now in
  ∃ index entries,
    registry_out w' = Some index
    ∧ json_at [py "modules"] index = Some (JDict entries)
    ∧ json_at [py "updated"] index = Some (JStr ts)
    ∧ json_at [py "stats"; py "last_updated"] index = Some (JStr ts)
    ∧ ∀ k entry, (k, entry) ∈ entries →
        selected args k = true
        ∧ json_at [py "identity"; py "name"] entry = Some (JStr k)
        ∧ json_at [py "identity"; py "namespace"] entry = Some (JStr (namespace args))
        ∧ json_at [py "metadata"; py "license"] entry = Some (JStr (license args))
        ∧ json_at [py "dependencies"; py "runtime_min"] entry
          = Some (JStr (runtime_min args))
        ∧ json_at [py "dependencies"; py "modules"] entry = Some (JList [])
        ∧ json_at [py "timestamps"; py "created_at"] entry = Some (JStr ts)
        ∧ json_at [py "timestamps"; py "updated_at"] entry = Some (JStr ts)
        ∧ json_at [py "timestamps"; py "deprecated_at"] entry = Some JNull
        ∧ ∃ m meta,
            m ∈ discover (modules_of dirs)
            ∧ read_module_yaml_scalars
                (path_join (path_join (py "modules") m.1) MODULE_YAML) (descriptor_of m.2)
              = Ok meta
            ∧ name meta = k
            ∧ json_at [py "identity"; py "version"] entry = Some (JStr (version meta))
            ∧ json_at [py "metadata"; py "tier"] entry = Some (JStr (tier meta))
            ∧ json_at [py "distribution"; py "tarball"] entry
              = Some (JStr (py "https://github.com/Cognary/cognitive/releases/download/"
                            ++ tag args ++ [SLASH]
                            ++ basename (name meta ++ py "-" ++ version meta
                                         ++ py ".tar.gz"))).
Proof.
  intros dirs w'.
  apply (index_entries plain_bytes env args now (py "modules") (py "out")
           (modules_of dirs) legacy empty_world w').
  vm_compute; reflexivity.
Defined.

Lemma dict_get_keys k d : k ∈ d.*1 ↔ ∃ v, dict_get k d = Some v.
Proof.
  induction d as [|[k' v'] d IH]; cbn [fmap list_fmap fst dict_get].
  - split; [by intros ?%elem_of_nil|by intros [? ?]].
  - rewrite elem_of_cons. destruct (str_eqb k' k) eqn:E.
    + apply str_eqb_eq in E as ->. split; [eauto|by left].
    + apply str_eqb_neq in E. rewrite <- IH. split; [|by right].
      by intros [->|?].
Qed.

(** X12.  The names of the index: after a successful run [featured] lists
    the names of the modules that were built, each once, in the order in
    which each name was first built, which is the order of the directory
    names and not of the module names; [total_modules] is the number of
    these names. *)
Theorem featured_names archive_bytes env args now modules_dir out_dir modules_tree
    v1 w w' :
  main archive_bytes env args now modules_dir out_dir modules_tree v1 w = (w', Ok tt) →
  let built := built_names args modules_dir (discover modules_tree) in
  ∃ index names,
    registry_out w' = Some index
    ∧ json_at [py "featured"] index = Some (JList (JStr <$> names))
    ∧ json_at [py "stats"; py "total_modules"] index
      = Some (JInt (Z.of_nat (length names)))
    ∧ names = foldl add_key [] built
    ∧ NoDup names
    ∧ (∀ k, k ∈ names ↔ k ∈ built)
    ∧ (∀ k, k ∈ names ↔
         ∃ entry, json_at [py "modules"; k] index = Some entry).
Proof.
  intros Hmain built.
  apply main_Ok in Hmain as (v1_modules & categories & files & entries & _ & Hfor & ->).
  exists (registry (build_timestamp args now) categories entries), entries.*1.
  pose proof (for_modules_keys _ _ _ _ _ _ _ _ _ _ _ _ Hfor) as Hkeys.
  cbn [fmap list_fmap] in Hkeys.
  split_and!; try done.
  - by rewrite length_fmap.
  - rewrite Hkeys. apply foldl_add_key_NoDup. constructor.
  - intros k. rewrite Hkeys, foldl_add_key_elem. split; [|by right].
    by intros [?%elem_of_nil|].
  - intros k. rewrite dict_get_keys.
    change (json_at [py "modules"; k] (registry (build_timestamp args now) categories entries))
      with (dict_get k entries ≫= json_at []).
    split; intros [v Hv].
    + exists v. by rewrite Hv.
    + destruct (dict_get k entries) as [v'|]; [by exists v'|done].
Qed.

Lemma featured_names_witness :
  let dirs := [(py "p1", dup1_dir); (py "p2", dup2_dir)] in
  let w' := (run no_legacy dirs).1 in
  let built := built_names args (py "modules") (discover (modules_of dirs)) in
  ∃ index names,
    registry_out w' = Some index
    ∧ json_at [py "featured"] index = Some (JList (JStr <$> names))
    ∧ json_at [py "stats"; py "total_modules"] index
      = Some (JInt (Z.of_nat (length names)))
    ∧ names = foldl add_key [] built
    ∧ NoDup names
    ∧ (∀ k, k ∈ names ↔ k ∈ built)
    ∧ (∀ k, k ∈ names ↔
         ∃ entry, json_at [py "modules"; k] index = Some entry).
Proof.
  intros dirs w'.
  apply (featured_names plain_bytes env args now (py "modules") (py "out")
           (modules_of dirs) no_legacy empty_world w').
  vm_compute; reflexivity.
Defined.

Lemma for_modules_all_skipped archive_bytes env args ts modules_dir out_dir v1_modules
    mods files entries :
  Forall (λ m, ∃ meta,
            read_module_yaml_scalars (path_join (path_join modules_dir m.1) MODULE_YAML)
                                     (descriptor_of m.2) = Ok meta
            ∧ selected args (name meta) = false) mods →
  for_modules archive_bytes env args ts modules_dir out_dir v1_modules mods files entries
  = (files, Ok entries).
Proof.
  induction 1 as [|m mods (meta & Hmeta & Hs) _ IH]; cbn [for_modules]; [done|].
  unfold loop_body. cbn zeta. by rewrite Hmeta, Hs.
Qed.

(** X13.  A filter that matches nothing: when the legacy registry is an
    object, every discovered descriptor is complete and no module name
    passes the filter, the run succeeds, writes no archive, and writes an
    index without modules; a misspelt [--only] is not reported.  The same
    holds when no module directory is discovered at all. *)
Theorem none_selected archive_bytes env args now modules_dir out_dir modules_tree
    legacy w :
  (∀ m, m ∈ discover modules_tree →
     ∃ meta,
       read_module_yaml_scalars (path_join (path_join modules_dir m.1) MODULE_YAML)
                                (descriptor_of m.2) = Ok meta
       ∧ selected args (name meta) = false) →
  ∃ index,
    main archive_bytes env args now modules_dir out_dir modules_tree (JDict legacy) w
    = (mkWorld (out_files w) (Some index), Ok tt)
    ∧ json_at [py "modules"] index = Some (JDict [])
    ∧ json_at [py "featured"] index = Some (JList [])
    ∧ json_at [py "stats"; py "total_modules"] index = Some (JInt 0)
    ∧ json_at [py "categories"] index
      = Some (default (JDict []) (dict_get (py "categories") legacy)).
Proof.
  intros Hall. apply Forall_forall in Hall.
  exists (registry (build_timestamp args now)
            (default (JDict []) (dict_get (py "categories") legacy)) []).
  split; [|done].
  unfold main. cbn [json_get].
  by rewrite (for_modules_all_skipped _ _ _ _ _ _ _ _ _ _ Hall).
Qed.

Lemma none_selected_witness :
  let only_nope :=
    mkArgs (py "v2.2.7") (py "official") (py "2.2.0")
           (py "https://github.com/Cognary/cognitive")
           (py "https://cognary.github.io/cognitive/") (py "MIT") (py "") [py " nope "] in
  let dirs := [(py "demo", demo_dir); (py "other", other_dir)] in
  ∃ index,
    main plain_bytes env only_nope now (py "modules") (py "out") (modules_of dirs)
         (JDict []) empty_world
    = (mkWorld (out_files empty_world) (Some index), Ok tt)
    ∧ json_at [py "modules"] index = Some (JDict [])
    ∧ json_at [py "featured"] index = Some (JList [])
    ∧ json_at [py "stats"; py "total_modules"] index = Some (JInt 0)
    ∧ json_at [py "categories"] index
      = Some (default (JDict []) (dict_get (py "categories") [])).
Proof.
  intros only_nope dirs.
  apply (none_selected plain_bytes env only_nope now (py "modules") (py "out")
           (modules_of dirs) [] empty_world).
  intros m Hm.
  assert (m = (py "demo", demo_dir) ∨ m = (py "other", other_dir)) as [-> | ->].
  { apply list_elem_of_In in Hm. vm_compute in Hm.
    destruct Hm as [<-|[<-|[]]]; [left|right]; vm_compute; reflexivity. }
  - exists (mkModuleMeta (py "demo") (py "1.0.0") (py "exec") (py "does things")).
    split; vm_compute; reflexivity.
  - exists (mkModuleMeta (py "other") (py "0.3.0") (py "decision") (py "decides")).
    split; vm_compute; reflexivity.
Defined.

(** ** The checksum *)

Lemma round_length s kw : length (SHA256.round s kw) = length s.
Proof.
  destruct s as [|a [|b [|c [|d [|e [|f [|g [|h [|i s]]]]]]]]]; reflexivity.
Qed.

Lemma foldl_round_length l : ∀ s, length (foldl SHA256.round s l) = length s.
Proof.
  induction l as [|kw l IH]; intros s; cbn [foldl]; [done|].
  by rewrite IH, round_length.
Qed.

Lemma compress_length h block : length (SHA256.compress h block) = length h.
Proof.
  unfold SHA256.compress. cbn zeta.
  rewrite length_zip_with, foldl_round_length. lia.
Qed.

Lemma foldl_compress_length blocks : ∀ h,
  length (foldl SHA256.compress h blocks) = length h.
Proof.
  induction blocks as [|b blocks IH]; intros h; cbn [foldl]; [done|].
  by rewrite IH, compress_length.
Qed.

Lemma be_bytes_length n : ∀ x, length (SHA256.be_bytes n x) = n.
Proof.
  induction n as [|n IH]; intros x; cbn [SHA256.be_bytes]; [done|].
  rewrite length_app, IH. cbn [length]. lia.
Qed.

Lemma be_bytes_range n : ∀ x, Forall (λ b, 0 ≤ b < 256)%Z (SHA256.be_bytes n x).
Proof.
  induction n as [|n IH]; intros x; cbn [SHA256.be_bytes]; [constructor|].
  apply Forall_app. split; [apply IH|].
  constructor; [|constructor]. apply Z.mod_pos_bound. lia.
Qed.

Lemma digest_length msg : length (SHA256.digest msg) = 32%nat.
Proof.
  unfold SHA256.digest. cbn zeta.
  assert (∀ l : list Z, length (l ≫= SHA256.be_bytes 4) = (4 * length l)%nat) as H.
  { induction l as [|x l IH]; [done|].
    rewrite bind_cons, length_app, IH, be_bytes_length. cbn [length]. lia. }
  rewrite H, foldl_compress_length. reflexivity.
Qed.

Lemma digest_range msg : Forall (λ b, 0 ≤ b < 256)%Z (SHA256.digest msg).
Proof.
  unfold SHA256.digest. cbn zeta. apply Forall_bind, Forall_forall.
  intros x _. apply be_bytes_range.
Qed.

Lemma hex_digit_range d :
  (0 ≤ d < 16)%Z →
  (48 ≤ SHA256.hex_digit d ∧ SHA256.hex_digit d ≤ 57)
  ∨ (97 ≤ SHA256.hex_digit d ∧ SHA256.hex_digit d ≤ 102).
Proof.
  intros Hd. unfold SHA256.hex_digit.
  destruct (d <? 10)%Z eqn:E; [apply Z.ltb_lt in E; left|apply Z.ltb_ge in E; right]; lia.
Qed.

(** X14.  The checksum: whatever the archive holds, the digest that
    [sha256_file] returns has 64 characters, each a digit or a letter from
    [a] to [f] in lower case, so that the [checksum] field of an entry has
    71 characters. *)
Theorem checksum_format archive_bytes files path digest :
  sha256_file archive_bytes files path = Ok digest →
  length digest = 64%nat
  ∧ Forall (λ c, (48 ≤ c ∧ c ≤ 57) ∨ (97 ≤ c ∧ c ≤ 102)) digest
  ∧ length (py "sha256:" ++ digest) = 71%nat.
Proof.
  intros H. unfold sha256_file in H.
  destruct (files !! path) as [a|]; [|done].
  rewrite read_loop_whole in H by lia. injection H as <-.
  unfold hash_hexdigest, SHA256.hexdigest. cbn [fed app].
  assert (∀ l : list Z,
            length (l ≫= λ b, [SHA256.hex_digit (b / 16); SHA256.hex_digit (b mod 16)])
            = (2 * length l)%nat) as Hlen.
  { induction l as [|x l IH]; [done|]. rewrite bind_cons, length_app, IH.
    cbn [length]. lia. }
  split_and!.
  - by rewrite Hlen, digest_length.
  - apply Forall_bind. eapply Forall_impl; [apply digest_range|].
    intros b Hb. cbn beta in Hb |- *.
    constructor; [|constructor; [|constructor]]; apply hex_digit_range.
    + split; [apply Z.div_pos; lia|apply Z.div_lt_upper_bound; lia].
    + apply Z.mod_pos_bound. lia.
  - rewrite length_app, Hlen, digest_length. reflexivity.
Qed.

Lemma checksum_format_witness :
  let a := mkArchive 0 (py "demo-1.0.0.tar") [] true in
  let digest := SHA256.hexdigest (plain_bytes a) in
  length digest = 64%nat
  ∧ Forall (λ c, (48 ≤ c ∧ c ≤ 57) ∨ (97 ≤ c ∧ c ≤ 102)) digest
  ∧ length (py "sha256:" ++ digest) = 71%nat.
Proof.
  intros a digest.
  apply (checksum_format plain_bytes {[ py "out/demo-1.0.0.tar.gz" := a ]}
           (py "out/demo-1.0.0.tar.gz")).
  apply sha256_file_whole. apply lookup_singleton_eq.
Defined.

(** ** Reading back a descriptor *)

Lemma utf8_encode_char_bytes (c : N) :
  is_scalar c = true → Forall (λ b, b < 256) (utf8_encode_char c).
Proof.
  unfold is_scalar, utf8_encode_char. intros [Hmax _]%andb_prop. apply N.leb_le in Hmax.
  pose proof (N.mod_lt c 64 ltac:(done)).
  pose proof (N.mod_lt (c / 64) 64 ltac:(done)).
  pose proof (N.mod_lt (c / 4096) 64 ltac:(done)).
  pose proof (N.Div0.div_lt_upper_bound c 64 32).
  pose proof (N.Div0.div_lt_upper_bound c 4096 16).
  pose proof (N.Div0.div_lt_upper_bound c 262144 5).
  destruct (c <? 128) eqn:E1; [apply N.ltb_lt in E1; repeat constructor; lia|].
  destruct (c <? 2048) eqn:E2; [apply N.ltb_lt in E2; repeat constructor; lia|].
  destruct (c <? 65536) eqn:E3; [apply N.ltb_lt in E3; repeat constructor; lia|].
  repeat constructor; lia.
Qed.

Lemma utf8_decode_encode_char (c : N) rest :
  is_scalar c = true →
  utf8_decode (utf8_encode_char c ++ rest) = cons c <$> utf8_decode rest.
Proof.
  unfold is_scalar, utf8_encode_char. intros [Hmax Hsur]%andb_prop.
  apply N.leb_le in Hmax. apply negb_true_iff in Hsur.
  pose proof (N.div_mod' c 64) as D1. pose proof (N.mod_lt c 64 ltac:(done)) as M1.
  pose proof (N.div_mod' (c / 64) 64) as D2.
  pose proof (N.mod_lt (c / 64) 64 ltac:(done)) as M2.
  pose proof (N.div_mod' (c / 4096) 64) as D3.
  pose proof (N.mod_lt (c / 4096) 64 ltac:(done)) as M3.
  assert (c / 64 / 64 = c / 4096) as Q2 by (by rewrite N.Div0.div_div).
  assert (c / 4096 / 64 = c / 262144) as Q3 by (by rewrite N.Div0.div_div).
  rewrite Q2 in D2. rewrite Q3 in D3. clear Q2 Q3.
  set (r1 := c mod 64) in *. set (r2 := (c / 64) mod 64) in *.
  set (r3 := (c / 4096) mod 64) in *.
  set (q1 := c / 64) in *. set (q2 := c / 4096) in *. set (q3 := c / 262144) in *.
  clearbody r1 r2 r3 q1 q2 q3.
  destruct (c <? 128) eqn:E1.
  { cbn [app utf8_decode]. by rewrite E1. }
  apply N.ltb_ge in E1.
  destruct (c <? 2048) eqn:E2.
  { apply N.ltb_lt in E2. cbn [app utf8_decode].
    assert ((192 + q1 <? 128) = false) as -> by (apply N.ltb_ge; lia).
    assert ((194 <=? 192 + q1) && (192 + q1 <=? 223) = true) as ->
      by (apply andb_true_intro; split; apply N.leb_le; lia).
    assert (is_cont (128 + r1) = true) as ->
      by (apply andb_true_intro; split; apply N.leb_le; lia).
    do 2 f_equal. lia. }
  apply N.ltb_ge in E2.
  destruct (c <? 65536) eqn:E3.
  { apply N.ltb_lt in E3. cbn [app utf8_decode].
    assert ((224 + q2 <? 128) = false) as -> by (apply N.ltb_ge; lia).
    assert ((194 <=? 224 + q2) && (224 + q2 <=? 223) = false) as ->
      by (apply andb_false_iff; right; apply N.leb_gt; lia).
    assert ((224 <=? 224 + q2) && (224 + q2 <=? 239) = true) as ->
      by (apply andb_true_intro; split; apply N.leb_le; lia).
    cbn zeta.
    assert ((224 + q2 - 224) * 4096 + (128 + r2 - 128) * 64 + (128 + r1 - 128) = c)
      as -> by lia.
    assert (is_cont (128 + r2) = true) as ->
      by (apply andb_true_intro; split; apply N.leb_le; lia).
    assert (is_cont (128 + r1) = true) as ->
      by (apply andb_true_intro; split; apply N.leb_le; lia).
    assert ((2048 <=? c) = true) as -> by (apply N.leb_le; lia).
    by rewrite Hsur. }
  apply N.ltb_ge in E3. cbn [app utf8_decode].
  assert ((240 + q3 <? 128) = false) as -> by (apply N.ltb_ge; lia).
  assert ((194 <=? 240 + q3) && (240 + q3 <=? 223) = false) as ->
    by (apply andb_false_iff; right; apply N.leb_gt; lia).
  assert ((224 <=? 240 + q3) && (240 + q3 <=? 239) = false) as ->
    by (apply andb_false_iff; right; apply N.leb_gt; lia).
  assert ((240 <=? 240 + q3) && (240 + q3 <=? 244) = true) as ->
    by (apply andb_true_intro; split; apply N.leb_le; lia).
  cbn zeta.
  assert ((240 + q3 - 240) * 262144 + (128 + r3 - 128) * 4096
          + (128 + r2 - 128) * 64 + (128 + r1 - 128) = c) as -> by lia.
  assert (is_cont (128 + r3) = true) as ->
    by (apply andb_true_intro; split; apply N.leb_le; lia).
  assert (is_cont (128 + r2) = true) as ->
    by (apply andb_true_intro; split; apply N.leb_le; lia).
  assert (is_cont (128 + r1) = true) as ->
    by (apply andb_true_intro; split; apply N.leb_le; lia).
  assert ((65536 <=? c) = true) as -> by (apply N.leb_le; lia).
  assert ((c <=? 1114111) = true) as -> by (by apply N.leb_le).
  done.
Qed.

Lemma utf8_decode_encode s :
  forallb is_scalar s = true → utf8_decode (s ≫= utf8_encode_char) = Some s.
Proof.
  induction s as [|c s IH]; [done|]. cbn [forallb]. intros [Hc Hs]%andb_prop.
  rewrite bind_cons, utf8_decode_encode_char, IH by done. done.
Qed.

Lemma to_N_utf8_bytes s :
  forallb is_scalar s = true → Byte.to_N <$> utf8_bytes s = s ≫= utf8_encode_char.
Proof.
  intros Hs. unfold utf8_bytes. rewrite <- list_fmap_compose.
  assert (Forall (λ b, b < 256) (s ≫= utf8_encode_char)) as Hall.
  { apply Forall_bind, Forall_forall. intros c Hc. apply utf8_encode_char_bytes.
    rewrite forallb_forall in Hs. by apply Hs, list_elem_of_In. }
  induction Hall as [|b l Hb _ IH]; [done|]. cbn [fmap list_fmap]. f_equal; [|done].
  cbn [compose]. destruct (Byte.of_N b) as [x|] eqn:E.
  - by apply Byte.to_of_N.
  - apply Byte.of_N_None_iff in E. lia.
Qed.

Lemma read_text_utf8 path st s :
  forallb is_scalar s = true →
  read_text path (Some (File st (utf8_bytes s))) = Ok (universal_newlines s).
Proof.
  intros Hs. unfold read_text, read_bytes. cbn [mbind option_bind resolve result_bind].
  by rewrite to_N_utf8_bytes, utf8_decode_encode.
Qed.

Lemma key_char_plain (c : N) :
  is_key_char c = true → is_linebreak c = false ∧ is_scalar c = true.
Proof.
  unfold is_key_char, is_linebreak, is_scalar. intros H.
  repeat first [ rewrite orb_true_iff in H | rewrite andb_true_iff in H
               | rewrite N.leb_le in H | rewrite N.eqb_eq in H ].
  split.
  - apply not_true_iff_false. intros H'.
    repeat first [ rewrite orb_true_iff in H' | rewrite andb_true_iff in H'
                 | rewrite N.leb_le in H' | rewrite N.eqb_eq in H' ].
    lia.
  - apply andb_true_intro. split; [apply N.leb_le; lia|].
    apply negb_true_iff, andb_false_iff. left. apply N.leb_gt. lia.
Qed.

Lemma plain_value_spec v :
  plain_value v = true →
  v ≠ [] ∧ lstrip v = v ∧ rstrip v = v
  ∧ Forall (λ c, is_linebreak c = false) v ∧ forallb is_scalar v = true.
Proof.
  unfold plain_value. rewrite !andb_true_iff, negb_true_iff, bool_decide_eq_false,
    !bool_decide_eq_true.
  intros [[[Hne Hl] Hr] Hall]. split_and!; try done.
  - apply Forall_forall. intros c Hc. rewrite forallb_forall in Hall.
    apply list_elem_of_In, Hall, andb_prop in Hc as [Hc _]. by apply negb_true_iff.
  - apply forallb_forall. intros c Hc. rewrite forallb_forall in Hall.
    by apply Hall, andb_prop in Hc as [_ Hc].
Qed.

Lemma plain_key_spec k :
  plain_key k = true →
  k ≠ [] ∧ forallb is_key_char k = true
  ∧ Forall (λ c, is_linebreak c = false) k ∧ forallb is_scalar k = true.
Proof.
  unfold plain_key. rewrite andb_true_iff, negb_true_iff, bool_decide_eq_false.
  intros [Hne Hall]. split_and!; try done.
  - apply Forall_forall. intros c Hc. rewrite forallb_forall in Hall.
    by apply list_elem_of_In, Hall, key_char_plain in Hc as [Hc _].
  - apply forallb_forall. intros c Hc. rewrite forallb_forall in Hall.
    by apply Hall, key_char_plain in Hc as [_ Hc].
Qed.

Lemma parse_descriptor_line kv :
  plain_key kv.1 = true → plain_value kv.2 = true →
  parse_line (descriptor_line kv)
  = if bool_decide (kv.1 ∈ wanted) then Some (kv.1, unquote kv.2) else None.
Proof.
  intros (Hk1 & Hk2 & _)%plain_key_spec (Hv1 & Hv2 & Hv3 & Hv4 & _)%plain_value_spec.
  apply (parse_stripped _ kv.1 [32] kv.2); try done.
  - pose proof (strip_key_value_line kv.1 kv.2 [] [32] []) as H.
    rewrite app_nil_r in H. by apply H.
  - intros Hin. rewrite Forall_forall in Hv4. by apply Hv4 in Hin.
Qed.

Lemma values_of_descriptor k kvs :
  k ∈ wanted →
  Forall (λ kv, plain_key kv.1 = true ∧ plain_value kv.2 = true) kvs →
  values_of k (descriptor_line <$> kvs)
  = omap (λ kv, if str_eqb kv.1 k then Some (unquote kv.2) else None) kvs.
Proof.
  intros Hk. induction 1 as [|kv kvs [Hkey Hval] _ IH]; [done|].
  rewrite fmap_cons, values_of_cons, IH, parse_descriptor_line by done.
  cbn [omap list_omap]. destruct (str_eqb kv.1 k) eqn:E.
  - apply str_eqb_eq in E. rewrite bool_decide_eq_true_2 by (by rewrite E).
    by rewrite (proj2 (str_eqb_eq _ _) E).
  - destruct (bool_decide (kv.1 ∈ wanted)); [by rewrite E|done].
Qed.

Lemma descriptor_text_scalar kvs : ∀ seps,
  Forall (λ kv, plain_key kv.1 = true ∧ plain_value kv.2 = true) kvs →
  Forall (λ sep, sep = [LF] ∨ sep = [CR; LF]) seps →
  forallb is_scalar (descriptor_text kvs seps) = true.
Proof.
  unfold descriptor_text. intros seps Hk. revert seps.
  induction Hk as [|kv kvs [Hkey Hval] _ IH]; intros [|sep seps] Hs; try done.
  inversion_clear Hs as [|?? Hsep Hs'].
  change (mjoin (zip_with app (descriptor_line <$> kv :: kvs) (sep :: seps)))
    with ((descriptor_line kv ++ sep)
          ++ mjoin (zip_with app (descriptor_line <$> kvs) seps)).
  unfold descriptor_line. rewrite !forallb_app, IH by done.
  apply plain_key_spec in Hkey as (_ & _ & _ & ->).
  apply plain_value_spec in Hval as (_ & _ & _ & _ & ->).
  by destruct Hsep as [-> | ->].
Qed.

Lemma descriptor_lines kvs seps :
  Forall (λ kv, plain_key kv.1 = true ∧ plain_value kv.2 = true) kvs →
  Forall (λ sep, sep = [LF] ∨ sep = [CR; LF]) seps →
  length kvs = length seps →
  splitlines (universal_newlines (descriptor_text kvs seps)) = descriptor_line <$> kvs.
Proof.
  intros Hk Hs Hlen. apply splitlines_terminated; [|done|by rewrite length_fmap].
  apply Forall_fmap. eapply Forall_impl; [exact Hk|].
  intros kv [Hkey Hval]. cbn [compose]. unfold descriptor_line.
  apply plain_key_spec in Hkey as (_ & _ & Hkey & _).
  apply plain_value_spec in Hval as (_ & _ & _ & Hval & _).
  apply Forall_app. split; [done|]. by repeat constructor.
Qed.

(** X15.  Reading back a descriptor: for a descriptor file made of
    [key: value] lines in UTF-8, closed by line feeds or by carriage
    return and line feed, the reader returns for each of the four keys the
    value of the last line with that key, without one pair of surrounding
    quotes, characters outside of ASCII included; lines with other keys
    count for nothing; and when a key has no line the error lists the keys
    without a line, in the order name, version, tier, responsibility. *)
Theorem descriptor_read path st kvs seps :
  Forall (λ kv, plain_key kv.1 = true ∧ plain_value kv.2 = true) kvs →
  Forall (λ sep, sep = [LF] ∨ sep = [CR; LF]) seps →
  length kvs = length seps →
  read_module_yaml_scalars path (Some (File st (utf8_bytes (descriptor_text kvs seps))))
  = match descriptor_field (py "name") kvs, descriptor_field (py "version") kvs,
          descriptor_field (py "tier") kvs, descriptor_field (py "responsibility") kvs with
    | Some n, Some v, Some t, Some r => Ok (mkModuleMeta n v t r)
    | _, _, _, _ =>
        Err (MetadataIncomplete
               (List.filter (λ k, bool_decide (descriptor_field k kvs = None))
                            required_keys) path)
    end.
Proof.
  intros Hk Hs Hlen. unfold read_module_yaml_scalars.
  rewrite read_text_utf8 by (by apply descriptor_text_scalar).
  cbn [mbind result_bind]. cbn zeta. rewrite descriptor_lines by done.
  assert (∀ k, k ∈ required_keys →
            scan_lines (descriptor_line <$> kvs) !! k = descriptor_field k kvs) as Hfield.
  { intros k Hin. rewrite scan_lines_lookup, values_of_descriptor; [done| |done].
    unfold required_keys in Hin. unfold wanted.
    rewrite !elem_of_union, !elem_of_singleton.
    rewrite !elem_of_cons, elem_of_nil in Hin. tauto. }
  rewrite !Hfield by (unfold required_keys; repeat constructor).
  assert (missing_keys (scan_lines (descriptor_line <$> kvs))
          = List.filter (λ k, bool_decide (descriptor_field k kvs = None)) required_keys)
    as ->; [|done].
  unfold missing_keys. apply filter_ext_in. intros k Hin.
  by rewrite Hfield by (by apply list_elem_of_In).
Qed.

Lemma descriptor_read_witness :
  let kvs := [ (py "name", py "demo");
               (py "summary", py "not a wanted key");
               (py "version", [39] ++ py "1.0.0" ++ [39]);
               (py "tier", py "exec");
               (py "responsibility", [20998; 26512; 32; 128512]);
               (py "name", py "renamed") ] in
  let seps := [[LF]; [CR; LF]; [LF]; [LF]; [CR; LF]; [LF]] in
  read_module_yaml_scalars (py "modules/demo/module.yaml")
    (Some (File (st 1) (utf8_bytes (descriptor_text kvs seps))))
  = match descriptor_field (py "name") kvs, descriptor_field (py "version") kvs,
          descriptor_field (py "tier") kvs, descriptor_field (py "responsibility") kvs with
    | Some n, Some v, Some t, Some r => Ok (mkModuleMeta n v t r)
    | _, _, _, _ =>
        Err (MetadataIncomplete
               (List.filter (λ k, bool_decide (descriptor_field k kvs = None))
                            required_keys) (py "modules/demo/module.yaml"))
    end.
Proof.
  intros kvs seps. apply descriptor_read.
  - repeat first [apply Forall_nil_2 | apply Forall_cons_2; [split; vm_compute; reflexivity|]].
  - repeat first [apply Forall_nil_2 | apply Forall_cons_2; [(by left) || (by right)|]].
  - reflexivity.
Defined.

(** ** What an archive holds *)




Lemma slash_free_app a b : slash_free (a ++ b) = slash_free a && slash_free b.
Proof. apply forallb_app. Qed.

(** X17.  The name of an archive: for a module name and a version without
    slash the archive is the file [<name>-<version>.tar.gz] of the output
    directory, the URL of the entry ends with this file name, and the gzip
    header of the archive names [<name>-<version>.tar], or nothing when
    the name or the version holds a character outside of Latin-1. *)
Theorem archive_file_name env args module_dir tree module_name out_dir module_version
    files files' path :
  slash_free module_name = true → slash_free module_version = true →
  build_tarball env module_dir tree module_name out_dir module_version files
  = (files', Ok path) →
  let file_name := module_name ++ py "-" ++ module_version ++ py ".tar.gz" in
  ∃ a,
    files' !! path = Some a
    ∧ path = out_dir ++ [SLASH] ++ file_name
    ∧ basename path = file_name
    ∧ tarball_url args path
      = py "https://github.com/Cognary/cognitive/releases/download/"
        ++ tag args ++ [SLASH] ++ file_name
    ∧ gz_mtime a = 0%Z
    ∧ gz_fname a
      = if forallb (λ c, c <? 256) (module_name ++ module_version)
        then module_name ++ py "-" ++ module_version ++ py ".tar"
        else [].
Proof.
  intros Hn Hv Hb file_name.
  assert (basename (archive_path module_name out_dir module_version) = file_name) as Hbase.
  { unfold archive_path. rewrite basename_path_join. unfold basename.
    rewrite split_on_plain; [done|].
    by rewrite !slash_free_app, Hn, Hv. }
  unfold build_tarball in Hb. cbn zeta in Hb.
  destruct (list_files module_dir tree) as [fl|e]; [|done].
  destruct (add_members _ _ _ _ _ _) as [ms [[]|e]]; [|done].
  injection Hb as <- <-. eexists. split; [apply lookup_insert_eq|].
  split_and!; try done.
  - unfold tarball_url. by rewrite Hbase.
  - cbn [gz_fname]. unfold gzip_header_name. cbn zeta. rewrite Hbase.
    assert (forallb (λ c, c <? 256) file_name
            = forallb (λ c, c <? 256) (module_name ++ module_version)) as ->.
    { unfold file_name. rewrite !forallb_app.
      change (forallb (λ c, c <? 256) (py "-")) with true.
      change (forallb (λ c, c <? 256) (py ".tar.gz")) with true.
      cbn [andb]. by rewrite andb_true_r. }
    destruct (forallb (λ c, c <? 256) (module_name ++ module_version)); [|done].
    unfold file_name.
    assert (module_name ++ py "-" ++ module_version ++ py ".tar.gz"
            = (module_name ++ py "-" ++ module_version ++ py ".tar") ++ py ".gz") as ->
      by (by rewrite <- !app_assoc).
    unfold endswith.
    rewrite length_app.
    replace (length (module_name ++ py "-" ++ module_version ++ py ".tar")
             + length (py ".gz") - length (py ".gz"))%nat
      with (length (module_name ++ py "-" ++ module_version ++ py ".tar")) by lia.
    rewrite drop_length_app, bool_decide_eq_true_2 by done.
    replace (length (module_name ++ py "-" ++ module_version ++ py ".tar")
             + length (py ".gz") - 3)%nat
      with (length (module_name ++ py "-" ++ module_version ++ py ".tar"))
      by (cbn [py length]; lia).
    by rewrite take_app_length.
Qed.

Lemma archive_file_name_witness :
  let built := build_tarball env (py "modules/demo") demo_dir (py "demo") (py "out")
                             (py "1.0.0") ∅ in
  let path := ok_or [] built.2 in
  let file_name := py "demo" ++ py "-" ++ py "1.0.0" ++ py ".tar.gz" in
  ∃ a,
    built.1 !! path = Some a
    ∧ path = py "out" ++ [SLASH] ++ file_name
    ∧ basename path = file_name
    ∧ tarball_url args path
      = py "https://github.com/Cognary/cognitive/releases/download/"
        ++ tag args ++ [SLASH] ++ file_name
    ∧ gz_mtime a = 0%Z
    ∧ gz_fname a
      = if forallb (λ c, c <? 256) (py "demo" ++ py "1.0.0")
        then py "demo" ++ py "-" ++ py "1.0.0" ++ py ".tar"
        else [].
Proof.
  intros built path.
  apply (archive_file_name env args (py "modules/demo") demo_dir (py "demo") (py "out")
           (py "1.0.0") ∅ built.1 path).
  - reflexivity.
  - reflexivity.
  - vm_compute; reflexivity.
Defined.

(** ** A module directory that is a link *)

Lemma resolve_resolved n t : resolve n = Some t → resolve t = Some t.
Proof.
  induction n as [st data|st es _|st l [t'|] IH] using node_ind; cbn [resolve].
  - by intros [= <-].
  - by intros [= <-].
  - by apply IH.
  - done.
Qed.

Lemma lstat_resolved n t rel : resolve n = Some t → lstat n rel = lstat t rel.
Proof.
  intros Hn. unfold lstat. pose proof (split_on_nonempty SLASH rel) as Hne.
  destruct (split_on SLASH rel) as [|c comps]; [done|]. cbn [lstat_from].
  by rewrite Hn, (resolve_resolved _ _ Hn).
Qed.

Lemma list_files_resolved module_dir n t :
  resolve n = Some t → list_files module_dir n = list_files module_dir t.
Proof.
  intros Hn. unfold list_files, walk_top. by rewrite Hn, (resolve_resolved _ _ Hn).
Qed.

Lemma build_tarball_resolved env module_dir n t module_name out_dir module_version files :
  resolve n = Some t →
  build_tarball env module_dir n module_name out_dir module_version files
  = build_tarball env module_dir t module_name out_dir module_version files.
Proof.
  intros Hn. unfold build_tarball.
  rewrite (list_files_resolved _ _ _ Hn).
  destruct (list_files module_dir t) as [fl|e]; [|done].
  rewrite (add_members_ext env env module_dir t n module_name fl); [done|].
  intros rel tf _. unfold add_member. by rewrite (lstat_resolved _ _ _ Hn).
Qed.

(** X18.  A module directory that is itself a symbolic link to a
    directory is packaged as the directory it points to, without
    complaint: the check for links applies to what lies below the module
    directory, not to the module directory.  The manifest, the archive,
    and the turn of the loop are those of the target. *)
Theorem module_dir_link archive_bytes env args ts modules_dir out_dir v1_modules
    d n t files entries :
  resolve n = Some t →
  list_files (path_join modules_dir d) n = list_files (path_join modules_dir d) t
  ∧ (∀ module_name module_version,
       build_tarball env (path_join modules_dir d) n module_name out_dir module_version
                     files
       = build_tarball env (path_join modules_dir d) t module_name out_dir module_version
                       files)
  ∧ loop_body archive_bytes env args ts modules_dir out_dir v1_modules (d, n) files entries
    = loop_body archive_bytes env args ts modules_dir out_dir v1_modules (d, t) files
                entries.
Proof.
  intros Hn. split_and!.
  - by apply list_files_resolved.
  - intros. by apply build_tarball_resolved.
  - unfold loop_body. cbn [fst snd]. cbn zeta.
    assert (descriptor_of n = descriptor_of t) as ->
      by (unfold descriptor_of; by rewrite Hn, (resolve_resolved _ _ Hn)).
    destruct (read_module_yaml_scalars _ _) as [meta|e]; [|done].
    destruct (negb (selected args (name meta))); [done|].
    destruct (legacy_fields v1_modules meta) as [merged|e]; [|done].
    by rewrite (build_tarball_resolved _ _ _ _ _ _ _ _ Hn), (list_files_resolved _ _ _ Hn).
Qed.

Lemma module_dir_link_witness :
  let n := Symlink (st 2) (py "../elsewhere/demo") (Some demo_dir) in
  list_files (path_join (py "modules") (py "demo")) n
  = list_files (path_join (py "modules") (py "demo")) demo_dir
  ∧ (∀ module_name module_version,
       build_tarball env (path_join (py "modules") (py "demo")) n module_name (py "out")
                     module_version ∅
       = build_tarball env (path_join (py "modules") (py "demo")) demo_dir module_name
                       (py "out") module_version ∅)
  ∧ loop_body plain_bytes env args now (py "modules") (py "out") (JDict [])
              (py "demo", n) ∅ []
    = loop_body plain_bytes env args now (py "modules") (py "out") (JDict [])
                (py "demo", demo_dir) ∅ [].
Proof.
  intros n. apply module_dir_link. reflexivity.
Defined.

(** ** The timestamp and the legacy registry *)

Lemma strip_padded ws1 t ws2 :
  forallb is_space ws1 = true → forallb is_space ws2 = true →
  lstrip t = t → rstrip t = t →
  strip (ws1 ++ t ++ ws2) = t.
Proof.
  intros H1 H2 Hl Hr. unfold strip. rewrite lstrip_spaces by done.
  destruct t as [|c t].
  - cbn [app]. rewrite <- (app_nil_r ws2), lstrip_spaces by done. done.
  - rewrite lstrip_fixed_app, rstrip_spaces by done. done.
Qed.

(** X19.  The timestamp of a run: [--timestamp] is used without the white
    space around it and is not checked to be a date; when nothing is left
    of it, the reading of the clock is used instead. *)
Theorem timestamp_option args now ws1 t ws2 :
  timestamp args = ws1 ++ t ++ ws2 →
  forallb is_space ws1 = true → forallb is_space ws2 = true →
  lstrip t = t → rstrip t = t →
  build_timestamp args now = if bool_decide (t = []) then now else t.
Proof.
  intros Hts H1 H2 Hl Hr. unfold build_timestamp.
  rewrite Hts, strip_padded by done. by destruct t.
Qed.

Lemma timestamp_option_witness :
  let stamped :=
    mkArgs (py "v2.2.7") (py "official") (py "2.2.0")
           (py "https://github.com/Cognary/cognitive")
           (py "https://cognary.github.io/cognitive/") (py "MIT")
           (py " " ++ py "next tuesday" ++ [LF]) [] in
  build_timestamp stamped now
  = if bool_decide (py "next tuesday" = []) then now else py "next tuesday".
Proof.
  intros stamped.
  apply (timestamp_option stamped now (py " ") (py "next tuesday") [LF]);
    vm_compute; reflexivity.
Defined.

(** X20.  A legacy registry of the wrong shape: when the value under
    [modules] is not an object, or holds for the name of a module that is
    built a value that is not an object ([null], a string, a list), the
    turn of that module raises [AttributeError] before its archive is
    written, and the run ends there: the archives of the earlier modules
    stay, and no index is written. *)
Theorem legacy_not_object archive_bytes env args now modules_dir out_dir modules_tree
    v1 w v1_modules before m after files1 entries1 meta :
  json_get v1 (py "modules") (JDict []) = Ok v1_modules →
  discover modules_tree = before ++ m :: after →
  for_modules archive_bytes env args (build_timestamp args now) modules_dir out_dir
              v1_modules before (out_files w) [] = (files1, Ok entries1) →
  read_module_yaml_scalars (path_join (path_join modules_dir m.1) MODULE_YAML)
                           (descriptor_of m.2) = Ok meta →
  selected args (name meta) = true →
  (∀ mods, v1_modules = JDict mods →
     ∃ j, dict_get (name meta) mods = Some j ∧ ∀ info, j ≠ JDict info) →
  loop_body archive_bytes env args (build_timestamp args now) modules_dir out_dir
            v1_modules m files1 entries1 = (files1, Err AttributeError)
  ∧ main archive_bytes env args now modules_dir out_dir modules_tree v1 w
    = (mkWorld files1 (registry_out w), Err AttributeError).
Proof.
  intros Hv1 Hd Hbefore Hmeta Hs Hshape.
  assert (legacy_fields v1_modules meta = Err AttributeError) as Hl.
  { unfold legacy_fields. destruct v1_modules as [| | | | | |mods]; try done.
    destruct (Hshape mods eq_refl) as (j & Hj & Hno). cbn [json_get]. rewrite Hj.
    cbn [default mbind result_bind]. destruct j; try done. by destruct (Hno items). }
  assert (loop_body archive_bytes env args (build_timestamp args now) modules_dir out_dir
            v1_modules m files1 entries1 = (files1, Err AttributeError)) as Hbody.
  { unfold loop_body. cbn zeta. by rewrite Hmeta, Hs, Hl. }
  split; [done|].
  unfold main. rewrite Hv1, Hd, for_modules_app, Hbefore. cbn [for_modules].
  by rewrite Hbody.
Qed.

Lemma legacy_not_object_witness :
  let v1 := JDict [(py "modules", JDict [(py "demo", JNull)])] in
  let dirs := [(py "short", dup1_dir); (py "tool", demo_dir)] in
  let files1 := (turns [(py "short", dup1_dir)]).1 in
  let entries1 := ok_or [] (turns [(py "short", dup1_dir)]).2 in
  loop_body plain_bytes env args (build_timestamp args now) (py "modules") (py "out")
            (JDict [(py "demo", JNull)]) (py "tool", demo_dir) files1 entries1
  = (files1, Err AttributeError)
  ∧ main plain_bytes env args now (py "modules") (py "out") (modules_of dirs) v1
         empty_world
    = (mkWorld files1 (registry_out empty_world), Err AttributeError).
Proof.
  intros v1 dirs files1 entries1.
  apply (legacy_not_object plain_bytes env args now (py "modules") (py "out")
           (modules_of dirs) v1 empty_world (JDict [(py "demo", JNull)])
           [(py "short", dup1_dir)] (py "tool", demo_dir) [] files1 entries1
           (mkModuleMeta (py "demo") (py "1.0.0") (py "exec") (py "does things"))).
  - reflexivity.
  - vm_compute; reflexivity.
  - vm_compute; reflexivity.
  - vm_compute; reflexivity.
  - vm_compute; reflexivity.
  - intros mods [= <-]. exists JNull. split; [vm_compute; reflexivity|done].
Defined.
